(** * GitHub analytics collector: a shallow embedding of [scripts/collect.py]

    The collector polls the GitHub API and the npm registry for a list of
    repositories and persists what it sees as one JSON snapshot per day plus
    four CSV tables per repository.  This development embeds the sampling,
    delta, reconciliation, backfill and orchestration code as Rocq functions
    and proves the properties of the design specification against them.

    Modelling conventions.
    - Python [int] is [Z]; page numbers, indices and lengths are [nat].
    - Python [str] is [string], holding the UTF-8 bytes of the text; where
      the code counts characters ([starred_at[:10]]) the model counts code
      points ([py_prefix]).  Byte-wise order on UTF-8 is code-point order,
      which is how Python compares [str].
    - A [dict] used as a map is a [gmap]; a list is a [list].
    - The remote data source is a record of oracles ([remote]): one function
      per request shape, returning either a transport exception or an HTTP
      status with the decoded body.
    - The data directory is explicit state ([data_dir]) threaded through the
      stateful functions, keyed by the directory a repository name resolves
      to ([repo_data_dir]); console output is a list of [event]s.
    - A file operation of [collect_repo] may fail: the oracle [io_fails]
      says which ones raise [OSError], and a failed operation leaves its
      file as it was (a write that fails half-way is not modelled).
    - A CSV table is the list of rows handed to [csv.writer], kept with their
      Python types: the textual round trip through [csv.writer] and
      [csv.DictReader] (and [str]/[int] on counters) is not modelled. *)

From stdpp Require Import base gmap strings list pretty sorting.
From Stdlib Require Import ZArith Lia Ascii.

Local Open Scope string_scope.
Local Open Scope list_scope.
Local Open Scope Z_scope.

(* ===================================================================== *)
(** * Part I.  The program                                                *)
(* ===================================================================== *)

(** ** Python preliminaries *)

(** Exceptions that the modelled code can let escape. *)
Inductive exn : Type :=
| ValueError      (* unpacking [full_name.split("/")] into two names *)
| IndexError      (* [sample_pages[0] = 1] on an empty list *)
| AttributeError  (* [.get] on a configuration entry that is no dict *)
| OSError         (* a file operation failed *)
| OtherError (msg : string).

(** The outcome of a call that may raise. *)
Inductive py_result (A : Type) : Type :=
| Return (a : A)
| Raise (e : exn).
Arguments Return {A} a.
Arguments Raise {A} e.

(** What [requests.get] gives back: it raises [requests.RequestException]
    (timeout, connection error, ...) or returns a response with a status
    code and a body. *)
Inductive response (A : Type) : Type :=
| RequestException
| Response (status_code : Z) (body : A).
Arguments RequestException {A}.
Arguments Response {A} status_code body.

(** [round(a / k)] for non-negative integers [a] and positive [k]: Python
    rounds halves to the even neighbour.  The quotient is computed on the
    rationals; for the operands that occur (products below [400 * k]) the
    floating-point division of the source rounds the same way. *)
Definition py_round_div (a k : nat) : nat :=
  let q := (a / k)%nat in
  let r := (a mod k)%nat in
  if (2 * r <? k)%nat then q
  else if (k <? 2 * r)%nat then S q
  else if Nat.even q then q else S q.

(** [l.sort(key=...)] with string keys: Python's sort is stable, so the
    result is the one produced by stable insertion. *)
Section sort_by_key.
Context {A : Type} (key : A → string).

Fixpoint insert_by_key (x : A) (l : list A) : list A :=
  match l with
  | [] => [x]
  | y :: l' =>
      if String.ltb (key y) (key x) then y :: insert_by_key x l'
      else x :: y :: l'
  end.

Definition sort_by_key (l : list A) : list A :=
  foldr insert_by_key [] l.
End sort_by_key.

(** [s.split(c)] for a one-character separator. *)
Fixpoint split_on (c : ascii) (s : string) : list string :=
  match s with
  | EmptyString => [EmptyString]
  | String a s' =>
      if Ascii.eqb a c then EmptyString :: split_on c s'
      else match split_on c s' with
           | [] => [String a EmptyString]
           | w :: ws => String a w :: ws
           end
  end.

(** [l.remove(x)]: drops the first occurrence (the source only calls it
    when [x] is in the list). *)
Fixpoint remove_first (x : nat) (l : list nat) : list nat :=
  match l with
  | [] => []
  | y :: l' => if bool_decide (y = x) then l' else y :: remove_first x l'
  end.

(** [sum(...)] over integers. *)
Definition sum_Z (l : list Z) : Z := foldr Z.add 0 l.

(** [l[a:b]] for [0 <= a]. *)
Definition slice {A} (a b : nat) (l : list A) : list A :=
  take (b - a) (drop a l).

(** ** Records exchanged with the remote data source *)

Record star_record := StarRecord {
  sr_date : string;
  sr_stars : Z;
}.

(** One page of the stargazer feed: the [starred_at] timestamps of its
    entries, oldest first, and the page number that the [Link] header marks
    [rel="last"], when it has one. *)
Record star_page := StarPage {
  starred_at : list string;
  link_last : option nat;
}.

Record asset := Asset {
  asset_name : string;
  asset_download_count : Z;
  asset_size : Z;
}.

Record release := Release {
  release_tag : string;
  release_name : string;
  release_published_at : string;
  release_assets : list asset;
}.

Record repo_info := RepoInfo {
  ri_full_name : string;
  ri_stars : Z;
  ri_forks : Z;
  ri_watchers : Z;
  ri_open_issues_and_prs : Z;
  ri_size_kb : Z;
}.

Record traffic_counts := TrafficCounts {
  tc_count : Z;
  tc_uniques : Z;
  tc_daily : list (string * Z * Z);
}.

Record traffic := Traffic {
  tr_views : option traffic_counts;
  tr_clones : option traffic_counts;
  tr_referrers : list (string * Z * Z);
  tr_popular_paths : list (string * Z * Z);
}.

Record issue_counts := IssueCounts {
  ic_open_issues : Z;
  ic_open_prs : Z;
}.

Record code_frequency := CodeFrequency {
  cf_week : string;
  cf_additions : Z;
  cf_deletions : Z;
}.

(** The result dictionary of [collect_npm_downloads]. *)
Record package_stats := PackageStats {
  ps_package : string;
  ps_source : string;
  ps_daily_downloads : Z;
  ps_weekly_downloads : Z;
}.

(** A record of [collect_npm_history]: one day of one package. *)
Record history_record := HistoryRecord {
  hr_date : string;
  hr_package : string;
  hr_source : string;
  hr_daily_downloads : Z;
  hr_weekly_downloads : Z;
}.

(** The four tables of a repository directory. *)
Inductive table_name : Type :=
| AggregateTable | ReleasesTable | PackagesTable | StarHistoryTable.

(** The file operations of [collect_repo] that can raise [OSError], in the
    order of lines 606-718: creating the directories, writing the snapshot,
    and for a table the header written by [ensure_csv_headers], the rows
    appended (for [star_history.csv]: the file rewritten), the unguarded
    read of the dates of [packages.csv], and the rows of the backfill. *)
Inductive io_point : Type :=
| MakeDirs
| WriteSnapshot
| WriteHeader (t : table_name)
| WriteRows (t : table_name)
| ReadPackagesDates
| WriteBackfill.

(** The world outside the program: the remote data source, the clock and
    the faults of the local file system.  The collectors that wrap a
    single request and reshape its body ([collect_repo_info],
    [collect_traffic], [collect_releases], [collect_languages],
    [collect_code_frequency], [collect_contributors_count],
    [collect_issue_counts]) are represented by what they return. *)
Record remote := Remote {
  collect_repo_info : string → string → option repo_info;
  collect_traffic : string → string → traffic;
  collect_releases : string → string → list release;
  collect_languages : string → string → list (string * Z);
  collect_code_frequency : string → string → option code_frequency;
  collect_contributors_count : string → string → Z;
  collect_issue_counts : string → string → issue_counts;
  (* GET .../stargazers?per_page=100[&page=N]; [None] is the first request,
     which carries no page parameter *)
  get_stargazers : string → string → option nat → response star_page;
  (* GET /downloads/point/{period}/{package}; the body is its "downloads" *)
  get_npm_point : string → string → response (option Z);
  (* GET /downloads/range/{start}:{end}/{package}; the body is the list of
     (day, downloads) entries under "downloads" *)
  get_npm_range : string → string → string → response (list (string * Z));
  (* datetime.now(timezone.utc): the current day as a day number, its
     ISO timestamp, and strftime("%Y-%m-%d") on day numbers *)
  now_day : Z;
  now_isoformat : string;
  strftime_ymd : Z → string;
  (* whether the file operation raises [OSError] when it is attempted in
     the repository directory given by its path *)
  io_fails : list string → io_point → bool;
}.

(** A file system on which every operation goes through. *)
Definition no_io_fault : list string → io_point → bool := λ _ _, false.

(** ** Sampling engine: [collect_star_history] *)

(** The pages to sample (lines 283-292).  [None] stands for the
    [IndexError] of [sample_pages[0] = 1] on an empty list. *)
Definition sample_pages (page_count sample_count : nat) : option (list nat) :=
  if (page_count <=? sample_count)%nat then Some (seq 1 page_count)
  else
    let pages :=
      (λ i, Nat.max 1 (py_round_div (i * page_count) sample_count))
        <$> seq 1 sample_count in
    if bool_decide (1%nat ∈ pages) then Some pages
    else match pages with
         | [] => None
         | _ :: rest => Some (1%nat :: rest)
         end.

(** [s[:n]]: the first [n] code points of [s].  In UTF-8 a code point
    starts at every byte that is not a continuation byte ([10xxxxxx]). *)
Definition utf8_continuation (a : ascii) : bool :=
  let n := nat_of_ascii a in (128 <=? n)%nat && (n <? 192)%nat.

Fixpoint py_prefix (n : nat) (s : string) : string :=
  match s with
  | EmptyString => EmptyString
  | String a s' =>
      if utf8_continuation a then String a (py_prefix n s')
      else match n with
           | O => EmptyString
           | S n' => String a (py_prefix n' s')
           end
  end.

(** [len(s)]: the number of code points. *)
Definition py_len (s : string) : nat :=
  length (filter (λ a, utf8_continuation a = false)
            (String.list_ascii_of_string s)).

Definition star_point (first_starred_at : string) (page : nat) : star_record :=
  StarRecord (py_prefix 10 first_starred_at) ((Z.of_nat page - 1) * 100 + 1).

(** The loop over the remaining sample pages (lines 306-315).  [None] means
    that a request raised [RequestException], which leaves the loop. *)
Fixpoint fetch_sample_pages (get : option nat → response star_page)
    (pages : list nat) (star_records : list star_record)
    : option (list star_record) :=
  match pages with
  | [] => Some star_records
  | page :: rest =>
      match get (Some page) with
      | RequestException => None
      | Response status data =>
          if bool_decide (status ≠ 200) then
            fetch_sample_pages get rest star_records
          else match starred_at data with
               | [] => fetch_sample_pages get rest star_records
               | first :: _ =>
                   fetch_sample_pages get rest
                     (star_records ++ [star_point first page])
               end
      end
  end.

(** The page count read from the first response, capped (lines 270-281). *)
Definition capped_page_count (first : star_page) : nat :=
  let page_count := default 1%nat (link_last first) in
  if (400 <? page_count)%nat then 400%nat else page_count.

Definition collect_star_history (w : remote) (owner repo : string)
    (sample_count : nat) : py_result (list star_record) :=
  let get := get_stargazers w owner repo in
  match get None with
  | RequestException => Return []
  | Response status first =>
      if bool_decide (status ≠ 200) then Return []
      else
        let page_count := capped_page_count first in
        match sample_pages page_count sample_count with
        | None => Raise IndexError
        | Some pages =>
            let '(star_records, pages) :=
              match starred_at first with
              | first_item :: _ =>
                  if bool_decide (1%nat ∈ pages)
                  then ([star_point first_item 1], remove_first 1 pages)
                  else ([], pages)
              | [] => ([], pages)
              end in
            match fetch_sample_pages get pages star_records with
            | None => Return []
            | Some star_records => Return (sort_by_key sr_date star_records)
            end
        end
  end.

(** ** Console output and observable requests *)

(** A configuration entry of [config.json]: a bare repository name, or an
    object with an optional ["repo"] and optional ["packages"], or some
    other JSON value. *)
Inductive repo_entry : Type :=
| EntryStr (name : string)
| EntryDict (repo : option string) (packages : option (gmap string (list string)))
| EntryOther.

Inductive event : Type :=
| AlreadyCollected (date : string)        (* "Already collected for ..., skipping" *)
| FailedRepoInfo                          (* "Failed to fetch repository info" *)
| SavedSnapshot (date : string)           (* "Saved snapshot to ..." *)
| Updated (t : table_name)                (* "Updated <table>": the append reported True *)
| AlreadyHasData (t : table_name) (date : string)
                                          (* "<table> already has data for ...": it reported False *)
| Backfilling                             (* "Backfilling npm historical data..." *)
| NpmRangeRequest (package start_date end_date : string)
                                          (* the GET of [collect_npm_history] *)
| AddedHistorical (n : nat)               (* "Added n days of historical npm data" *)
| ConfigNotFound
| NoRepositories
| SkippingInvalid (entry : repo_entry)    (* "Skipping invalid config entry" *)
| ErrorCollecting (entry : repo_entry) (e : exn)
                                          (* "Error collecting ...: ..." *)
| Done (success_count total : nat).

(** ** Package registry collection *)

(** [packages_config.get("npm", [])]. *)
Definition npm_packages (packages_config : gmap string (list string)) : list string :=
  default [] (packages_config !! "npm").

(** Truthiness of the optional [packages_config] dictionary. *)
Definition config_truthy (packages_config : option (gmap string (list string))) : bool :=
  match packages_config with
  | None => false
  | Some m => bool_decide (m ≠ ∅)
  end.

(** Lines 331-361.  An exception of the first request skips the second:
    both sit in one [try] block. *)
Definition collect_npm_downloads (w : remote) (package_name date : string)
    : package_stats :=
  let result := PackageStats package_name "npm" 0 0 in
  match get_npm_point w date package_name with
  | RequestException => result
  | Response status data =>
      let result :=
        if bool_decide (status = 200)
        then PackageStats package_name "npm" (default 0 data) 0
        else result in
      match get_npm_point w "last-week" package_name with
      | RequestException => result
      | Response status data =>
          if bool_decide (status = 200)
          then PackageStats package_name "npm"
                 (ps_daily_downloads result) (default 0 data)
          else result
      end
  end.

(** The rolling 7-day sum of lines 391-396: the loop runs over the indices
    and overwrites [weekly_downloads] of record [i] in place, reading the
    daily counts of [records[start_idx:i+1]]. *)
Definition set_weekly (r : history_record) (weekly_sum : Z) : history_record :=
  HistoryRecord (hr_date r) (hr_package r) (hr_source r)
    (hr_daily_downloads r) weekly_sum.

Definition rolling_step (records : list history_record) (i : nat)
    : list history_record :=
  match records !! i with
  | None => records
  | Some record =>
      let start_idx := Nat.max 0 (i - 6) in
      let weekly_sum :=
        sum_Z (hr_daily_downloads <$> slice start_idx (i + 1) records) in
      <[i := set_weekly record weekly_sum]> records
  end.

Definition rolling_weekly (records : list history_record) : list history_record :=
  foldl rolling_step records (seq 0 (length records)).

(** Lines 364-406, given the response of the range request. *)
Definition npm_history_records (package_name : string)
    (resp : response (list (string * Z))) : list history_record :=
  match resp with
  | RequestException => []
  | Response status downloads_list =>
      if bool_decide (status = 200) then
        rolling_weekly
          ((λ entry, HistoryRecord entry.1 package_name "npm" entry.2 0)
             <$> downloads_list)
      else []
  end.

Definition collect_npm_history (w : remote) (package_name start_date end_date : string)
    : list history_record * list event :=
  (npm_history_records package_name
     (get_npm_range w start_date end_date package_name),
   [NpmRangeRequest package_name start_date end_date]).

(** Lines 409-433.  [existing_dates] is the set built by the caller; the
    two readings of the clock are taken as one. *)
Definition collect_package_history (w : remote)
    (packages_config : gmap string (list string)) (existing_dates : gset string)
    : list history_record * list event :=
  let end_date := strftime_ymd w (now_day w - 1) in
  let start_date := strftime_ymd w (now_day w - 365) in
  foldl
    (λ '(all_records, log) package_name,
       let '(records, reqs) :=
         collect_npm_history w package_name start_date end_date in
       let new_records :=
         filter (λ r, hr_date r ∉ existing_dates) records in
       (all_records ++ new_records, log ++ reqs))
    ([], []) (npm_packages packages_config).

(** Lines 436-457. *)
Definition collect_package_downloads (w : remote)
    (packages_config : gmap string (list string)) (date : string)
    : list package_stats :=
  foldl
    (λ results package_name,
       let stats := collect_npm_downloads w package_name date in
       if bool_decide (ps_daily_downloads stats > 0
                       ∨ ps_weekly_downloads stats > 0)
       then results ++ [stats] else results)
    [] (npm_packages packages_config).

(** Lines 460-466. *)
Definition calculate_total_downloads (releases : list release) : Z :=
  foldl
    (λ total release,
       foldl (λ total asset, total + asset_download_count asset)
         total (release_assets release))
    0 releases.

(** ** Reconciliation store *)

(** Rows of the four tables, in the column order of the headers. *)
Record aggregate_row := AggregateRow {
  ag_date : string;
  ag_views : option Z;          (* [None] is written as the empty field *)
  ag_views_unique : option Z;
  ag_clones : option Z;
  ag_clones_unique : option Z;
  ag_stars : Z;
  ag_forks : Z;
  ag_open_issues : Z;
  ag_open_prs : Z;
  ag_watchers : Z;
  ag_size_kb : Z;
  ag_releases_downloads : Z;
}.

Record release_row := ReleaseRow {
  rr_date : string;
  rr_tag : string;
  rr_asset_name : string;
  rr_asset_size : Z;
  rr_download_count : Z;
  rr_downloads_delta : Z;
}.

Record package_row := PackageRow {
  pr_date : string;
  pr_source : string;
  pr_package : string;
  pr_daily_downloads : Z;
  pr_weekly_downloads : Z;
}.

(** The ["date"] column, which every table has. *)
Class Dated (R : Type) := row_date : R → string.
#[global] Instance aggregate_dated : Dated aggregate_row := ag_date.
#[global] Instance release_dated : Dated release_row := rr_date.
#[global] Instance package_dated : Dated package_row := pr_date.
#[global] Instance star_dated : Dated star_record := sr_date.

(** A CSV file: absent, or a header line followed by rows. *)
Definition csv_file (R : Type) : Type := option (list R).

Record snapshot := Snapshot {
  snap_collected_at : string;
  snap_repo : repo_info;
  snap_traffic : traffic;
  snap_releases : list release;
  snap_languages : list (string * Z);
  snap_code_frequency : option code_frequency;
  snap_contributors_count : Z;
  snap_releases_downloads : Z;
  snap_star_history : list star_record;
  snap_issue_counts : issue_counts;
  snap_packages : list package_stats;
}.

(** [DATA_DIR / owner / repo]: the dated snapshot files and the tables. *)
Record repo_dir := RepoDir {
  snapshots : gmap string snapshot;
  aggregate_csv : csv_file aggregate_row;
  releases_csv : csv_file release_row;
  packages_csv : csv_file package_row;
  star_history_csv : csv_file star_record;
}.

Definition empty_repo_dir : repo_dir := RepoDir ∅ None None None None.

(** A directory is named by the names that lead to it from [ROOT_DIR]; a
    leading [".."] leaves [ROOT_DIR].  Line 23: [DATA_DIR = ROOT_DIR / "data"]. *)
Definition DATA_DIR : list string := ["data"].

(** [path / name] for a [name] without ["/"], as the file system resolves
    it: pathlib drops the names [""] and ["."], and [".."] leads to the
    parent directory.  Names are compared byte for byte; there is no
    symbolic link, and [ROOT_DIR] is not the root of the file system. *)
Definition path_child (path : list string) (name : string) : list string :=
  if bool_decide (name = "" ∨ name = ".") then path
  else if bool_decide (name = "..") then
    match reverse path with
    | [] => [".."]
    | last_name :: before =>
        if bool_decide (last_name = "..") then path ++ [".."]
        else reverse before
    end
  else path ++ [name].

(** Line 604: [DATA_DIR / owner / repo].  Two names can lead to one
    directory (["r/"] and ["/r"] both lead to [data/r]). *)
Definition repo_data_dir (owner repo : string) : list string :=
  path_child (path_child DATA_DIR owner) repo.

(** The repository directories that hold something, by the directory they
    are.  A directory without an entry holds no snapshot and no table.  A
    file of one repository directory that is a directory of another (a
    repository named [snapshots] or [aggregate.csv]) is not modelled. *)
Abbreviation data_dir := (gmap (list string) repo_dir).

(** Lines 489-495: the header line is written when the file is absent. *)
Definition ensure_csv_headers {R} (csv : csv_file R) : csv_file R :=
  match csv with
  | None => Some []
  | Some rows => Some rows
  end.

(** Lines 498-510. *)
Definition date_exists_in_csv `{Dated R} (csv : csv_file R) (date : string) : bool :=
  match csv with
  | None => false
  | Some rows => existsb (λ row, bool_decide (row_date row = date)) rows
  end.

(** Opening in append mode and writing rows. *)
Definition append_rows {R} (csv : csv_file R) (rows : list R) : csv_file R :=
  Some (default [] csv ++ rows).

(** The row of lines 520-539. *)
Definition aggregate_row_of (date : string) (snap : snapshot) : aggregate_row :=
  let repo_info := snap_repo snap in
  let traffic := snap_traffic snap in
  let views := tr_views traffic in
  let clones := tr_clones traffic in
  let issue_counts := snap_issue_counts snap in
  AggregateRow date
    (tc_count <$> views) (tc_uniques <$> views)
    (tc_count <$> clones) (tc_uniques <$> clones)
    (ri_stars repo_info) (ri_forks repo_info)
    (ic_open_issues issue_counts) (ic_open_prs issue_counts)
    (ri_watchers repo_info) (ri_size_kb repo_info)
    (snap_releases_downloads snap).

(** Lines 513-544. *)
Definition append_aggregate_row (csv : csv_file aggregate_row) (date : string)
    (snap : snapshot) : bool * csv_file aggregate_row :=
  let csv := ensure_csv_headers csv in
  if date_exists_in_csv csv date then (false, csv)
  else (true, append_rows csv [aggregate_row_of date snap]).

(** The dictionary key of a (tag, asset) pair: [f"{tag}|{name}"]. *)
Definition release_key (tag name : string) : string :=
  tag +:+ "|" +:+ name.

(** Lines 469-486: every row overwrites the entry of its key. *)
Definition get_previous_releases_data (csv : csv_file release_row) : gmap string Z :=
  match csv with
  | None => ∅
  | Some rows =>
      foldl
        (λ previous row,
           <[release_key (rr_tag row) (rr_asset_name row) := rr_download_count row]>
             previous)
        ∅ rows
  end.

(** The rows of lines 555-567. *)
Definition release_rows (date : string) (releases : list release)
    (previous_data : gmap string Z) : list release_row :=
  release ← releases;
  asset ← release_assets release;
  let tag := release_tag release in
  let name := asset_name asset in
  let count := asset_download_count asset in
  let size := asset_size asset in
  let key := release_key tag name in
  let previous_count := default count (previous_data !! key) in
  let delta := count - previous_count in
  [ReleaseRow date tag name size count delta].

(** Lines 547-572. *)
Definition update_releases_csv (csv : csv_file release_row) (date : string)
    (releases : list release) (previous_data : gmap string Z)
    : bool * csv_file release_row :=
  let csv := ensure_csv_headers csv in
  if date_exists_in_csv csv date then (false, csv)
  else (true, append_rows csv (release_rows date releases previous_data)).

(** The rows of lines 582-590. *)
Definition package_rows (date : string) (packages_data : list package_stats)
    : list package_row :=
  (λ pkg, PackageRow date (ps_source pkg) (ps_package pkg)
            (ps_daily_downloads pkg) (ps_weekly_downloads pkg))
    <$> packages_data.

(** Lines 575-596. *)
Definition update_packages_csv (csv : csv_file package_row) (date : string)
    (packages_data : list package_stats) : bool * csv_file package_row :=
  let csv := ensure_csv_headers csv in
  if date_exists_in_csv csv date then (false, csv)
  else
    let rows := package_rows date packages_data in
    (true, match rows with [] => csv | _ :: _ => append_rows csv rows end).

(** The size in bytes of [star_history.csv] as [csv.writer] lays it out:
    fields separated by commas, lines ended by CR LF, and a field that holds
    a comma, a quote, CR or LF wrapped in quotes with its quotes doubled. *)
Definition dquote : ascii := ascii_of_nat 34.
Definition csv_special (a : ascii) : bool :=
  bool_decide (a ∈ ["," ; dquote ; ascii_of_nat 13 ; ascii_of_nat 10]%char).

Definition csv_field_size (s : string) : nat :=
  let chars := String.list_ascii_of_string s in
  if existsb csv_special chars
  then (length chars + 2 + length (filter (λ a, a = dquote) chars))%nat
  else length chars.

Definition csv_line_size (fields : list string) : nat :=
  (foldr Nat.add 0 (csv_field_size <$> fields) + (length fields - 1) + 2)%nat.

Definition star_history_st_size (rows : list star_record) : nat :=
  (csv_line_size ["date"; "stars"]
   + foldr Nat.add 0
       ((λ r, csv_line_size [sr_date r; pretty (sr_stars r)]) <$> rows))%nat.

(** ** Per-repository collection: [collect_repo] *)

Definition history_row (pkg : history_record) : package_row :=
  PackageRow (hr_date pkg) (hr_source pkg) (hr_package pkg)
    (hr_daily_downloads pkg) (hr_weekly_downloads pkg).

Definition append_report (t : table_name) (date : string) (appended : bool) : event :=
  if appended then Updated t else AlreadyHasData t date.

(** Lines 674-700: the backfill planner.  The dates already in
    [packages.csv] are counted over the whole table. *)
Definition backfill_packages (w : remote)
    (packages_config : gmap string (list string)) (csv : csv_file package_row)
    : csv_file package_row * list event :=
  let existing_dates : gset string := list_to_set (pr_date <$> default [] csv) in
  if bool_decide (size existing_dates < 30)%nat then
    let '(historical_data, requests) :=
      collect_package_history w packages_config existing_dates in
    match historical_data with
    | [] => (csv, Backfilling :: requests)
    | _ :: _ =>
        let csv := ensure_csv_headers csv in
        let historical_data := sort_by_key hr_date historical_data in
        (append_rows csv (history_row <$> historical_data),
         Backfilling :: requests ++ [AddedHistorical (length historical_data)])
    end
  else (csv, []).

(** Lines 671-707: backfill, then the live rows of the day; entered when
    [packages_config] is truthy. *)
Definition update_packages_section (w : remote)
    (packages_config : gmap string (list string)) (date : string)
    (packages_data : list package_stats) (csv : csv_file package_row)
    : csv_file package_row * list event :=
  let '(csv, log) := backfill_packages w packages_config csv in
  match packages_data with
  | [] => (csv, log)
  | _ :: _ =>
      let '(appended, csv) := update_packages_csv csv date packages_data in
      (csv, log ++ [append_report PackagesTable date appended])
  end.

(** Lines 709-718: the star history file is rewritten from scratch when
    there is data and the file is absent or shorter than 500 bytes. *)
Definition update_star_history_csv (star_history : list star_record)
    (csv : csv_file star_record) : csv_file star_record * list event :=
  let small_or_absent :=
    match csv with
    | None => true
    | Some rows => bool_decide (star_history_st_size rows < 500)%nat
    end in
  match star_history with
  | [] => (csv, [])
  | _ :: _ =>
      if small_or_absent then (Some star_history, [Updated StarHistoryTable])
      else (csv, [])
  end.

(** *** File operations that fail *)

(** What a file operation, or a sequence of them, gives: it completed with
    a result, or raised [OSError] leaving what it had written so far. *)
Inductive io_result (A B : Type) : Type :=
| Completed (b : B)
| OSRaised (a : A).
Arguments Completed {A B} b.
Arguments OSRaised {A B} a.

(** The writes of a pass act on the repository directory and on the output
    printed so far. *)
Definition writes : Type := repo_dir * list event.

Definition and_then (r : io_result writes writes)
    (step : writes → io_result writes writes) : io_result writes writes :=
  match r with
  | Completed s => step s
  | OSRaised s => OSRaised s
  end.

(** A date-keyed append ([append_aggregate_row], [update_releases_csv],
    [update_packages_csv]) on a file system with faults.  [result] is what
    the function gives when no operation fails.  [ensure_csv_headers]
    writes when the file is absent; the file is opened for appending when
    the date is not in it. *)
Definition try_append `{Dated R} (fails : io_point → bool) (t : table_name)
    (csv : csv_file R) (date : string) (result : bool * csv_file R)
    : io_result (csv_file R) (bool * csv_file R) :=
  let header_fails :=
    match csv with
    | None => fails (WriteHeader t)
    | Some _ => false
    end in
  if header_fails then OSRaised csv
  else
    let csv := ensure_csv_headers csv in
    if negb (date_exists_in_csv csv date) && fails (WriteRows t)
    then OSRaised csv
    else Completed result.

(** Line 652. *)
Definition write_snapshot (fails : io_point → bool) (date : string)
    (snap : snapshot) : writes → io_result writes writes :=
  λ '(dir, log),
    if fails WriteSnapshot then OSRaised (dir, log)
    else
      Completed
        (RepoDir (<[date := snap]> (snapshots dir)) (aggregate_csv dir)
           (releases_csv dir) (packages_csv dir) (star_history_csv dir),
         log ++ [SavedSnapshot date]).

(** Lines 656-661. *)
Definition write_aggregate (fails : io_point → bool) (date : string)
    (snap : snapshot) : writes → io_result writes writes :=
  λ '(dir, log),
    let with_csv csv :=
      RepoDir (snapshots dir) csv (releases_csv dir) (packages_csv dir)
        (star_history_csv dir) in
    match try_append fails AggregateTable (aggregate_csv dir) date
            (append_aggregate_row (aggregate_csv dir) date snap) with
    | OSRaised csv => OSRaised (with_csv csv, log)
    | Completed (appended, csv) =>
        Completed (with_csv csv,
                   log ++ [append_report AggregateTable date appended])
    end.

(** Lines 663-669.  [update_releases_csv] opens the file for appending
    also when there is no row to write. *)
Definition write_releases (fails : io_point → bool) (date : string)
    (releases : list release) : writes → io_result writes writes :=
  λ '(dir, log),
    let with_csv csv :=
      RepoDir (snapshots dir) (aggregate_csv dir) csv (packages_csv dir)
        (star_history_csv dir) in
    let previous_releases := get_previous_releases_data (releases_csv dir) in
    match try_append fails ReleasesTable (releases_csv dir) date
            (update_releases_csv (releases_csv dir) date releases
               previous_releases) with
    | OSRaised csv => OSRaised (with_csv csv, log)
    | Completed (appended, csv) =>
        Completed (with_csv csv,
                   log ++ [append_report ReleasesTable date appended])
    end.

(** Lines 683-700 with faults: the requests are sent before anything is
    written. *)
Definition try_backfill_packages (fails : io_point → bool) (w : remote)
    (packages_config : gmap string (list string)) (csv : csv_file package_row)
    : io_result (csv_file package_row * list event)
                (csv_file package_row * list event) :=
  let existing_dates : gset string := list_to_set (pr_date <$> default [] csv) in
  if bool_decide (size existing_dates < 30)%nat then
    let '(historical_data, requests) :=
      collect_package_history w packages_config existing_dates in
    match historical_data with
    | [] => Completed (csv, Backfilling :: requests)
    | _ :: _ =>
        let header_fails :=
          match csv with
          | None => fails (WriteHeader PackagesTable)
          | Some _ => false
          end in
        if header_fails then OSRaised (csv, Backfilling :: requests)
        else
          let csv := ensure_csv_headers csv in
          if fails WriteBackfill then OSRaised (csv, Backfilling :: requests)
          else
            let historical_data := sort_by_key hr_date historical_data in
            Completed
              (append_rows csv (history_row <$> historical_data),
               Backfilling :: requests
               ++ [AddedHistorical (length historical_data)])
    end
  else Completed (csv, []).

(** Lines 671-707 with faults.  The dates of an existing [packages.csv]
    are read outside any [try]. *)
Definition try_update_packages_section (fails : io_point → bool) (w : remote)
    (packages_config : gmap string (list string)) (date : string)
    (packages_data : list package_stats) (csv : csv_file package_row)
    : io_result (csv_file package_row * list event)
                (csv_file package_row * list event) :=
  let read_fails :=
    match csv with
    | None => false
    | Some _ => fails ReadPackagesDates
    end in
  if read_fails then OSRaised (csv, [])
  else
    match try_backfill_packages fails w packages_config csv with
    | OSRaised s => OSRaised s
    | Completed (csv, log) =>
        match packages_data with
        | [] => Completed (csv, log)
        | _ :: _ =>
            match try_append fails PackagesTable csv date
                    (update_packages_csv csv date packages_data) with
            | OSRaised csv => OSRaised (csv, log)
            | Completed (appended, csv) =>
                Completed
                  (csv, log ++ [append_report PackagesTable date appended])
            end
        end
    end.

Definition write_packages (fails : io_point → bool) (w : remote)
    (packages_config : option (gmap string (list string))) (date : string)
    (packages_data : list package_stats) : writes → io_result writes writes :=
  λ '(dir, log),
    let with_csv csv :=
      RepoDir (snapshots dir) (aggregate_csv dir) (releases_csv dir) csv
        (star_history_csv dir) in
    match packages_config with
    | Some cfg =>
        if config_truthy packages_config then
          match try_update_packages_section fails w cfg date packages_data
                  (packages_csv dir) with
          | OSRaised (csv, log_packages) =>
              OSRaised (with_csv csv, log ++ log_packages)
          | Completed (csv, log_packages) =>
              Completed (with_csv csv, log ++ log_packages)
          end
        else Completed (dir, log)
    | None => Completed (dir, log)
    end.

(** Lines 709-718 with faults. *)
Definition try_update_star_history_csv (fails : io_point → bool)
    (star_history : list star_record) (csv : csv_file star_record)
    : io_result (csv_file star_record) (csv_file star_record * list event) :=
  let small_or_absent :=
    match csv with
    | None => true
    | Some rows => bool_decide (star_history_st_size rows < 500)%nat
    end in
  match star_history with
  | [] => Completed (csv, [])
  | _ :: _ =>
      if small_or_absent then
        let header_fails :=
          match csv with
          | None => fails (WriteHeader StarHistoryTable)
          | Some _ => false
          end in
        if header_fails then OSRaised csv
        else if fails (WriteRows StarHistoryTable)
             then OSRaised (ensure_csv_headers csv)
             else Completed (Some star_history, [Updated StarHistoryTable])
      else Completed (csv, [])
  end.

Definition write_star_history (fails : io_point → bool)
    (star_history : list star_record) : writes → io_result writes writes :=
  λ '(dir, log),
    let with_csv csv :=
      RepoDir (snapshots dir) (aggregate_csv dir) (releases_csv dir)
        (packages_csv dir) csv in
    match try_update_star_history_csv fails star_history
            (star_history_csv dir) with
    | OSRaised csv => OSRaised (with_csv csv, log)
    | Completed (csv, log_star) => Completed (with_csv csv, log ++ log_star)
    end.

(** Lines 651-718: the writes of a pass, in their order. *)
Definition write_tables (fails : io_point → bool) (w : remote) (date : string)
    (packages_config : option (gmap string (list string))) (snap : snapshot)
    (releases : list release) (packages_data : list package_stats)
    (star_history : list star_record) : writes → io_result writes writes :=
  λ s,
    and_then
      (and_then
         (and_then
            (and_then (write_snapshot fails date snap s)
               (write_aggregate fails date snap))
            (write_releases fails date releases))
         (write_packages fails w packages_config date packages_data))
      (write_star_history fails star_history).

(** Lines 599-720.  The result is what the call returns or raises, the data
    directory it leaves, and what it printed.  [date] is the file name of
    the snapshot without its extension: [main] passes a "%Y-%m-%d" date. *)
Definition collect_repo (w : remote) (full_name date : string)
    (packages_config : option (gmap string (list string))) (fs : data_dir)
    : py_result bool * data_dir * list event :=
  match split_on "/" full_name with
  | [owner; repo] =>
      let key := repo_data_dir owner repo in
      let fails := io_fails w key in
      (* snapshots_dir.mkdir(parents=True, exist_ok=True) *)
      let mkdir_fails :=
        match fs !! key with
        | None => fails MakeDirs
        | Some _ => false
        end in
      if mkdir_fails then (Raise OSError, fs, [])
      else
      let dir := default empty_repo_dir (fs !! key) in
      let fs := <[key := dir]> fs in
      if bool_decide (is_Some (snapshots dir !! date)) then
        (Return true, fs, [AlreadyCollected date])
      else
        match collect_repo_info w owner repo with
        | None => (Return false, fs, [FailedRepoInfo])
        | Some repo_info =>
            let traffic := collect_traffic w owner repo in
            let releases := collect_releases w owner repo in
            let languages := collect_languages w owner repo in
            let code_frequency := collect_code_frequency w owner repo in
            let contributors_count := collect_contributors_count w owner repo in
            let total_downloads := calculate_total_downloads releases in
            match collect_star_history w owner repo 15 with
            | Raise e => (Raise e, fs, [])
            | Return star_history =>
                let issue_counts := collect_issue_counts w owner repo in
                let packages_data :=
                  match packages_config with
                  | Some cfg =>
                      if config_truthy packages_config
                      then collect_package_downloads w cfg date else []
                  | None => []
                  end in
                let snap :=
                  Snapshot (now_isoformat w) repo_info traffic releases languages
                    code_frequency contributors_count total_downloads
                    star_history issue_counts packages_data in
                match write_tables fails w date packages_config snap
                        releases packages_data star_history (dir, []) with
                | Completed (dir, log) => (Return true, <[key := dir]> fs, log)
                | OSRaised (dir, log) => (Raise OSError, <[key := dir]> fs, log)
                end
            end
        end
  | _ => (Raise ValueError, fs, [])
  end.

(** ** Run orchestrator: [main] *)

(** [config.json], when the file exists: its ["repos"] list, if any. *)
Record config := Config {
  cfg_repos : option (list repo_entry);
}.

(** What became of one configuration entry in the loop of lines 749-766. *)
Inductive entry_outcome : Type :=
| Succeeded            (* [collect_repo] returned True *)
| Failed               (* [collect_repo] returned False *)
| Errored (e : exn)    (* an exception was caught *)
| Invalid.             (* no repository name: skipped *)

Section orchestrator.
(** The loop is written over any per-repository collection function, so
    that what it does with an exception does not depend on which
    exceptions [collect_repo] can raise. *)
Variable collect :
  string → string → option (gmap string (list string)) → data_dir →
  py_result bool * data_dir * list event.

(** The body of the loop, lines 750-766. *)
Definition run_entry (today : string) (entry : repo_entry) (fs : data_dir)
    : entry_outcome * data_dir * list event :=
  match entry with
  | EntryOther =>
      (Errored AttributeError, fs, [ErrorCollecting entry AttributeError])
  | EntryStr _ | EntryDict _ _ =>
      let '(repo_name, packages_config) :=
        match entry with
        | EntryStr name => (Some name, None)
        | EntryDict repo packages => (repo, Some (default ∅ packages))
        | EntryOther => (None, None)
        end in
      match repo_name with
      | None => (Invalid, fs, [SkippingInvalid entry])
      | Some repo_name =>
          if bool_decide (repo_name = "") then
            (Invalid, fs, [SkippingInvalid entry])
          else
            match collect repo_name today packages_config fs with
            | (Return true, fs, log) => (Succeeded, fs, log)
            | (Return false, fs, log) => (Failed, fs, log)
            | (Raise e, fs, log) =>
                (Errored e, fs, log ++ [ErrorCollecting entry e])
            end
      end
  end.

(** Lines 748-766: [success_count] and the state after the loop. *)
Definition main_loop (today : string) (repos_config : list repo_entry)
    (fs : data_dir) : nat * data_dir * list event :=
  foldl
    (λ '(success_count, fs, log) entry,
       let '(outcome, fs, log_entry) := run_entry today entry fs in
       (match outcome with
        | Succeeded => S success_count
        | _ => success_count
        end, fs, log ++ log_entry))
    (0%nat, fs, []) repos_config.

(** Lines 723-769: the exit status, the data directory and the output. *)
Definition main_with (w : remote) (config_file : option config) (fs : data_dir)
    : Z * data_dir * list event :=
  match config_file with
  | None => (1, fs, [ConfigNotFound])
  | Some config =>
      let repos_config := default [] (cfg_repos config) in
      match repos_config with
      | [] => (1, fs, [NoRepositories])
      | _ :: _ =>
          let today := strftime_ymd w (now_day w) in
          let '(success_count, fs, log) := main_loop today repos_config fs in
          (if bool_decide (success_count = length repos_config) then 0 else 1,
           fs, log ++ [Done success_count (length repos_config)])
      end
  end.
End orchestrator.

Definition main (w : remote) (config_file : option config) (fs : data_dir)
    : Z * data_dir * list event :=
  main_with (collect_repo w) w config_file fs.

(** ** GitHub client: [api_get_paginated] *)

(** Lines 80-103, with the request of page [page] given by [get].  The
    loop [while page <= max_pages] runs at most [remaining] more times; it
    stops at a transport error, a status other than 200, an empty page, or
    after a page of fewer than 100 items. *)
Fixpoint api_get_paginated_loop {A} (get : nat → response (list A))
    (remaining page : nat) (results : list A) : list A :=
  match remaining with
  | O => results
  | S remaining' =>
      match get page with
      | RequestException => results
      | Response status data =>
          if bool_decide (status ≠ 200) then results
          else match data with
               | [] => results
               | _ :: _ =>
                   let results := results ++ data in
                   if (length data <? 100)%nat then results
                   else api_get_paginated_loop get remaining' (S page) results
               end
      end
  end.

Definition api_get_paginated {A} (get : nat → response (list A))
    (max_pages : nat) : list A :=
  api_get_paginated_loop get max_pages 1 [].

(* ===================================================================== *)
(** * Part II.  Vocabulary of the statements                              *)
(* ===================================================================== *)

(** Non-decreasing order on date strings (byte-wise, which on
    [YYYY-MM-DD] dates is the calendar order). *)
Definition date_le (a b : string) : Prop := String.leb a b = true.

(** Sorted by key in non-decreasing order. *)
Definition by_key {A} (key : A → string) : relation A :=
  λ a b, date_le (key a) (key b).

(** The sum of [f j] for [lo <= j <= hi]. *)
Definition sum_between (f : nat → Z) (lo hi : nat) : Z :=
  sum_Z (f <$> seq lo (S hi - lo)).

Definition weekly_of (records : list history_record) (i : nat) : Z :=
  sum_Z (hr_daily_downloads <$> slice (Nat.max 0 (i - 6)) (i + 1) records).

(** The records after the loop has treated the indices below [m]. *)
Definition rolled_upto (m : nat) (records : list history_record)
    : list history_record :=
  imap (λ i r, if (i <? m)%nat then set_weekly r (weekly_of records i) else r)
    records.

(** The table holds a row whose date field is [date]. *)
Definition has_date `{Dated R} (csv : csv_file R) (date : string) : Prop :=
  ∃ row, row ∈ default [] csv ∧ row_date row = date.

Definition row_key (row : release_row) : string :=
  release_key (rr_tag row) (rr_asset_name row).

(** The count of the last row of the table, in file order, with this key. *)
Definition last_count (key : string) (rows : list release_row) : option Z :=
  rr_download_count <$> last (filter (λ row, row_key row = key) rows).

(** The delta expected for a (tag, asset) pair seen with count [count]. *)
Definition delta_of (rows : list release_row) (tag name : string) (count : Z) : Z :=
  match last_count (release_key tag name) rows with
  | None => 0
  | Some previous_count => count - previous_count
  end.

(** The string has no ["|"]. *)
Definition no_bar (s : string) : Prop :=
  "|"%char ∉ String.list_ascii_of_string s.

(** The row recorded for one asset of the current cycle. *)
Definition expected_row (rows : list release_row) (date : string)
    (release : release) (asset : asset) : release_row :=
  ReleaseRow date (release_tag release) (asset_name asset) (asset_size asset)
    (asset_download_count asset)
    (delta_of rows (release_tag release) (asset_name asset)
       (asset_download_count asset)).

Definition small_or_absent (csv : csv_file star_record) : Prop :=
  match csv with
  | None => True
  | Some rows => (star_history_st_size rows < 500)%nat
  end.

(** A registry lookup that did not deliver: the request raised, or the
    status is not 200 (not found, server error, ...). *)
Definition lookup_failed (r : response (option Z)) : Prop :=
  match r with
  | RequestException => True
  | Response status _ => status ≠ 200
  end.

(** The number of distinct dates among the rows of one package. *)
Definition package_dates (package : string) (csv : csv_file package_row) : nat :=
  length (remove_dups
            (pr_date <$> filter (λ row, pr_package row = package)
                           (default [] csv))).

(** The number of distinct dates in the persisted package table. *)
Definition distinct_dates (csv : csv_file package_row) : nat :=
  length (remove_dups (pr_date <$> default [] csv)).

(** The range the planner asks for: from 365 days ago to yesterday. *)
Definition history_start (w : remote) : string := strftime_ymd w (now_day w - 365).
Definition history_end (w : remote) : string := strftime_ymd w (now_day w - 1).

(** The records that the range queries of all configured packages return. *)
Definition returned_history (w : remote) (cfg : gmap string (list string))
    : list history_record :=
  package_name ← npm_packages cfg;
  (collect_npm_history w package_name (history_start w) (history_end w)).1.

(** The rows that the planner appends: nothing when the table already has
    30 dates, otherwise the returned records whose date is new, by date. *)
Definition backfill_rows (w : remote) (cfg : gmap string (list string))
    (csv : csv_file package_row) : list package_row :=
  if bool_decide (distinct_dates csv < 30)%nat then
    history_row
      <$> sort_by_key hr_date
            (filter (λ r, hr_date r ∉
                          list_to_set (C:=gset string) (pr_date <$> default [] csv))
               (returned_history w cfg))
  else [].

(** The approximate star count recorded for a page. *)
Definition stars_of_page (page : nat) : Z := (Z.of_nat page - 1) * 100 + 1.

(** A fetch that delivers a point: status 200 and a page with entries. *)
Definition fetch_ok (r : response star_page) : Prop :=
  ∃ data item rest, r = Response 200 data ∧ starred_at data = item :: rest.

(** The point that the loop records for a page, if any. *)
Definition page_point (get : option nat → response star_page) (page : nat)
    : option star_record :=
  match get (Some page) with
  | RequestException => None
  | Response status data =>
      if bool_decide (status = 200) then
        match starred_at data with
        | [] => None
        | item :: _ => Some (star_point item page)
        end
      else None
  end.

(** The pages after page 1 in rounded proportional placement,
    [round(i * p / k)] for [i = 2..k]. *)
Definition placed_tail (p k : nat) : list nat :=
  (λ i, py_round_div (i * p) k) <$> seq 2 (k - 1).

(** The sample set, in closed form. *)
Definition sampled_pages (p k : nat) : list nat :=
  if (p <=? k)%nat then seq 1 p else 1%nat :: placed_tail p k.

(** The first request did not deliver: it raised, or its status is not 200. *)
Definition first_request_failed (r : response star_page) : Prop :=
  match r with
  | RequestException => True
  | Response status _ => status ≠ 200
  end.

(** The point of a sampled page: page 1 is read off the first response,
    the others are fetched. *)
Definition sampled_point (get : option nat → response star_page)
    (first_item : string) (page : nat) : option star_record :=
  if bool_decide (page = 1%nat) then Some (star_point first_item 1)
  else page_point get page.

(** The dated snapshot of the repository is on disk. *)
Definition snapshot_exists (fs : data_dir) (owner repo date : string) : Prop :=
  ∃ dir, fs !! repo_data_dir owner repo = Some dir ∧ is_Some (snapshots dir !! date).

(** The pass reported an append that wrote rows. *)
Definition reports_appended (log : list event) : Prop :=
  ∃ t, Updated t ∈ log.

Definition count_succeeded (outcomes : list entry_outcome) : nat :=
  foldr (λ outcome n, match outcome with Succeeded => S n | _ => n end)
    0%nat outcomes.

(** What happens to each entry in turn, the data directory left by one
    entry being the one the next entry starts from. *)
Section orchestrator_trace.
Variable collect :
  string → string → option (gmap string (list string)) → data_dir →
  py_result bool * data_dir * list event.

Fixpoint run_entries (today : string) (entries : list repo_entry)
    (fs : data_dir) : list (entry_outcome * list event) * data_dir :=
  match entries with
  | [] => ([], fs)
  | entry :: rest =>
      let '(outcome, fs', log) := run_entry collect today entry fs in
      let '(results, fs'') := run_entries today rest fs' in
      ((outcome, log) :: results, fs'')
  end.

Definition entry_outcomes (today : string) (entries : list repo_entry)
    (fs : data_dir) : list entry_outcome :=
  fst <$> (run_entries today entries fs).1.
End orchestrator_trace.

(** The entry names the repository [name], to be collected with
    [packages_config]. *)
Definition entry_names (entry : repo_entry) (name : string)
    (packages_config : option (gmap string (list string))) : Prop :=
  name ≠ ""
  ∧ (entry = EntryStr name ∧ packages_config = None
     ∨ ∃ packages, entry = EntryDict (Some name) packages
                   ∧ packages_config = Some (default ∅ packages)).

(** Every entry, in turn, names a repository whose collection returns
    success, each collection starting from the data directory that the one
    before it left. *)
Fixpoint all_collected
    (collect : string → string → option (gmap string (list string)) →
               data_dir → py_result bool * data_dir * list event)
    (today : string) (entries : list repo_entry) (fs : data_dir) : Prop :=
  match entries with
  | [] => True
  | entry :: rest =>
      ∃ name packages_config fs' log,
        entry_names entry name packages_config
        ∧ collect name today packages_config fs = (Return true, fs', log)
        ∧ all_collected collect today rest fs'
  end.

(** ** Vocabulary of the further properties *)

(** The items of a page that was delivered, nothing otherwise. *)
Definition page_items {A} (get : nat → response (list A)) (page : nat) : list A :=
  match get page with
  | RequestException => []
  | Response status data => if bool_decide (status = 200) then data else []
  end.

(** The page was delivered with at least 100 items. *)
Definition full_page {A} (get : nat → response (list A)) (page : nat) : Prop :=
  ∃ data, get page = Response 200 data ∧ (100 ≤ length data)%nat.

(** The (tag, asset) pairs of a collection cycle, in the order of the
    nested loops over releases and assets. *)
Definition cycle_assets (releases : list release) : list (string * asset) :=
  release ← releases;
  asset ← release_assets release;
  [(release_tag release, asset)].

(** The dictionary key of a pair of the cycle. *)
Definition asset_key (p : string * asset) : string :=
  release_key p.1 (asset_name p.2).

(** The character occurs in the string. *)
Definition has_char (c : ascii) (s : string) : Prop :=
  c ∈ String.list_ascii_of_string s.

(** The name has the form [owner/repo], with no further ["/"]. *)
Definition owner_slash_repo (full_name owner repo : string) : Prop :=
  full_name = owner +:+ "/" +:+ repo
  ∧ ¬ has_char "/" owner ∧ ¬ has_char "/" repo.

(** The package table that a collecting pass leaves. *)
Definition packages_after (w : remote)
    (packages_config : option (gmap string (list string))) (date : string)
    (csv : csv_file package_row) : csv_file package_row :=
  match packages_config with
  | Some cfg =>
      if config_truthy packages_config
      then (update_packages_section w cfg date
              (collect_package_downloads w cfg date) csv).1
      else csv
  | None => csv
  end.

(** The directory [dir'] holds all that [dir] held: each dated snapshot
    unchanged, the rows of the three appended tables as the first rows,
    and every table that existed. *)
Definition dir_extends (dir dir' : repo_dir) : Prop :=
  (∀ d s, snapshots dir !! d = Some s → snapshots dir' !! d = Some s)
  ∧ default [] (aggregate_csv dir) `prefix_of` default [] (aggregate_csv dir')
  ∧ default [] (releases_csv dir) `prefix_of` default [] (releases_csv dir')
  ∧ default [] (packages_csv dir) `prefix_of` default [] (packages_csv dir')
  ∧ (is_Some (aggregate_csv dir) → is_Some (aggregate_csv dir'))
  ∧ (is_Some (releases_csv dir) → is_Some (releases_csv dir'))
  ∧ (is_Some (packages_csv dir) → is_Some (packages_csv dir'))
  ∧ (is_Some (star_history_csv dir) → is_Some (star_history_csv dir')).

(** The repository name that a configuration entry carries, if any. *)
Definition entry_name (entry : repo_entry) : option string :=
  match entry with
  | EntryStr name => Some name
  | EntryDict repo _ => repo
  | EntryOther => None
  end.

(** The requests and notices of the backfill planner. *)
Definition backfill_event (ev : event) : Prop :=
  match ev with
  | Backfilling | NpmRangeRequest _ _ _ | AddedHistorical _ => True
  | _ => False
  end.

(** The text is ASCII: none of its bytes is above 127. *)
Definition ascii_only (s : string) : Prop :=
  forallb (λ a, (nat_of_ascii a <? 128)%nat) (String.list_ascii_of_string s)
  = true.

(** The state that a sequence of writes leaves, completed or not. *)
Definition io_state {A} (r : io_result A A) : A :=
  match r with
  | Completed s => s
  | OSRaised s => s
  end.

(** The package table that the packages step of a pass leaves when no file
    operation fails, and what the step prints. *)
Definition packages_written (w : remote)
    (packages_config : option (gmap string (list string))) (date : string)
    (packages_data : list package_stats) (csv : csv_file package_row)
    : csv_file package_row * list event :=
  match packages_config with
  | Some cfg =>
      if config_truthy packages_config
      then update_packages_section w cfg date packages_data csv
      else (csv, [])
  | None => (csv, [])
  end.

(* ===================================================================== *)
(** * Part III.  Properties                                               *)
(* ===================================================================== *)

(** ** Stable sorting by key *)

Section sort_by_key_facts.
Context {A : Type} (key : A → string).

Lemma ltb_false_leb (a b : string) :
  String.ltb a b = false → String.leb b a = true.
Proof.
  unfold String.ltb, String.leb.
  rewrite (String.compare_antisym b a).
  destruct (String.compare a b); simpl; congruence.
Qed.

Lemma ltb_true_leb (a b : string) :
  String.ltb a b = true → String.leb a b = true.
Proof.
  unfold String.ltb, String.leb.
  destruct (String.compare a b); congruence.
Qed.

Lemma insert_by_key_Permutation (x : A) (l : list A) :
  insert_by_key key x l ≡ₚ x :: l.
Proof.
  induction l as [|y l IH]; simpl; [done|].
  destruct (String.ltb (key y) (key x)); [|done].
  rewrite IH. apply Permutation_swap.
Qed.

Lemma sort_by_key_Permutation (l : list A) : sort_by_key key l ≡ₚ l.
Proof.
  induction l as [|x l IH]; simpl; [done|].
  rewrite insert_by_key_Permutation. by rewrite IH.
Qed.

Lemma insert_by_key_HdRel (x a : A) (l : list A) :
  by_key key a x → HdRel (by_key key) a l →
  HdRel (by_key key) a (insert_by_key key x l).
Proof.
  intros Hax Hal. destruct l as [|y l]; simpl.
  - by constructor.
  - destruct (String.ltb (key y) (key x)); constructor; [|done].
    by inversion Hal.
Qed.

Lemma insert_by_key_Sorted (x : A) (l : list A) :
  Sorted (by_key key) l → Sorted (by_key key) (insert_by_key key x l).
Proof.
  induction 1 as [|y l Hl IH Hy]; simpl.
  - by repeat constructor.
  - destruct (String.ltb (key y) (key x)) eqn:Hlt.
    + constructor; [done|].
      apply insert_by_key_HdRel; [|done].
      by apply ltb_true_leb.
    + constructor; [by constructor|].
      constructor. by apply ltb_false_leb.
Qed.

Lemma sort_by_key_Sorted (l : list A) :
  Sorted (by_key key) (sort_by_key key l).
Proof.
  induction l as [|x l IH]; simpl; [constructor|].
  by apply insert_by_key_Sorted.
Qed.

Lemma sort_by_key_length (l : list A) :
  length (sort_by_key key l) = length l.
Proof. by rewrite sort_by_key_Permutation. Qed.
End sort_by_key_facts.

(** ** Rolling 7-day sums of a historical batch *)

Lemma rolled_upto_lookup m records i :
  rolled_upto m records !! i =
  (λ r, if (i <? m)%nat then set_weekly r (weekly_of records i) else r)
    <$> records !! i.
Proof. unfold rolled_upto. by rewrite list_lookup_imap. Qed.

Lemma rolled_upto_daily m records :
  hr_daily_downloads <$> rolled_upto m records = hr_daily_downloads <$> records.
Proof.
  apply list_eq; intros i.
  rewrite !list_lookup_fmap, rolled_upto_lookup.
  destruct (records !! i) as [r|]; simpl; [|done].
  by destruct (i <? m)%nat.
Qed.

Lemma rolled_upto_dates m records :
  (λ r, (hr_date r, hr_daily_downloads r)) <$> rolled_upto m records
  = (λ r, (hr_date r, hr_daily_downloads r)) <$> records.
Proof.
  apply list_eq; intros i.
  rewrite !list_lookup_fmap, rolled_upto_lookup.
  destruct (records !! i) as [r|]; simpl; [|done].
  by destruct (i <? m)%nat.
Qed.

Lemma weekly_of_rolled m records i :
  weekly_of (rolled_upto m records) i = weekly_of records i.
Proof.
  unfold weekly_of, slice.
  by rewrite !fmap_take, !fmap_drop, rolled_upto_daily.
Qed.

Lemma rolling_step_rolled m records :
  (m < length records)%nat →
  rolling_step (rolled_upto m records) m = rolled_upto (S m) records.
Proof.
  intros Hm. unfold rolling_step.
  destruct (lookup_lt_is_Some_2 records m Hm) as [r Hr].
  rewrite rolled_upto_lookup, Hr. cbn [fmap option_fmap option_map].
  rewrite Nat.ltb_irrefl. cbv zeta.
  change (sum_Z _) with (weekly_of (rolled_upto m records) m).
  rewrite weekly_of_rolled.
  apply list_eq; intros i.
  destruct (decide (i = m)) as [->|Hne].
  - rewrite list_lookup_insert_eq.
    + rewrite rolled_upto_lookup, Hr. simpl.
      by rewrite (proj2 (Nat.ltb_lt m (S m))) by lia.
    + unfold rolled_upto. by rewrite length_imap.
  - rewrite list_lookup_insert_ne by done.
    rewrite !rolled_upto_lookup.
    destruct (records !! i) as [r'|]; simpl; [|done].
    destruct (i <? m)%nat eqn:H1, (i <? S m)%nat eqn:H2; try done.
    + apply Nat.ltb_lt in H1. apply Nat.ltb_ge in H2. lia.
    + apply Nat.ltb_ge in H1. apply Nat.ltb_lt in H2. lia.
Qed.

Lemma foldl_rolling_step m records :
  (m ≤ length records)%nat →
  foldl rolling_step records (seq 0 m) = rolled_upto m records.
Proof.
  induction m as [|m IH]; intros Hm.
  - simpl. apply list_eq; intros i. rewrite rolled_upto_lookup.
    by destruct (records !! i).
  - rewrite seq_S, foldl_app. simpl.
    rewrite IH by lia. by apply rolling_step_rolled.
Qed.

Lemma rolling_weekly_rolled records :
  rolling_weekly records = rolled_upto (length records) records.
Proof. by apply foldl_rolling_step. Qed.

(** A slice read index by index. *)
Lemma slice_by_index {A B} (f : A → B) (d : B) (l : list A) (a c : nat) :
  (a + c ≤ length l)%nat →
  f <$> take c (drop a l) = (λ j, default d (f <$> l !! j)) <$> seq a c.
Proof.
  intros Hlen. apply list_eq; intros i.
  rewrite !list_lookup_fmap.
  destruct (decide (i < c)%nat) as [Hi|Hi].
  - rewrite lookup_take_lt, lookup_drop by done.
    rewrite (lookup_seq_lt a c i) by done. simpl.
    destruct (lookup_lt_is_Some_2 l (a + i)) as [x Hx]; [lia|].
    by rewrite Hx.
  - rewrite lookup_take_ge by lia.
    by rewrite (lookup_seq_ge a c i) by lia.
Qed.

Lemma weekly_of_sum_between records n :
  (n < length records)%nat →
  weekly_of records n =
  sum_between (λ j, default 0 (hr_daily_downloads <$> records !! j))
    (Nat.max 0 (n - 6)) n.
Proof.
  intros Hn. unfold weekly_of, sum_between, slice.
  replace (n + 1 - Nat.max 0 (n - 6))%nat with (S n - Nat.max 0 (n - 6))%nat by lia.
  rewrite (slice_by_index hr_daily_downloads 0); [done|lia].
Qed.

Lemma rolling_weekly_lookup records n r :
  rolling_weekly records !! n = Some r →
  ∃ r0, records !! n = Some r0 ∧ r = set_weekly r0 (weekly_of records n).
Proof.
  rewrite rolling_weekly_rolled, rolled_upto_lookup.
  destruct (records !! n) as [r0|] eqn:Hr0; simpl; [|done].
  apply lookup_lt_Some in Hr0.
  rewrite (proj2 (Nat.ltb_lt _ _) Hr0). intros [= <-]. eauto.
Qed.

(** C7.  In the batch returned by [collect_npm_history] (which reads no
    persisted row: the store is not among its arguments), the weekly value
    of the [n]-th record is the sum of the daily downloads of the records
    [max(0, n-6)] to [n] of that batch; and when the range request
    succeeds the batch carries the days and daily counts of the response,
    in order. *)
Theorem C7_rolling_weekly_sum (w : remote)
    (package_name start_date end_date : string) :
  let batch := (collect_npm_history w package_name start_date end_date).1 in
  (∀ (n : nat) (record : history_record),
     batch !! n = Some record →
     hr_weekly_downloads record =
     sum_between (λ j, default 0 (hr_daily_downloads <$> batch !! j))
       (Nat.max 0 (n - 6)) n)
  ∧ (∀ downloads_list,
       get_npm_range w start_date end_date package_name
       = Response 200 downloads_list →
       (λ r, (hr_date r, hr_daily_downloads r)) <$> batch = downloads_list).
Proof.
  simpl. unfold npm_history_records.
  destruct (get_npm_range w start_date end_date package_name)
    as [|status downloads_list]; [split; [intros n r; by rewrite lookup_nil|done]|].
  case_bool_decide as Hstatus; [|split; [intros n r; by rewrite lookup_nil|]].
  - set (records := _ <$> downloads_list). split.
    + intros n record Hn.
      destruct (rolling_weekly_lookup _ _ _ Hn) as (r0 & Hr0 & ->). simpl.
      rewrite weekly_of_sum_between by (by eapply lookup_lt_Some).
      unfold sum_between. f_equal. apply list_fmap_ext; intros _ j _.
      rewrite rolling_weekly_rolled.
      by rewrite <- !list_lookup_fmap, rolled_upto_daily.
    + intros dl [= _ <-]. rewrite rolling_weekly_rolled, rolled_upto_dates.
      subst records. rewrite <- list_fmap_compose.
      rewrite <- (list_fmap_id downloads_list) at 2.
      apply list_fmap_ext; intros _ [d c] _; done.
  - intros dl [= ? ?]. congruence.
Qed.

Lemma C7_rolling_weekly_sum_witness :
  let w := Remote (λ _ _, None) (λ _ _, Traffic None None [] []) (λ _ _, [])
    (λ _ _, []) (λ _ _, None) (λ _ _, 0) (λ _ _, IssueCounts 0 0)
    (λ _ _ _, RequestException) (λ _ _, RequestException)
    (λ _ _ _, Response 200
       [("d1", 1); ("d2", 2); ("d3", 3); ("d4", 4); ("d5", 5); ("d6", 6);
        ("d7", 7); ("d8", 8); ("d9", 9)])
    0 "" (λ _, "") no_io_fault in
  hr_weekly_downloads (HistoryRecord "d9" "pkg" "npm" 9 42) = 3 + 4 + 5 + 6 + 7 + 8 + 9.
Proof.
  intros w.
  rewrite (proj1 (C7_rolling_weekly_sum w "pkg" "s" "e") 8%nat
             (HistoryRecord "d9" "pkg" "npm" 9 42)); reflexivity.
Defined.

(** ** Date-keyed appends *)

Lemma date_exists_in_csv_true `{Dated R} (csv : csv_file R) date :
  date_exists_in_csv csv date = true ↔ has_date csv date.
Proof.
  unfold date_exists_in_csv, has_date. destruct csv as [rows|]; simpl.
  - rewrite existsb_exists. split.
    + intros (row & Hin & Heq). exists row. split; [by apply list_elem_of_In|].
      by apply bool_decide_eq_true_1 in Heq.
    + intros (row & Hin & Heq). exists row. split; [by apply list_elem_of_In|].
      by apply bool_decide_eq_true_2.
  - split; [done|]. intros (row & Hin & _). by apply elem_of_nil in Hin.
Qed.

Lemma date_exists_in_csv_false `{Dated R} (csv : csv_file R) date :
  date_exists_in_csv csv date = false ↔ ¬ has_date csv date.
Proof.
  rewrite <- date_exists_in_csv_true. by destruct (date_exists_in_csv csv date).
Qed.

Lemma date_exists_ensure `{Dated R} (csv : csv_file R) date :
  date_exists_in_csv (ensure_csv_headers csv) date = date_exists_in_csv csv date.
Proof. by destruct csv. Qed.

Lemma has_date_is_Some `{Dated R} (csv : csv_file R) date :
  has_date csv date → ensure_csv_headers csv = csv.
Proof.
  destruct csv as [rows|]; [done|].
  intros (row & Hin & _). by apply elem_of_nil in Hin.
Qed.

Lemma append_rows_ensure {R} (csv : csv_file R) rows :
  append_rows (ensure_csv_headers csv) rows = Some (default [] csv ++ rows).
Proof. by destruct csv. Qed.

Lemma append_aggregate_row_spec csv date snap :
  (has_date csv date → append_aggregate_row csv date snap = (false, csv))
  ∧ (¬ has_date csv date →
       append_aggregate_row csv date snap
       = (true, Some (default [] csv ++ [aggregate_row_of date snap]))).
Proof.
  unfold append_aggregate_row. cbv zeta.
  rewrite date_exists_ensure. split; intros Hd.
  - rewrite (proj2 (date_exists_in_csv_true csv date) Hd).
    by rewrite (has_date_is_Some csv date Hd).
  - rewrite (proj2 (date_exists_in_csv_false csv date) Hd).
    by rewrite append_rows_ensure.
Qed.

Lemma update_releases_csv_spec csv date releases previous_data :
  (has_date csv date →
     update_releases_csv csv date releases previous_data = (false, csv))
  ∧ (¬ has_date csv date →
       update_releases_csv csv date releases previous_data
       = (true, Some (default [] csv
                      ++ release_rows date releases previous_data))).
Proof.
  unfold update_releases_csv. cbv zeta.
  rewrite date_exists_ensure. split; intros Hd.
  - rewrite (proj2 (date_exists_in_csv_true csv date) Hd).
    by rewrite (has_date_is_Some csv date Hd).
  - rewrite (proj2 (date_exists_in_csv_false csv date) Hd).
    by rewrite append_rows_ensure.
Qed.

Lemma update_packages_csv_spec csv date packages_data :
  (has_date csv date →
     update_packages_csv csv date packages_data = (false, csv))
  ∧ (¬ has_date csv date →
       update_packages_csv csv date packages_data
       = (true, Some (default [] csv ++ package_rows date packages_data))).
Proof.
  unfold update_packages_csv. cbv zeta.
  rewrite date_exists_ensure. split; intros Hd.
  - rewrite (proj2 (date_exists_in_csv_true csv date) Hd).
    by rewrite (has_date_is_Some csv date Hd).
  - rewrite (proj2 (date_exists_in_csv_false csv date) Hd).
    destruct (package_rows date packages_data) as [|row rows] eqn:Hrows.
    + rewrite app_nil_r. by destruct csv.
    + by rewrite append_rows_ensure.
Qed.

(** C2.  Each date-keyed append (aggregate, release-asset and package
    table) looks for a row with exactly the given date: if there is one it
    returns [false] and leaves the file as it is, whatever the new values;
    otherwise it returns [true] and the file is the old rows followed by
    all the given rows. *)
Theorem C2_append_if_new (date : string) :
  (∀ csv snap,
     (has_date csv date → append_aggregate_row csv date snap = (false, csv))
     ∧ (¬ has_date csv date →
          append_aggregate_row csv date snap
          = (true, Some (default [] csv ++ [aggregate_row_of date snap]))))
  ∧ (∀ csv releases previous_data,
       (has_date csv date →
          update_releases_csv csv date releases previous_data = (false, csv))
       ∧ (¬ has_date csv date →
            update_releases_csv csv date releases previous_data
            = (true, Some (default [] csv
                           ++ release_rows date releases previous_data))))
  ∧ (∀ csv packages_data,
       (has_date csv date →
          update_packages_csv csv date packages_data = (false, csv))
       ∧ (¬ has_date csv date →
            update_packages_csv csv date packages_data
            = (true, Some (default [] csv ++ package_rows date packages_data)))).
Proof.
  split; [|split].
  - intros. apply append_aggregate_row_spec.
  - intros. apply update_releases_csv_spec.
  - intros. apply update_packages_csv_spec.
Qed.

Lemma C2_append_if_new_witness :
  let old := AggregateRow "2024-01-15" None None None None 1 2 3 4 5 6 7 in
  let snap := Snapshot "" (RepoInfo "o/r" 120 0 0 0 0) (Traffic None None [] [])
                [] [] None 0 0 [] (IssueCounts 0 0) [] in
  append_aggregate_row (Some [old]) "2024-01-15" snap = (false, Some [old])
  ∧ append_aggregate_row (Some [old]) "2024-01-16" snap
    = (true, Some [old; aggregate_row_of "2024-01-16" snap]).
Proof.
  intros old snap. split.
  - apply (proj1 (proj1 (C2_append_if_new "2024-01-15") (Some [old]) snap)).
    exists old. split; [apply list_elem_of_here|reflexivity].
  - apply (proj2 (proj1 (C2_append_if_new "2024-01-16") (Some [old]) snap)).
    intros (row & Hin & Heq). simpl in Hin.
    apply list_elem_of_singleton in Hin. subst row. discriminate Heq.
Defined.

(** ** Release download deltas *)

Lemma get_previous_releases_data_lookup (csv : csv_file release_row) key :
  get_previous_releases_data csv !! key = last_count key (default [] csv).
Proof.
  unfold get_previous_releases_data, last_count.
  destruct csv as [rows|]; simpl; [|done].
  induction rows as [|row rows IH] using rev_ind; [done|].
  rewrite foldl_app. simpl. fold (row_key row).
  rewrite filter_app.
  destruct (decide (row_key row = key)) as [Heq|Hne].
  - rewrite filter_cons_True, filter_nil by done.
    rewrite last_snoc. rewrite <- Heq. by rewrite lookup_insert_eq.
  - rewrite filter_cons_False, filter_nil, app_nil_r by done.
    by rewrite lookup_insert_ne.
Qed.

Lemma filter_none {A} (P : A → Prop) `{∀ x, Decision (P x)} (l : list A) :
  (∀ x, x ∈ l → ¬ P x) → filter P l = [].
Proof.
  induction l as [|x l IH]; intros Hno; [done|].
  rewrite filter_cons_False by (apply Hno; apply list_elem_of_here).
  apply IH. intros y Hy. apply Hno. by apply list_elem_of_further.
Qed.

Lemma last_count_None key rows :
  (∀ row, row ∈ rows → row_key row ≠ key) → last_count key rows = None.
Proof.
  intros Hno. unfold last_count. by rewrite filter_none.
Qed.

Lemma last_count_Some key older row newer :
  row_key row = key →
  (∀ r, r ∈ newer → row_key r ≠ key) →
  last_count key (older ++ row :: newer) = Some (rr_download_count row).
Proof.
  intros Hrow Hnewer. unfold last_count.
  rewrite filter_app, filter_cons_True by done.
  rewrite (filter_none _ newer) by done. by rewrite last_snoc.
Qed.

Lemma list_ascii_of_append (s1 s2 : string) :
  String.list_ascii_of_string (s1 +:+ s2)
  = String.list_ascii_of_string s1 ++ String.list_ascii_of_string s2.
Proof. induction s1 as [|a s1 IH]; simpl; [done|]. by rewrite IH. Qed.

Lemma split_at_last {A} (x : A) (l1 l2 r1 r2 : list A) :
  x ∉ r1 → x ∉ r2 → l1 ++ x :: r1 = l2 ++ x :: r2 → l1 = l2 ∧ r1 = r2.
Proof.
  intros H1 H2. revert l2.
  induction l1 as [|a l1 IH]; intros [|b l2] Heq; simpl in Heq.
  - by injection Heq.
  - injection Heq as -> ->. exfalso. apply H1.
    apply elem_of_app. right. apply list_elem_of_here.
  - injection Heq as -> <-. exfalso. apply H2.
    apply elem_of_app. right. apply list_elem_of_here.
  - injection Heq as -> Heq. destruct (IH _ Heq) as [-> ->]. done.
Qed.

Lemma list_ascii_of_string_inj (s1 s2 : string) :
  String.list_ascii_of_string s1 = String.list_ascii_of_string s2 → s1 = s2.
Proof.
  intros Heq.
  rewrite <- (String.string_of_list_ascii_of_string s1),
          <- (String.string_of_list_ascii_of_string s2).
  by rewrite Heq.
Qed.

Lemma release_key_inj tag name tag' name' :
  no_bar name → no_bar name' →
  release_key tag name = release_key tag' name' → tag = tag' ∧ name = name'.
Proof.
  unfold no_bar, release_key. intros H1 H2 Heq.
  apply (f_equal String.list_ascii_of_string) in Heq.
  rewrite !list_ascii_of_append in Heq. simpl in Heq.
  destruct (split_at_last _ _ _ _ _ H1 H2 Heq) as [Ht Hn].
  split; by apply list_ascii_of_string_inj.
Qed.

Lemma release_rows_expected csv date releases :
  release_rows date releases (get_previous_releases_data csv)
  = (release ← releases; asset ← release_assets release;
     [expected_row (default [] csv) date release asset]).
Proof.
  unfold release_rows.
  apply list_bind_ext; [|done]. intros release.
  apply list_bind_ext; [|done]. intros asset.
  unfold expected_row, delta_of. rewrite get_previous_releases_data_lookup.
  destruct (last_count _ _); simpl; [done|]. by rewrite Z.sub_diag.
Qed.

Lemma delta_of_no_key rows tag name c1 :
  (∀ row, row ∈ rows → row_key row ≠ release_key tag name) →
  delta_of rows tag name c1 = 0.
Proof. intros Hno. unfold delta_of. by rewrite last_count_None. Qed.

Lemma delta_of_last_key older row newer tag name c1 :
  row_key row = release_key tag name →
  (∀ r, r ∈ newer → row_key r ≠ release_key tag name) →
  delta_of (older ++ row :: newer) tag name c1 = c1 - rr_download_count row.
Proof.
  intros Hrow Hnewer. unfold delta_of.
  by rewrite (last_count_Some _ older row newer).
Qed.

(** Every (tag, asset) pair of the current cycle gets one row, written
    when the table has no row of the date, whose delta is [delta_of].
    When no asset name, persisted or current, holds the separator ["|"] of
    the dictionary key, the key stands for the pair: the delta is 0 if the
    table has no row of that pair, whatever the current count; and it is
    [c1 - c0], negative when [c1 < c0], if [c0] is the count of the last
    row of that pair in file order. *)
Lemma release_deltas_by_pair (csv : csv_file release_row) (date : string)
    (releases : list release) :
  let rows := default [] csv in
  let previous := get_previous_releases_data csv in
  release_rows date releases previous
  = (release ← releases; asset ← release_assets release;
     [expected_row rows date release asset])
  ∧ (¬ has_date csv date →
       update_releases_csv csv date releases previous
       = (true, Some (rows ++ release_rows date releases previous)))
  ∧ ((∀ row, row ∈ rows → no_bar (rr_asset_name row)) →
     ∀ tag name c1,
       no_bar name →
       ((∀ row, row ∈ rows → ¬ (rr_tag row = tag ∧ rr_asset_name row = name)) →
        delta_of rows tag name c1 = 0)
       ∧ (∀ older row newer,
            rows = older ++ row :: newer →
            rr_tag row = tag → rr_asset_name row = name →
            (∀ r, r ∈ newer → ¬ (rr_tag r = tag ∧ rr_asset_name r = name)) →
            delta_of rows tag name c1 = c1 - rr_download_count row)).
Proof.
  intros rows previous. split; [apply release_rows_expected|].
  split; [intros Hd; by apply update_releases_csv_spec|].
  intros Hnames tag name c1 Hname. split.
  - intros Hpair. apply delta_of_no_key.
    intros row Hrow Hkey. apply (Hpair row Hrow).
    by apply release_key_inj; [apply Hnames| |].
  - intros older row newer Hrows Htag Hasset Hnewer. rewrite Hrows.
    apply delta_of_last_key; [unfold row_key; by rewrite Htag, Hasset|].
    intros r Hr Hkey. apply (Hnewer r Hr).
    apply release_key_inj; [|done|done].
    apply Hnames. rewrite Hrows. apply elem_of_app. right.
    by apply list_elem_of_further.
Qed.

(** C3.  The dictionary key joins tag and asset name with ["|"] and does
    not escape it, so two pairs can share a key.  The table holds one row,
    of the pair (tag ["a|b"], asset ["c"]) with count 5; the current pair
    (tag ["a"], asset ["b|c"]) with count 7 has no row, and is to get the
    delta 0 (line 564: default to current if new); the row written for it
    has the delta 2 = 7 - 5.  Under the asset name ["bc"] the same release
    gets the delta 0. *)
Theorem C3_key_collision :
  let row := ReleaseRow "2024-01-14" "a|b" "c" 10 5 0 in
  let csv := Some [row] in
  let previous := get_previous_releases_data csv in
  (λ r, (rr_tag r, rr_asset_name r)) <$> default [] csv = [("a|b", "c")]
  ∧ update_releases_csv csv "2024-01-15" [Release "a" "" "" [Asset "b|c" 7 10]]
      previous
    = (true, Some [row; ReleaseRow "2024-01-15" "a" "b|c" 10 7 2])
  ∧ update_releases_csv csv "2024-01-15" [Release "a" "" "" [Asset "bc" 7 10]]
      previous
    = (true, Some [row; ReleaseRow "2024-01-15" "a" "bc" 10 7 0]).
Proof. split; [reflexivity|]. split; vm_compute; reflexivity. Qed.

(** ** Star history table *)

(** C9 (amended).  When the sampled sequence is not empty and the file is
    absent or smaller than 500 bytes, the table becomes exactly the sampled
    points, whatever it held; when the file is neither small nor absent,
    or when the sampled sequence is empty, it is left as it is. *)
Theorem C9_star_history_replaced (star_history : list star_record)
    (csv : csv_file star_record) :
  (star_history ≠ [] → small_or_absent csv →
     update_star_history_csv star_history csv
     = (Some star_history, [Updated StarHistoryTable]))
  ∧ (¬ small_or_absent csv →
       update_star_history_csv star_history csv = (csv, []))
  ∧ (star_history = [] →
       update_star_history_csv star_history csv = (csv, [])).
Proof.
  unfold update_star_history_csv, small_or_absent. repeat split.
  - intros Hne Hsmall. destruct star_history as [|r rs]; [done|].
    destruct csv as [rows|]; [|done]. by rewrite bool_decide_eq_true_2.
  - intros Hbig. destruct star_history as [|r rs]; [done|].
    destruct csv as [rows|]; [|done]. by rewrite bool_decide_eq_false_2.
  - by intros ->.
Qed.

Lemma C9_star_history_replaced_witness :
  let old := [StarRecord "2019-05-01" 1; StarRecord "2019-06-01" 101] in
  let new := [StarRecord "2019-05-01" 1; StarRecord "2020-02-01" 201] in
  update_star_history_csv new (Some old) = (Some new, [Updated StarHistoryTable])
  ∧ update_star_history_csv new None = (Some new, [Updated StarHistoryTable])
  ∧ update_star_history_csv [] (Some old) = (Some old, []).
Proof.
  intros old new. split; [|split].
  - apply (proj1 (C9_star_history_replaced new (Some old))); [done|].
    vm_compute. lia.
  - apply (proj1 (C9_star_history_replaced new None)); done.
  - apply (proj2 (proj2 (C9_star_history_replaced [] (Some old)))). reflexivity.
Defined.

(** C9 as stated fails when sampling returned nothing: an absent file is
    not replaced by the (empty) sample, it stays absent. *)
Lemma C9_counterexample :
  update_star_history_csv [] None = (None, [])
  ∧ update_star_history_csv [] None ≠ (Some [], [Updated StarHistoryTable]).
Proof. split; [reflexivity|discriminate]. Qed.

(** ** Live package downloads *)

Lemma collect_npm_downloads_package w package_name date :
  ps_package (collect_npm_downloads w package_name date) = package_name.
Proof.
  unfold collect_npm_downloads.
  destruct (get_npm_point w date package_name) as [|s1 d1]; [done|].
  destruct (get_npm_point w "last-week" package_name) as [|s2 d2];
    repeat case_bool_decide; done.
Qed.

Lemma collect_npm_downloads_failed w package_name date :
  get_npm_point w date package_name = RequestException
  ∨ (lookup_failed (get_npm_point w date package_name)
     ∧ lookup_failed (get_npm_point w "last-week" package_name)) →
  collect_npm_downloads w package_name date = PackageStats package_name "npm" 0 0.
Proof.
  unfold collect_npm_downloads, lookup_failed.
  destruct (get_npm_point w date package_name) as [|s1 d1]; [done|].
  destruct (get_npm_point w "last-week" package_name) as [|s2 d2];
    intros [?|[H1 H2]]; repeat case_bool_decide; done.
Qed.

Lemma collect_package_downloads_foldl w date (packages : list string) results :
  foldl
    (λ results package_name,
       let stats := collect_npm_downloads w package_name date in
       if bool_decide (ps_daily_downloads stats > 0
                       ∨ ps_weekly_downloads stats > 0)
       then results ++ [stats] else results)
    results packages
  = results
    ++ filter (λ stats, ps_daily_downloads stats > 0 ∨ ps_weekly_downloads stats > 0)
         ((λ package_name, collect_npm_downloads w package_name date) <$> packages).
Proof.
  revert results. induction packages as [|p packages IH]; intros results; simpl.
  - by rewrite app_nil_r.
  - rewrite IH, filter_cons. case_bool_decide as Hpos.
    + rewrite decide_True by done. by rewrite <- app_assoc.
    + by rewrite decide_False by done.
Qed.

Lemma collect_package_downloads_filter w cfg date :
  collect_package_downloads w cfg date
  = filter (λ stats, ps_daily_downloads stats > 0 ∨ ps_weekly_downloads stats > 0)
      ((λ package_name, collect_npm_downloads w package_name date)
         <$> npm_packages cfg).
Proof. unfold collect_package_downloads. by rewrite collect_package_downloads_foldl. Qed.

(** C10.  A package whose daily lookup raises, or whose two lookups fail
    or find nothing, has daily and weekly count 0; a package whose daily
    and weekly counts are both 0 is not in the result of
    [collect_package_downloads]; and the rows that [update_packages_csv]
    adds for the day name no such package. *)
Theorem C10_zero_downloads_omitted (w : remote)
    (cfg : gmap string (list string)) (date package_name : string) :
  (get_npm_point w date package_name = RequestException
   ∨ (lookup_failed (get_npm_point w date package_name)
      ∧ lookup_failed (get_npm_point w "last-week" package_name)) →
   ps_daily_downloads (collect_npm_downloads w package_name date) = 0
   ∧ ps_weekly_downloads (collect_npm_downloads w package_name date) = 0)
  ∧ (ps_daily_downloads (collect_npm_downloads w package_name date) = 0 →
     ps_weekly_downloads (collect_npm_downloads w package_name date) = 0 →
     (∀ stats, stats ∈ collect_package_downloads w cfg date →
        ps_package stats ≠ package_name)
     ∧ (∀ csv row,
          row ∈ default []
                  (update_packages_csv csv date
                     (collect_package_downloads w cfg date)).2 →
          pr_package row = package_name →
          row ∈ default [] csv)).
Proof.
  split.
  - intros Hfailed. by rewrite collect_npm_downloads_failed.
  - intros Hd Hw.
    assert (∀ stats, stats ∈ collect_package_downloads w cfg date →
              ps_package stats ≠ package_name) as Hout.
    { intros stats. rewrite collect_package_downloads_filter.
      intros [Hpos Hin]%list_elem_of_filter Hname.
      apply list_elem_of_fmap in Hin as (p & -> & _).
      rewrite collect_npm_downloads_package in Hname. subst p. lia. }
    split; [done|]. intros csv row Hrow Hname.
    destruct (date_exists_in_csv csv date) eqn:Hd';
      [apply date_exists_in_csv_true in Hd'|apply date_exists_in_csv_false in Hd'].
    + by rewrite (proj1 (update_packages_csv_spec _ _ _) Hd') in Hrow.
    + rewrite (proj2 (update_packages_csv_spec _ _ _) Hd') in Hrow.
      simpl in Hrow. apply elem_of_app in Hrow as [Hrow|Hrow]; [done|].
      unfold package_rows in Hrow.
      apply list_elem_of_fmap in Hrow as (stats & -> & Hin).
      by destruct (Hout stats Hin).
Qed.

Lemma C10_zero_downloads_omitted_witness :
  let w := Remote (λ _ _, None) (λ _ _, Traffic None None [] []) (λ _ _, [])
    (λ _ _, []) (λ _ _, None) (λ _ _, 0) (λ _ _, IssueCounts 0 0)
    (λ _ _ _, RequestException)
    (λ period package_name,
       if bool_decide (package_name = "real") then Response 200 (Some 5)
       else Response 404 None)
    (λ _ _ _, RequestException) 0 "" (λ _, "") no_io_fault in
  let cfg : gmap string (list string) := {["npm" := ["ghost"; "real"]]} in
  collect_package_downloads w cfg "2024-01-15" = [PackageStats "real" "npm" 5 5]
  ∧ (∀ stats, stats ∈ collect_package_downloads w cfg "2024-01-15" →
       ps_package stats ≠ "ghost").
Proof.
  intros w cfg. split; [reflexivity|].
  apply (proj2 (C10_zero_downloads_omitted w cfg "2024-01-15" "ghost"));
    reflexivity.
Defined.

(** ** Backfill planner *)

Lemma size_list_to_set_dups (l : list string) :
  size (list_to_set (C:=gset string) l) = length (remove_dups l).
Proof.
  rewrite <- (size_list_to_set (C:=gset string) (remove_dups l))
    by apply NoDup_remove_dups.
  f_equal. apply set_eq. intros x.
  by rewrite !elem_of_list_to_set, elem_of_remove_dups.
Qed.

Lemma collect_package_history_foldl w s e (existing : gset string)
    (packages : list string) acc log :
  foldl
    (λ '(all_records, log) package_name,
       let '(records, reqs) := collect_npm_history w package_name s e in
       let new_records := filter (λ r, hr_date r ∉ existing) records in
       (all_records ++ new_records, log ++ reqs))
    (acc, log) packages
  = (acc ++ filter (λ r, hr_date r ∉ existing)
              (package_name ← packages; (collect_npm_history w package_name s e).1),
     log ++ ((λ package_name, NpmRangeRequest package_name s e) <$> packages)).
Proof.
  revert acc log. induction packages as [|p packages IH]; intros acc log; simpl.
  - by rewrite !app_nil_r.
  - rewrite IH. rewrite filter_app, <- !app_assoc. done.
Qed.

Lemma collect_package_history_spec w cfg (existing : gset string) :
  collect_package_history w cfg existing
  = (filter (λ r, hr_date r ∉ existing) (returned_history w cfg),
     (λ package_name,
        NpmRangeRequest package_name (history_start w) (history_end w))
       <$> npm_packages cfg).
Proof.
  unfold collect_package_history. cbv zeta.
  by rewrite collect_package_history_foldl.
Qed.

Lemma Sorted_fmap_key {A B} (f : A → B) (key : B → string) (g : A → string) l :
  (∀ x, key (f x) = g x) →
  Sorted (by_key g) l → Sorted (by_key key) (f <$> l).
Proof.
  intros Hk. induction 1 as [|x l Hl IH Hx]; simpl; constructor; [done|].
  destruct Hx as [|y l Hxy]; simpl; constructor.
  unfold by_key in *. by rewrite !Hk.
Qed.

Lemma backfill_packages_spec w cfg csv :
  backfill_packages w cfg csv
  = (match backfill_rows w cfg csv with
     | [] => csv
     | _ :: _ => Some (default [] csv ++ backfill_rows w cfg csv)
     end,
     if bool_decide (distinct_dates csv < 30)%nat then
       Backfilling
         :: ((λ package_name,
                NpmRangeRequest package_name (history_start w) (history_end w))
               <$> npm_packages cfg)
         ++ match backfill_rows w cfg csv with
            | [] => []
            | _ :: _ => [AddedHistorical (length (backfill_rows w cfg csv))]
            end
     else []).
Proof.
  unfold backfill_packages, backfill_rows. cbv zeta.
  rewrite size_list_to_set_dups. fold (distinct_dates csv).
  case_bool_decide as Hfew; [|done].
  rewrite collect_package_history_spec.
  set (new := filter _ (returned_history w cfg)).
  destruct new as [|r new'] eqn:Hnew.
  - simpl. by rewrite app_nil_r.
  - rewrite <- Hnew.
    assert (length (sort_by_key hr_date new) = length new) as Hlen
      by apply sort_by_key_length.
    destruct (sort_by_key hr_date new) as [|r1 sorted] eqn:Hsorted.
    { rewrite Hnew in Hlen. done. }
    rewrite append_rows_ensure. simpl. by rewrite length_fmap.
Qed.

(** C6 (amended).  The planner sends the range request of a configured
    package, from 365 days ago to yesterday, exactly when the persisted package
    table (one table per repository, shared by its packages) holds fewer
    than 30 distinct dates, and it sends no other range request.  What it
    appends is, up to order, the returned records whose date is not in the
    table, and it appends them in non-decreasing date order. *)
Theorem C6_backfill_planner (w : remote) (cfg : gmap string (list string))
    (csv : csv_file package_row) :
  let csv' := (backfill_packages w cfg csv).1 in
  let log := (backfill_packages w cfg csv).2 in
  (∀ package_name,
     package_name ∈ npm_packages cfg →
     NpmRangeRequest package_name
       (strftime_ymd w (now_day w - 365)) (strftime_ymd w (now_day w - 1)) ∈ log
     ↔ (distinct_dates csv < 30)%nat)
  ∧ (∀ package_name s e,
       NpmRangeRequest package_name s e ∈ log →
       (distinct_dates csv < 30)%nat ∧ package_name ∈ npm_packages cfg
       ∧ s = strftime_ymd w (now_day w - 365)
       ∧ e = strftime_ymd w (now_day w - 1))
  ∧ ∃ appended,
      csv' = match appended with
             | [] => csv
             | _ :: _ => Some (default [] csv ++ appended)
             end
      ∧ appended
        ≡ₚ history_row
             <$> filter (λ r, hr_date r ∉ pr_date <$> default [] csv)
                   (if bool_decide (distinct_dates csv < 30)%nat
                    then returned_history w cfg else [])
      ∧ Sorted (by_key pr_date) appended.
Proof.
  intros csv' log. subst csv' log. rewrite backfill_packages_spec. simpl.
  split; [|split].
  - intros package_name Hin. case_bool_decide as Hfew.
    + split; [done|]. intros _. apply elem_of_cons. right.
      apply elem_of_app. left.
      apply list_elem_of_fmap. by exists package_name.
    + split; [|done]. by intros ?%elem_of_nil.
  - intros package_name s e. case_bool_decide as Hfew; [|by intros ?%elem_of_nil].
    intros [Heq|Hin]%elem_of_cons; [done|].
    apply elem_of_app in Hin as [Hin|Hin].
    + apply list_elem_of_fmap in Hin as (p & [= -> -> ->] & Hp). done.
    + destruct (backfill_rows w cfg csv); [by apply elem_of_nil in Hin|].
      apply list_elem_of_singleton in Hin. done.
  - exists (backfill_rows w cfg csv). split; [done|].
    unfold backfill_rows. case_bool_decide as Hfew.
    + split.
      * apply fmap_Permutation. rewrite sort_by_key_Permutation.
        erewrite list_filter_iff; [done|]. intros r. simpl.
        by rewrite elem_of_list_to_set.
      * apply (Sorted_fmap_key history_row pr_date hr_date); [done|].
        apply sort_by_key_Sorted.
    + split; [done|constructor].
Qed.

Lemma C6_backfill_planner_witness :
  let w := Remote (λ _ _, None) (λ _ _, Traffic None None [] []) (λ _ _, [])
    (λ _ _, []) (λ _ _, None) (λ _ _, 0) (λ _ _, IssueCounts 0 0)
    (λ _ _ _, RequestException) (λ _ _, RequestException)
    (λ _ _ _, Response 200 [("2024-01-13", 4); ("2024-01-12", 3); ("2024-01-14", 5)])
    19737 "" (λ day, if bool_decide (day = 19736) then "2024-01-14" else "2023-01-15") no_io_fault in
  let cfg : gmap string (list string) := {["npm" := ["pkg"]]} in
  let csv := Some [PackageRow "2024-01-13" "npm" "pkg" 4 4] in
  NpmRangeRequest "pkg" "2023-01-15" "2024-01-14" ∈ (backfill_packages w cfg csv).2
  ∧ (backfill_packages w cfg csv).1
    = Some [PackageRow "2024-01-13" "npm" "pkg" 4 4;
            PackageRow "2024-01-12" "npm" "pkg" 3 7;
            PackageRow "2024-01-14" "npm" "pkg" 5 12].
Proof.
  intros w cfg csv. split; [|reflexivity].
  apply (proj1 (C6_backfill_planner w cfg csv) "pkg").
  - apply list_elem_of_here.
  - vm_compute. lia.
Defined.

(** C6 as stated fails when the dates are counted for a package: the
    configured package ["b"] has no row, so fewer than 30 dates of its
    own, yet no range request is sent, because the rows of package ["a"]
    cover 30 dates. *)
Lemma C6_counterexample :
  let w := Remote (λ _ _, None) (λ _ _, Traffic None None [] []) (λ _ _, [])
    (λ _ _, []) (λ _ _, None) (λ _ _, 0) (λ _ _, IssueCounts 0 0)
    (λ _ _ _, RequestException) (λ _ _, RequestException)
    (λ _ _ _, Response 200 [("2024-01-13", 4)])
    19737 "" (λ _, "2024-01-14") no_io_fault in
  let cfg : gmap string (list string) := {["npm" := ["b"]]} in
  let csv :=
    Some ((λ i : nat, PackageRow (pretty i) "npm" "a" 1 1) <$> seq 0 30) in
  npm_packages cfg = ["b"]
  ∧ package_dates "b" csv = 0%nat
  ∧ package_dates "a" csv = 30%nat
  ∧ backfill_packages w cfg csv = (csv, []).
Proof. repeat split; vm_compute; reflexivity. Qed.

(** ** Sampling engine *)

Lemma py_round_div_lower a k :
  (0 < k)%nat → (2 * py_round_div a k * k ≤ 2 * a + k)%nat.
Proof.
  intros Hk. unfold py_round_div.
  pose proof (Nat.div_mod_eq a k) as Ha.
  pose proof (Nat.mod_upper_bound a k ltac:(lia)) as Hr.
  set (q := (a / k)%nat) in *. set (r := (a mod k)%nat) in *.
  destruct (Nat.ltb_spec (2 * r) k); [nia|].
  destruct (Nat.ltb_spec k (2 * r)); [nia|].
  destruct (Nat.even q); nia.
Qed.

Lemma py_round_div_upper a k n :
  (0 < k)%nat → ((2 * n + 1) * k < 2 * a)%nat → (n < py_round_div a k)%nat.
Proof.
  intros Hk Hlt. unfold py_round_div.
  pose proof (Nat.div_mod_eq a k) as Ha.
  pose proof (Nat.mod_upper_bound a k ltac:(lia)) as Hr.
  set (q := (a / k)%nat) in *. set (r := (a mod k)%nat) in *.
  destruct (Nat.ltb_spec (2 * r) k); [nia|].
  destruct (Nat.ltb_spec k (2 * r)); [nia|].
  destruct (Nat.even q); nia.
Qed.

Lemma py_round_div_strict a b k :
  (0 < k)%nat → (a + k < b)%nat → (py_round_div a k < py_round_div b k)%nat.
Proof.
  intros Hk Hab. apply py_round_div_upper; [done|].
  pose proof (py_round_div_lower a k Hk). nia.
Qed.

Lemma py_round_div_pos a k :
  (0 < k)%nat → (k ≤ a)%nat → (1 ≤ py_round_div a k)%nat.
Proof.
  intros Hk Hka. apply (py_round_div_upper a k 0); [done|lia].
Qed.

Lemma placed_strict p k i j :
  (0 < k)%nat → (k < p)%nat → (1 ≤ i)%nat → (i < j)%nat →
  (py_round_div (i * p) k < py_round_div (j * p) k)%nat.
Proof. intros Hk Hp Hi Hij. apply py_round_div_strict; [done|nia]. Qed.

Lemma placed_tail_gt1 p k x :
  (0 < k)%nat → (k < p)%nat → x ∈ placed_tail p k → (1 < x)%nat.
Proof.
  intros Hk Hp (i & -> & Hi)%list_elem_of_fmap.
  apply elem_of_seq in Hi.
  pose proof (placed_strict p k 1 i Hk Hp ltac:(lia) ltac:(lia)).
  pose proof (py_round_div_pos (1 * p) k Hk ltac:(lia)). lia.
Qed.

Lemma placed_tail_NoDup p k :
  (0 < k)%nat → (k < p)%nat → NoDup (placed_tail p k).
Proof.
  intros Hk Hp. apply NoDup_fmap_2_strong; [|apply NoDup_seq].
  intros i j Hi%elem_of_seq Hj%elem_of_seq Heq.
  destruct (Nat.lt_trichotomy i j) as [Hlt|[->|Hlt]]; [|done|].
  - pose proof (placed_strict p k i j Hk Hp ltac:(lia) Hlt). lia.
  - pose proof (placed_strict p k j i Hk Hp ltac:(lia) Hlt). lia.
Qed.

Lemma sample_pages_sampled p k :
  (0 < k)%nat → sample_pages p k = Some (sampled_pages p k).
Proof.
  intros Hk. unfold sample_pages, sampled_pages.
  destruct (Nat.leb_spec p k) as [Hle|Hlt]; [done|].
  destruct k as [|k']; [lia|].
  cbn [seq fmap list_fmap]. fold (@fmap list _ nat nat).
  assert ((λ i, Nat.max 1 (py_round_div (i * p) (S k'))) <$> seq 2 k'
          = placed_tail p (S k')) as Htail.
  { unfold placed_tail. replace (S k' - 1)%nat with k' by lia.
    apply list_fmap_ext. intros _ i Hi%list_elem_of_lookup_2%elem_of_seq.
    assert (S k' ≤ i * p)%nat as Hip by nia.
    pose proof (py_round_div_pos (i * p) (S k') ltac:(lia) Hip).
    cbv beta. lia. }
  rewrite Htail.
  pose proof (py_round_div_pos (1 * p) (S k') ltac:(lia) ltac:(lia)) as Hpos.
  case_bool_decide as Hin; [|done].
  apply elem_of_cons in Hin as [Hhd|Hin].
  - by rewrite <- Hhd.
  - apply placed_tail_gt1 in Hin; lia.
Qed.

Lemma sampled_pages_length p k :
  (0 < k)%nat → length (sampled_pages p k) = Nat.min k p.
Proof.
  intros Hk. unfold sampled_pages, placed_tail.
  destruct (Nat.leb_spec p k); simpl; rewrite ?length_fmap, length_seq; lia.
Qed.

Lemma sampled_pages_NoDup p k : (0 < k)%nat → NoDup (sampled_pages p k).
Proof.
  intros Hk. unfold sampled_pages.
  destruct (Nat.leb_spec p k) as [Hle|Hlt]; [apply NoDup_seq|].
  apply NoDup_cons. split; [|by apply placed_tail_NoDup].
  intros Hin%placed_tail_gt1; lia.
Qed.

Lemma sampled_pages_head p k :
  (0 < k)%nat → (0 < p)%nat →
  ∃ rest, sampled_pages p k = 1%nat :: rest ∧ 1%nat ∉ rest.
Proof.
  intros Hk Hp. pose proof (sampled_pages_NoDup p k Hk) as Hnd.
  unfold sampled_pages in *. destruct (Nat.leb_spec p k).
  - destruct p as [|p']; [lia|]. simpl in *. eexists. split; [done|].
    by apply NoDup_cons in Hnd as [? _].
  - eexists. split; [done|]. by apply NoDup_cons in Hnd as [? _].
Qed.

Lemma remove_first_head x l : remove_first x (x :: l) = l.
Proof. simpl. by rewrite bool_decide_eq_true_2. Qed.

(** Without a transport error the loop keeps exactly the points of the
    pages whose fetch delivered one. *)
Lemma fetch_sample_pages_points get pages acc :
  (∀ page, page ∈ pages → get (Some page) ≠ RequestException) →
  fetch_sample_pages get pages acc = Some (acc ++ omap (page_point get) pages).
Proof.
  revert acc. induction pages as [|page pages IH]; intros acc Hno; simpl.
  - by rewrite app_nil_r.
  - unfold page_point at 1.
    pose proof (Hno page ltac:(apply list_elem_of_here)) as Hpage.
    destruct (get (Some page)) as [|status data]; [done|].
    assert (∀ page', page' ∈ pages → get (Some page') ≠ RequestException) as Hno'
      by (intros; apply Hno; by apply list_elem_of_further).
    case_bool_decide as H1; case_bool_decide as H2; try done.
    + by apply IH.
    + destruct (starred_at data) as [|item items]; [by apply IH|].
      rewrite IH by done. by rewrite <- app_assoc.
Qed.

(** A transport error on a sampled page leaves the loop without a result. *)
Lemma fetch_sample_pages_exception get pages acc page :
  page ∈ pages → get (Some page) = RequestException →
  fetch_sample_pages get pages acc = None.
Proof.
  revert acc. induction pages as [|page' pages IH]; intros acc Hin Hexn.
  - by apply elem_of_nil in Hin.
  - simpl. destruct (decide (page' = page)) as [->|Hne].
    + by rewrite Hexn.
    + apply elem_of_cons in Hin as [->|Hin]; [done|].
      destruct (get (Some page')) as [|status data]; [done|].
      case_bool_decide; [by apply IH|].
      destruct (starred_at data); by apply IH.
Qed.

Lemma omap_page_point_ok get (pages : list nat) :
  (∀ page, page ∈ pages → fetch_ok (get (Some page))) →
  sr_stars <$> omap (page_point get) pages = stars_of_page <$> pages.
Proof.
  induction pages as [|page pages IH]; intros Hok; [done|]. simpl.
  destruct (Hok page ltac:(apply list_elem_of_here)) as (data & item & rest & Hget & Hdata).
  unfold page_point at 1. rewrite Hget, Hdata. simpl.
  f_equal. apply IH. intros; apply Hok; by apply list_elem_of_further.
Qed.

Lemma fetch_ok_no_exception r : fetch_ok r → r ≠ RequestException.
Proof. by intros (data & item & rest & -> & _). Qed.

(** C4 (amended).  For a sample count [k >= 1], when the first request
    returns status 200 with a non-empty page and every other sampled page
    is fetched with status 200 and is non-empty, the engine returns
    exactly [min(k, p)] points, [p] being the page count after the 400
    cap: one per sampled page, the pages being [1..p] when [p <= k], and
    page 1 followed by [round(i * p / k)] for [i = 2..k] when [p > k], all
    distinct; and the points come back in non-decreasing date order. *)
Theorem C4_sampling_count (w : remote) (owner repo : string) (k : nat)
    (first : star_page) :
  (0 < k)%nat →
  get_stargazers w owner repo None = Response 200 first →
  starred_at first ≠ [] →
  let p := capped_page_count first in
  (∀ page, page ∈ sampled_pages p k → page ≠ 1%nat →
     fetch_ok (get_stargazers w owner repo (Some page))) →
  ∃ star_records,
    collect_star_history w owner repo k = Return star_records
    ∧ length star_records = Nat.min k p
    ∧ sr_stars <$> star_records ≡ₚ stars_of_page <$> sampled_pages p k
    ∧ NoDup (sampled_pages p k)
    ∧ ((p ≤ k)%nat → sampled_pages p k = seq 1 p)
    ∧ ((k < p)%nat →
         sampled_pages p k
         = 1%nat :: ((λ i, py_round_div (i * p) k) <$> seq 2 (k - 1)))
    ∧ Sorted (by_key sr_date) star_records.
Proof.
  intros Hk Hfirst Hne p Hok.
  assert (((p ≤ k)%nat → sampled_pages p k = seq 1 p)
          ∧ ((k < p)%nat →
               sampled_pages p k
               = 1%nat :: ((λ i, py_round_div (i * p) k) <$> seq 2 (k - 1))))
    as [Hsmall Hlarge].
  { unfold sampled_pages. destruct (Nat.leb_spec p k); split; (done || lia). }
  unfold collect_star_history. rewrite Hfirst.
  rewrite bool_decide_eq_false_2 by (intros H; by apply H).
  fold p. rewrite sample_pages_sampled by done.
  destruct (starred_at first) as [|item items]; [done|].
  destruct (decide (p = 0%nat)) as [Hp0|Hp0].
  - rewrite Hp0 in *. rewrite (Hsmall ltac:(lia)). simpl.
    exists []. repeat split; try done; try constructor. simpl. lia.
  - destruct (sampled_pages_head p k Hk ltac:(lia)) as (rest & Hpages & Hrest).
    pose proof (sampled_pages_length p k Hk) as Hlen.
    pose proof (sampled_pages_NoDup p k Hk) as Hnd.
    rewrite Hpages in *.
    rewrite bool_decide_eq_true_2 by apply list_elem_of_here.
    rewrite remove_first_head.
    assert (∀ page, page ∈ rest →
              fetch_ok (get_stargazers w owner repo (Some page))) as Hok'.
    { intros page Hin. apply Hok; [by apply list_elem_of_further|].
      by intros ->. }
    rewrite fetch_sample_pages_points
      by (intros page Hin; by apply fetch_ok_no_exception, Hok').
    pose proof (omap_page_point_ok _ _ Hok') as Hstars.
    eexists. split; [done|].
    split; [|split; [|repeat split; try done; apply sort_by_key_Sorted]].
    + rewrite sort_by_key_length, length_app.
      rewrite <- (length_fmap sr_stars (omap _ rest)), Hstars, length_fmap.
      simpl in *. lia.
    + rewrite sort_by_key_Permutation, fmap_app, Hstars. done.
Qed.

Lemma C4_sampling_count_witness :
  let w := Remote (λ _ _, None) (λ _ _, Traffic None None [] []) (λ _ _, [])
    (λ _ _, []) (λ _ _, None) (λ _ _, 0) (λ _ _, IssueCounts 0 0)
    (λ _ _ page,
       match page with
       | None => Response 200 (StarPage ["2019-03-02T10:00:00Z"] (Some 5%nat))
       | Some 5%nat => Response 200 (StarPage ["2021-07-09T08:30:00Z"] None)
       | Some _ => Response 200 (StarPage ["2020-11-20T23:59:59Z"] None)
       end)
    (λ _ _, RequestException) (λ _ _ _, RequestException) 0 "" (λ _, "") no_io_fault in
  ∃ star_records,
    collect_star_history w "o" "r" 2 = Return star_records
    ∧ length star_records = 2%nat.
Proof.
  intros w.
  destruct (C4_sampling_count w "o" "r" 2
              (StarPage ["2019-03-02T10:00:00Z"] (Some 5%nat)))
    as (star_records & Hres & Hlen & _).
  - lia.
  - reflexivity.
  - discriminate.
  - intros page Hin Hne. vm_compute in Hin.
    apply elem_of_cons in Hin as [->|Hin]; [done|].
    apply list_elem_of_singleton in Hin as ->.
    by exists (StarPage ["2021-07-09T08:30:00Z"] None), "2021-07-09T08:30:00Z", [].
  - exists star_records. split; [exact Hres|exact Hlen].
Defined.

(** C4 as stated fails on a repository without stars: every fetch
    succeeds, the page count is 1, and no point is returned. *)
Lemma C4_counterexample :
  let w := Remote (λ _ _, None) (λ _ _, Traffic None None [] []) (λ _ _, [])
    (λ _ _, []) (λ _ _, None) (λ _ _, 0) (λ _ _, IssueCounts 0 0)
    (λ _ _ _, Response 200 (StarPage [] None))
    (λ _ _, RequestException) (λ _ _ _, RequestException) 0 "" (λ _, "") no_io_fault in
  (∀ page, get_stargazers w "o" "r" page = Response 200 (StarPage [] None))
  ∧ capped_page_count (StarPage [] None) = 1%nat
  ∧ collect_star_history w "o" "r" 15 = Return []
  ∧ length (@nil star_record) ≠ Nat.min 15 1.
Proof. repeat split. simpl. lia. Qed.

(** With a sample count of 0 the assignment [sample_pages[0] = 1] fails. *)
Lemma collect_star_history_zero_samples (w : remote) (owner repo : string)
    (first : star_page) :
  get_stargazers w owner repo None = Response 200 first →
  (0 < capped_page_count first)%nat →
  collect_star_history w owner repo 0 = Raise IndexError.
Proof.
  intros Hfirst Hp. unfold collect_star_history. rewrite Hfirst.
  rewrite bool_decide_eq_false_2 by (intros H; by apply H).
  unfold sample_pages. destruct (Nat.leb_spec (capped_page_count first) 0); [lia|].
  reflexivity.
Qed.

Lemma collect_star_history_returns w owner repo k :
  (0 < k)%nat → ∃ star_records, collect_star_history w owner repo k = Return star_records.
Proof.
  intros Hk. unfold collect_star_history.
  destruct (get_stargazers w owner repo None) as [|status first]; [by eexists|].
  case_bool_decide; [by eexists|].
  rewrite sample_pages_sampled by done.
  destruct (starred_at first) as [|item items];
    [|case_bool_decide];
    match goal with
    | |- context [fetch_sample_pages ?g ?p ?a] =>
        destruct (fetch_sample_pages g p a)
    end; by eexists.
Qed.

Lemma omap_ext_in {A B} (f g : A → option B) (l : list A) :
  (∀ x, x ∈ l → f x = g x) → omap f l = omap g l.
Proof.
  induction l as [|x l IH]; intros Hfg; [done|]. csimpl.
  rewrite (Hfg x) by apply list_elem_of_here.
  rewrite IH; [done|]. intros y Hy. apply Hfg. by apply list_elem_of_further.
Qed.

Lemma collect_star_history_no_exception w owner repo k first item items :
  (0 < k)%nat →
  get_stargazers w owner repo None = Response 200 first →
  starred_at first = item :: items →
  (∀ page, page ∈ sampled_pages (capped_page_count first) k → page ≠ 1%nat →
     get_stargazers w owner repo (Some page) ≠ RequestException) →
  collect_star_history w owner repo k
  = Return (sort_by_key sr_date
              (omap (sampled_point (get_stargazers w owner repo) item)
                 (sampled_pages (capped_page_count first) k))).
Proof.
  intros Hk Hfirst Hitems Hno. unfold collect_star_history.
  rewrite Hfirst, bool_decide_eq_false_2 by (intros H; by apply H).
  rewrite sample_pages_sampled, Hitems by done.
  set (p := capped_page_count first) in *.
  destruct (decide (p = 0%nat)) as [Hp0|Hp0].
  - rewrite Hp0. unfold sampled_pages. by destruct k.
  - destruct (sampled_pages_head p k Hk ltac:(lia)) as (rest & Hpages & Hrest).
    rewrite Hpages in *.
    rewrite bool_decide_eq_true_2 by apply list_elem_of_here.
    rewrite remove_first_head.
    rewrite fetch_sample_pages_points.
    + simpl. unfold sampled_point at 1. simpl. do 3 f_equal.
      apply omap_ext_in. intros page Hin.
      unfold sampled_point. rewrite bool_decide_eq_false_2; [done|].
      by intros ->.
    + intros page Hin. apply Hno; [by apply list_elem_of_further|].
      by intros ->.
Qed.

Lemma collect_star_history_exception w owner repo k first page :
  (0 < k)%nat →
  get_stargazers w owner repo None = Response 200 first →
  starred_at first ≠ [] →
  page ∈ sampled_pages (capped_page_count first) k → page ≠ 1%nat →
  get_stargazers w owner repo (Some page) = RequestException →
  collect_star_history w owner repo k = Return [].
Proof.
  intros Hk Hfirst Hne Hin Hpage Hexn. unfold collect_star_history.
  rewrite Hfirst, bool_decide_eq_false_2 by (intros H; by apply H).
  rewrite sample_pages_sampled by done.
  destruct (starred_at first) as [|item items]; [done|].
  set (p := capped_page_count first) in *.
  destruct (decide (p = 0%nat)) as [Hp0|Hp0].
  { rewrite Hp0 in Hin. unfold sampled_pages in Hin. destruct k; [lia|].
    by apply elem_of_nil in Hin. }
  destruct (sampled_pages_head p k Hk ltac:(lia)) as (rest & Hpages & Hrest).
  rewrite Hpages in *.
  rewrite bool_decide_eq_true_2 by apply list_elem_of_here.
  rewrite remove_first_head.
  apply elem_of_cons in Hin as [->|Hin]; [done|].
  by rewrite (fetch_sample_pages_exception _ rest _ page).
Qed.

(** What the engine does with failures, for a sample count [k >= 1]: when
    the first request raises or has a status other than 200 it returns
    the empty sequence; when no later request raises, the result is the
    sorted list of the points of the sampled pages that delivered one, so
    that a page answered with another status than 200 only loses its own
    point; when a later request raises a transport error it returns the
    empty sequence; and in every case it returns, it raises nothing to its
    caller. *)
Lemma collect_star_history_failures (w : remote) (owner repo : string) (k : nat) :
  let get := get_stargazers w owner repo in
  (0 < k)%nat →
  (first_request_failed (get None) →
     collect_star_history w owner repo k = Return [])
  ∧ (∀ first item items,
       get None = Response 200 first →
       starred_at first = item :: items →
       (∀ page, page ∈ sampled_pages (capped_page_count first) k →
          page ≠ 1%nat → get (Some page) ≠ RequestException) →
       collect_star_history w owner repo k
       = Return (sort_by_key sr_date
                   (omap (sampled_point get item)
                      (sampled_pages (capped_page_count first) k))))
  ∧ (∀ page status data,
       page ≠ 1%nat → get (Some page) = Response status data → status ≠ 200 →
       ∀ item, sampled_point get item page = None)
  ∧ (∀ first page,
       get None = Response 200 first →
       starred_at first ≠ [] →
       page ∈ sampled_pages (capped_page_count first) k → page ≠ 1%nat →
       get (Some page) = RequestException →
       collect_star_history w owner repo k = Return [])
  ∧ (∃ star_records, collect_star_history w owner repo k = Return star_records).
Proof.
  intros get Hk. repeat split.
  - unfold first_request_failed, collect_star_history. fold get.
    destruct (get None) as [|status first]; [done|].
    intros Hst. by rewrite bool_decide_eq_true_2.
  - intros first item items. by apply collect_star_history_no_exception.
  - intros page status data Hpage Hget Hst item. unfold sampled_point.
    rewrite bool_decide_eq_false_2 by done.
    unfold page_point. rewrite Hget. by rewrite bool_decide_eq_false_2.
  - intros first page. by apply collect_star_history_exception.
  - by apply collect_star_history_returns.
Qed.

(** C5.  The page count is 2 and page 1 delivers a point.  When the
    request for page 2 raises a transport error, the handler of lines
    322-324 returns the empty sequence: the point of page 1 is lost with
    it.  When page 2 is answered with status 503 instead, the [continue]
    of line 309 drops the point of page 2 only and the point of page 1 is
    returned. *)
Theorem C5_exception_discards_points :
  let first := Response 200 (StarPage ["2019-03-02T10:00:00Z"] (Some 2%nat)) in
  let world later :=
    Remote (λ _ _, None) (λ _ _, Traffic None None [] []) (λ _ _, [])
      (λ _ _, []) (λ _ _, None) (λ _ _, 0) (λ _ _, IssueCounts 0 0)
      (λ _ _ page, match page with None => first | Some _ => later end)
      (λ _ _, RequestException) (λ _ _ _, RequestException)
      0 "" (λ _, "") no_io_fault in
  collect_star_history (world RequestException) "o" "r" 15 = Return []
  ∧ collect_star_history (world (Response 503 (StarPage [] None))) "o" "r" 15
    = Return [StarRecord "2019-03-02" 1].
Proof. split; reflexivity. Qed.

(** ** Per-repository collection *)

Lemma append_aggregate_row_prefix csv date snap :
  default [] csv `prefix_of` default [] (append_aggregate_row csv date snap).2.
Proof.
  destruct (date_exists_in_csv csv date) eqn:Hd.
  - apply date_exists_in_csv_true in Hd.
    by rewrite (proj1 (append_aggregate_row_spec _ _ _) Hd).
  - apply date_exists_in_csv_false in Hd.
    rewrite (proj2 (append_aggregate_row_spec _ _ _) Hd). by eexists.
Qed.

Lemma update_releases_csv_prefix csv date releases previous_data :
  default [] csv
  `prefix_of` default [] (update_releases_csv csv date releases previous_data).2.
Proof.
  destruct (date_exists_in_csv csv date) eqn:Hd.
  - apply date_exists_in_csv_true in Hd.
    by rewrite (proj1 (update_releases_csv_spec _ _ _ _) Hd).
  - apply date_exists_in_csv_false in Hd.
    rewrite (proj2 (update_releases_csv_spec _ _ _ _) Hd). by eexists.
Qed.

Lemma update_packages_csv_prefix csv date packages_data :
  default [] csv
  `prefix_of` default [] (update_packages_csv csv date packages_data).2.
Proof.
  destruct (date_exists_in_csv csv date) eqn:Hd.
  - apply date_exists_in_csv_true in Hd.
    by rewrite (proj1 (update_packages_csv_spec _ _ _) Hd).
  - apply date_exists_in_csv_false in Hd.
    rewrite (proj2 (update_packages_csv_spec _ _ _) Hd). by eexists.
Qed.

Lemma backfill_packages_prefix w cfg csv :
  default [] csv `prefix_of` default [] (backfill_packages w cfg csv).1.
Proof.
  rewrite backfill_packages_spec. cbn [fst].
  destruct (backfill_rows w cfg csv); [done|]. by eexists.
Qed.

Lemma update_packages_section_prefix w cfg date packages_data csv :
  default [] csv
  `prefix_of` default [] (update_packages_section w cfg date packages_data csv).1.
Proof.
  unfold update_packages_section.
  pose proof (backfill_packages_prefix w cfg csv) as H1.
  destruct (backfill_packages w cfg csv) as [csv1 log1]. cbn [fst] in H1.
  destruct packages_data as [|pkg packages_data]; [done|].
  pose proof (update_packages_csv_prefix csv1 date (pkg :: packages_data)) as H2.
  destruct (update_packages_csv csv1 date (pkg :: packages_data)) as [b csv2].
  cbn [fst snd] in *. by etrans.
Qed.

Lemma packages_after_prefix w packages_config date csv :
  default [] csv `prefix_of` default [] (packages_after w packages_config date csv).
Proof.
  unfold packages_after. destruct packages_config as [cfg|]; [|done].
  destruct (config_truthy (Some cfg)); [|done].
  apply update_packages_section_prefix.
Qed.

Lemma append_aggregate_row_exists csv date snap :
  is_Some csv → is_Some (append_aggregate_row csv date snap).2.
Proof.
  intros [rows ->]. unfold append_aggregate_row. cbv zeta.
  by destruct (date_exists_in_csv _ _).
Qed.

Lemma update_releases_csv_exists csv date releases previous_data :
  is_Some csv → is_Some (update_releases_csv csv date releases previous_data).2.
Proof.
  intros [rows ->]. unfold update_releases_csv. cbv zeta.
  by destruct (date_exists_in_csv _ _).
Qed.

Lemma backfill_packages_exists w cfg csv :
  is_Some csv → is_Some (backfill_packages w cfg csv).1.
Proof.
  intros Hcsv. rewrite backfill_packages_spec. cbn [fst].
  by destruct (backfill_rows w cfg csv).
Qed.

Lemma update_packages_csv_exists csv date packages_data :
  is_Some csv → is_Some (update_packages_csv csv date packages_data).2.
Proof.
  intros [rows ->]. unfold update_packages_csv. cbv zeta.
  destruct (date_exists_in_csv _ _); [done|].
  by destruct (package_rows _ _).
Qed.

Lemma packages_after_exists w packages_config date csv :
  is_Some csv → is_Some (packages_after w packages_config date csv).
Proof.
  intros Hcsv. unfold packages_after.
  destruct packages_config as [cfg|]; [|done].
  destruct (config_truthy (Some cfg)); [|done].
  unfold update_packages_section.
  pose proof (backfill_packages_exists w cfg csv Hcsv) as H1.
  destruct (backfill_packages w cfg csv) as [csv1 log1]. cbn [fst] in H1.
  destruct (collect_package_downloads w cfg date) as [|pkg pkgs]; [done|].
  pose proof (update_packages_csv_exists csv1 date (pkg :: pkgs) H1) as H2.
  by destruct (update_packages_csv csv1 date (pkg :: pkgs)).
Qed.

Lemma update_star_history_csv_exists star_history csv :
  is_Some csv → is_Some (update_star_history_csv star_history csv).1.
Proof.
  intros [rows ->]. unfold update_star_history_csv.
  destruct star_history; [done|]. by case_bool_decide.
Qed.

Lemma dir_extends_refl (dir : repo_dir) : dir_extends dir dir.
Proof. unfold dir_extends. repeat split; done. Qed.

Lemma dir_extends_trans (a b c : repo_dir) :
  dir_extends a b → dir_extends b c → dir_extends a c.
Proof.
  unfold dir_extends.
  intros (?&?&?&?&?&?&?&?) (?&?&?&?&?&?&?&?).
  repeat split; try (etrans; eassumption); auto.
Qed.

(** *** The writes of a pass *)

Lemma try_append_spec `{Dated R} (fails : io_point → bool) (t : table_name)
    (csv : csv_file R) (date : string) (result : bool * csv_file R) :
  match try_append fails t csv date result with
  | Completed r => r = result
  | OSRaised csv' =>
      default [] csv' = default [] csv ∧ (is_Some csv → is_Some csv')
  end.
Proof.
  unfold try_append. destruct csv as [rows|]; cbn [ensure_csv_headers].
  - destruct (negb _ && _); [by split|done].
  - destruct (fails (WriteHeader t)); [by split|].
    destruct (negb _ && _); [|done]. split; [done|]. by intros [? ?].
Qed.

Lemma try_append_no_fault `{Dated R} (fails : io_point → bool) (t : table_name)
    (csv : csv_file R) (date : string) (result : bool * csv_file R) :
  (∀ p, fails p = false) →
  try_append fails t csv date result = Completed result.
Proof.
  intros Hno. unfold try_append. rewrite !Hno, andb_false_r.
  by destruct csv.
Qed.

Lemma try_backfill_packages_spec (fails : io_point → bool) w cfg csv :
  match try_backfill_packages fails w cfg csv with
  | Completed r => r = backfill_packages w cfg csv
  | OSRaised (csv', log) =>
      default [] csv' = default [] csv ∧ (is_Some csv → is_Some csv')
  end.
Proof.
  unfold try_backfill_packages, backfill_packages. cbv zeta.
  case_bool_decide; [|done].
  destruct (collect_package_history _ _ _) as [[|record records] requests];
    [done|].
  destruct csv as [rows|]; cbn [ensure_csv_headers].
  - by destruct (fails WriteBackfill).
  - destruct (fails (WriteHeader PackagesTable)); [by split|].
    destruct (fails WriteBackfill); [|done]. split; [done|]. by intros [? ?].
Qed.

Lemma try_update_packages_section_spec (fails : io_point → bool) w cfg date
    packages_data csv :
  match try_update_packages_section fails w cfg date packages_data csv with
  | Completed r => r = update_packages_section w cfg date packages_data csv
  | OSRaised (csv', log) =>
      default [] csv `prefix_of` default [] csv' ∧ (is_Some csv → is_Some csv')
  end.
Proof.
  unfold try_update_packages_section, update_packages_section. cbv zeta.
  destruct (match csv with None => false | Some _ => fails ReadPackagesDates end);
    [by split|].
  pose proof (try_backfill_packages_spec fails w cfg csv) as Hback.
  pose proof (backfill_packages_prefix w cfg csv) as Hprefix.
  pose proof (backfill_packages_exists w cfg csv) as Hexists.
  destruct (try_backfill_packages fails w cfg csv) as [[csv1 log1]|[csv1 log1]].
  - rewrite <- Hback in *. cbn [fst] in Hprefix, Hexists.
    destruct packages_data as [|pkg packages_data]; [done|].
    pose proof (try_append_spec fails PackagesTable csv1 date
                  (update_packages_csv csv1 date (pkg :: packages_data)))
      as Happend.
    destruct (try_append _ _ _ _ _) as [[appended csv2]|csv2].
    + by rewrite <- Happend.
    + destruct Happend as [Hrows Hsome]. rewrite Hrows. split; [done|]. auto.
  - destruct Hback as [-> Hsome]. by split.
Qed.

Lemma try_update_star_history_csv_spec (fails : io_point → bool) star_history csv :
  match try_update_star_history_csv fails star_history csv with
  | Completed r => r = update_star_history_csv star_history csv
  | OSRaised csv' => is_Some csv → is_Some csv'
  end.
Proof.
  unfold try_update_star_history_csv, update_star_history_csv. cbv zeta.
  destruct star_history as [|r rs]; [done|].
  destruct csv as [rows|]; cbn [ensure_csv_headers].
  - case_bool_decide; [|done].
    by destruct (fails (WriteRows StarHistoryTable)).
  - destruct (fails (WriteHeader StarHistoryTable)); [done|].
    destruct (fails (WriteRows StarHistoryTable)); [|done]. by intros [? ?].
Qed.

(** Each step of the writes keeps what the directory held. *)
Lemma write_snapshot_extends fails date snap dir log :
  snapshots dir !! date = None →
  dir_extends dir (io_state (write_snapshot fails date snap (dir, log))).1.
Proof.
  intros Hnone. unfold write_snapshot.
  destruct (fails WriteSnapshot); cbn [io_state fst]; [apply dir_extends_refl|].
  unfold dir_extends.
  cbn [snapshots aggregate_csv releases_csv packages_csv star_history_csv].
  repeat split; try done.
  intros d s Hd. rewrite lookup_insert_ne; [done|]. intros ->. congruence.
Qed.

Lemma write_aggregate_extends fails date snap dir log :
  let dir' := (io_state (write_aggregate fails date snap (dir, log))).1 in
  dir_extends dir dir' ∧ snapshots dir' = snapshots dir.
Proof.
  unfold write_aggregate. cbv zeta.
  pose proof (try_append_spec fails AggregateTable (aggregate_csv dir) date
                (append_aggregate_row (aggregate_csv dir) date snap)) as Happend.
  destruct (try_append _ _ _ _ _) as [[appended csv]|csv];
    cbn [io_state fst]; (split; [|done]); unfold dir_extends;
    cbn [snapshots aggregate_csv releases_csv packages_csv star_history_csv].
  - apply (f_equal snd) in Happend. cbn [snd] in Happend. subst csv.
    repeat split; try done.
    + apply append_aggregate_row_prefix.
    + apply append_aggregate_row_exists.
  - destruct Happend as [-> Hsome]. repeat split; done.
Qed.

Lemma write_releases_extends fails date releases dir log :
  let dir' := (io_state (write_releases fails date releases (dir, log))).1 in
  dir_extends dir dir' ∧ snapshots dir' = snapshots dir.
Proof.
  unfold write_releases. cbv zeta.
  pose proof (try_append_spec fails ReleasesTable (releases_csv dir) date
                (update_releases_csv (releases_csv dir) date releases
                   (get_previous_releases_data (releases_csv dir)))) as Happend.
  destruct (try_append _ _ _ _ _) as [[appended csv]|csv];
    cbn [io_state fst]; (split; [|done]); unfold dir_extends;
    cbn [snapshots aggregate_csv releases_csv packages_csv star_history_csv].
  - apply (f_equal snd) in Happend. cbn [snd] in Happend. subst csv.
    repeat split; try done.
    + apply update_releases_csv_prefix.
    + apply update_releases_csv_exists.
  - destruct Happend as [-> Hsome]. repeat split; done.
Qed.

Lemma write_packages_extends fails w packages_config date packages_data dir log :
  let dir' :=
    (io_state (write_packages fails w packages_config date packages_data
                 (dir, log))).1 in
  dir_extends dir dir' ∧ snapshots dir' = snapshots dir.
Proof.
  unfold write_packages. cbv zeta.
  destruct packages_config as [cfg|];
    [destruct (config_truthy (Some cfg))|];
    try (cbn [io_state fst]; split; [apply dir_extends_refl|done]).
  pose proof (try_update_packages_section_spec fails w cfg date packages_data
                (packages_csv dir)) as Hsection.
  destruct (try_update_packages_section _ _ _ _ _ _)
    as [[csv log_packages]|[csv log_packages]];
    cbn [io_state fst]; (split; [|done]); unfold dir_extends;
    cbn [snapshots aggregate_csv releases_csv packages_csv star_history_csv].
  - apply (f_equal fst) in Hsection. cbn [fst] in Hsection. subst csv.
    repeat split; try done.
    + apply update_packages_section_prefix.
    + intros Hsome. unfold update_packages_section.
      pose proof (backfill_packages_exists w cfg _ Hsome) as Hback.
      destruct (backfill_packages w cfg (packages_csv dir)) as [csv1 log1].
      destruct packages_data as [|pkg packages_data]; [done|].
      pose proof (update_packages_csv_exists csv1 date (pkg :: packages_data)
                    Hback) as Hupdate.
      by destruct (update_packages_csv csv1 date (pkg :: packages_data)).
  - destruct Hsection as [Hprefix Hsome]. repeat split; done.
Qed.

Lemma write_star_history_extends fails star_history dir log :
  let dir' := (io_state (write_star_history fails star_history (dir, log))).1 in
  dir_extends dir dir' ∧ snapshots dir' = snapshots dir.
Proof.
  unfold write_star_history. cbv zeta.
  pose proof (try_update_star_history_csv_spec fails star_history
                (star_history_csv dir)) as Hstar.
  destruct (try_update_star_history_csv _ _ _) as [[csv log_star]|csv];
    cbn [io_state fst]; (split; [|done]); unfold dir_extends;
    cbn [snapshots aggregate_csv releases_csv packages_csv star_history_csv].
  - apply (f_equal fst) in Hstar. cbn [fst] in Hstar. subst csv.
    repeat split; try done. apply update_star_history_csv_exists.
  - repeat split; done.
Qed.

Lemma and_then_extends (r : io_result writes writes)
    (step : writes → io_result writes writes) (dir : repo_dir) :
  (∀ dir1 log1,
     let dir' := (io_state (step (dir1, log1))).1 in
     dir_extends dir1 dir' ∧ snapshots dir' = snapshots dir1) →
  dir_extends dir (io_state r).1 →
  dir_extends dir (io_state (and_then r step)).1
  ∧ snapshots (io_state (and_then r step)).1 = snapshots (io_state r).1.
Proof.
  intros Hstep Hr. destruct r as [[dir1 log1]|[dir1 log1]]; cbn [and_then].
  - destruct (Hstep dir1 log1) as [Hext Hsnap]. cbn [io_state fst] in Hr.
    split; [by eapply dir_extends_trans|done].
  - done.
Qed.

(** Whatever fails, the writes keep what the directory held; when they end
    with an [OSError], either nothing was written or the snapshot is stored. *)
Lemma write_tables_extends fails w date packages_config snap releases
    packages_data star_history dir log :
  snapshots dir !! date = None →
  let written :=
    write_tables fails w date packages_config snap releases packages_data
      star_history (dir, log) in
  dir_extends dir (io_state written).1
  ∧ (io_state written = (dir, log) ∧ fails WriteSnapshot = true
     ∨ snapshots (io_state written).1 = <[date := snap]> (snapshots dir)
       ∧ fails WriteSnapshot = false)
  ∧ (∀ s, written = Completed s → fails WriteSnapshot = false).
Proof.
  intros Hnone written. subst written. unfold write_tables.
  pose proof (write_snapshot_extends fails date snap dir log Hnone) as H0.
  assert (io_state (write_snapshot fails date snap (dir, log)) = (dir, log)
          ∧ write_snapshot fails date snap (dir, log) = OSRaised (dir, log)
          ∧ fails WriteSnapshot = true
          ∨ snapshots (io_state (write_snapshot fails date snap (dir, log))).1
            = <[date := snap]> (snapshots dir)
            ∧ fails WriteSnapshot = false) as Hsnap.
  { unfold write_snapshot. destruct (fails WriteSnapshot); [by left|by right]. }
  destruct (and_then_extends (write_snapshot fails date snap (dir, log))
              (write_aggregate fails date snap) dir
              (write_aggregate_extends fails date snap) H0) as [H1 S1].
  destruct (and_then_extends _ (write_releases fails date releases) dir
              (write_releases_extends fails date releases) H1) as [H2 S2].
  destruct (and_then_extends _
              (write_packages fails w packages_config date packages_data) dir
              (write_packages_extends fails w packages_config date packages_data)
              H2) as [H3 S3].
  destruct (and_then_extends _ (write_star_history fails star_history) dir
              (write_star_history_extends fails star_history) H3) as [H4 S4].
  split; [done|]. destruct Hsnap as [(Hstate & Hraised & Hfails)|[Hstored Hfails]].
  - rewrite Hraised. cbn [and_then io_state]. split; [by left|].
    intros s [=].
  - split; [|done]. right. split; [|done].
    by rewrite S4, S3, S2, S1.
Qed.

(** The writes that complete leave what the functions that own the tables
    give. *)
Lemma write_tables_completed fails w date packages_config snap releases
    packages_data star_history dir log dir' log' :
  write_tables fails w date packages_config snap releases packages_data
    star_history (dir, log) = Completed (dir', log') →
  let aggregate := append_aggregate_row (aggregate_csv dir) date snap in
  let released :=
    update_releases_csv (releases_csv dir) date releases
      (get_previous_releases_data (releases_csv dir)) in
  let packaged :=
    packages_written w packages_config date packages_data (packages_csv dir) in
  let starred := update_star_history_csv star_history (star_history_csv dir) in
  dir' = RepoDir (<[date := snap]> (snapshots dir)) aggregate.2 released.2
           packaged.1 starred.1
  ∧ log' = log ++ [SavedSnapshot date;
                   append_report AggregateTable date aggregate.1;
                   append_report ReleasesTable date released.1]
             ++ packaged.2 ++ starred.2.
Proof.
  unfold write_tables, write_snapshot.
  destruct (fails WriteSnapshot); [done|]. cbn [and_then].
  unfold write_aggregate at 1. cbv zeta.
  cbn [snapshots aggregate_csv releases_csv packages_csv star_history_csv].
  pose proof (try_append_spec fails AggregateTable (aggregate_csv dir) date
                (append_aggregate_row (aggregate_csv dir) date snap)) as H1.
  destruct (try_append fails AggregateTable _ _ _) as [[b1 csv1]|csv1]; [|done].
  cbn [and_then]. unfold write_releases at 1. cbv zeta.
  cbn [snapshots aggregate_csv releases_csv packages_csv star_history_csv].
  pose proof (try_append_spec fails ReleasesTable (releases_csv dir) date
                (update_releases_csv (releases_csv dir) date releases
                   (get_previous_releases_data (releases_csv dir)))) as H2.
  destruct (try_append fails ReleasesTable _ _ _) as [[b2 csv2]|csv2]; [|done].
  cbn [and_then]. unfold write_packages at 1, packages_written. cbv zeta.
  cbn [snapshots aggregate_csv releases_csv packages_csv star_history_csv].
  assert (∀ (csv3 : csv_file package_row) (log3 : list event),
            and_then
              (Completed
                 (RepoDir (<[date:=snap]> (snapshots dir)) csv1 csv2 csv3
                    (star_history_csv dir),
                  ((log ++ [SavedSnapshot date])
                   ++ [append_report AggregateTable date b1])
                  ++ [append_report ReleasesTable date b2] ++ log3))
              (write_star_history fails star_history)
            = Completed (dir', log') →
            dir' = RepoDir (<[date:=snap]> (snapshots dir)) csv1 csv2 csv3
                     (update_star_history_csv star_history
                        (star_history_csv dir)).1
            ∧ log' = log ++ [SavedSnapshot date;
                             append_report AggregateTable date b1;
                             append_report ReleasesTable date b2]
                       ++ log3
                       ++ (update_star_history_csv star_history
                             (star_history_csv dir)).2) as Hlast.
  { intros csv3 log3. cbn [and_then]. unfold write_star_history. cbv zeta.
    cbn [snapshots aggregate_csv releases_csv packages_csv star_history_csv].
    pose proof (try_update_star_history_csv_spec fails star_history
                  (star_history_csv dir)) as H4.
    destruct (try_update_star_history_csv _ _ _) as [[csv4 log4]|csv4]; [|done].
    intros [= <- <-]. rewrite <- H4. cbn [fst snd].
    split; [done|]. by rewrite <- !app_assoc. }
  rewrite <- H1, <- H2. cbn [fst snd].
  destruct packages_config as [cfg|];
    [destruct (config_truthy (Some cfg))|].
  - pose proof (try_update_packages_section_spec fails w cfg date packages_data
                  (packages_csv dir)) as H3.
    destruct (try_update_packages_section _ _ _ _ _ _)
      as [[csv3 log3]|[csv3 log3]]; [|done].
    rewrite <- H3. cbn [fst snd]. rewrite <- app_assoc. apply Hlast.
  - intros Hres. apply (Hlast (packages_csv dir) []).
    by rewrite app_nil_r.
  - intros Hres. apply (Hlast (packages_csv dir) []).
    by rewrite app_nil_r.
Qed.

Lemma write_tables_no_fault fails w date packages_config snap releases
    packages_data star_history s :
  (∀ p, fails p = false) →
  ∃ s', write_tables fails w date packages_config snap releases packages_data
          star_history s = Completed s'.
Proof.
  intros Hno. destruct s as [dir log]. unfold write_tables, write_snapshot.
  rewrite Hno. cbn [and_then]. unfold write_aggregate.
  rewrite try_append_no_fault by done.
  destruct (append_aggregate_row _ _ _) as [b1 csv1]. cbn [and_then].
  unfold write_releases.
  cbn [snapshots aggregate_csv releases_csv packages_csv star_history_csv].
  rewrite try_append_no_fault by done.
  destruct (update_releases_csv _ _ _ _) as [b2 csv2]. cbn [and_then].
  assert (∀ s1, ∃ s', write_star_history fails star_history s1 = Completed s')
    as Hstar.
  { intros [dir1 log1]. unfold write_star_history, try_update_star_history_csv.
    rewrite !Hno. cbv zeta.
    destruct star_history as [|r rs]; [by eexists|].
    destruct (star_history_csv dir1) as [rows|]; [|by eexists].
    case_bool_decide; by eexists. }
  assert (∀ s1, ∃ s', write_packages fails w packages_config date packages_data s1
                      = Completed s') as Hpackages.
  { intros [dir1 log1]. unfold write_packages. cbv zeta.
    destruct packages_config as [cfg|];
      [destruct (config_truthy (Some cfg))|]; try by eexists.
    unfold try_update_packages_section, try_backfill_packages. rewrite !Hno.
    cbv zeta.
    destruct (packages_csv dir1) as [rows|].
    - case_bool_decide.
      + destruct (collect_package_history _ _ _) as [[|h hs] requests].
        * destruct packages_data; [by eexists|].
          rewrite try_append_no_fault by done.
          destruct (update_packages_csv _ _ _). by eexists.
        * destruct packages_data; [by eexists|].
          rewrite try_append_no_fault by done.
          destruct (update_packages_csv _ _ _). by eexists.
      + destruct packages_data; [by eexists|].
        rewrite try_append_no_fault by done.
        destruct (update_packages_csv _ _ _). by eexists.
    - case_bool_decide.
      + destruct (collect_package_history _ _ _) as [[|h hs] requests].
        * destruct packages_data; [by eexists|].
          rewrite try_append_no_fault by done.
          destruct (update_packages_csv _ _ _). by eexists.
        * destruct packages_data; [by eexists|].
          rewrite try_append_no_fault by done.
          destruct (update_packages_csv _ _ _). by eexists.
      + destruct packages_data; [by eexists|].
        rewrite try_append_no_fault by done.
        destruct (update_packages_csv _ _ _). by eexists. }
  destruct (Hpackages (RepoDir (<[date:=snap]> (snapshots dir)) csv1 csv2
                         (packages_csv dir) (star_history_csv dir),
                       ((log ++ [SavedSnapshot date])
                        ++ [append_report AggregateTable date b1])
                       ++ [append_report ReleasesTable date b2]))
    as [s3 ->].
  cbn [and_then]. apply Hstar.
Qed.

(** *** The pass as a whole *)

(** The outcome of a pass, by cases: the name is malformed; the
    directories cannot be made; the pass ends without writing (skipped, no
    profile, or the sampling raised); or it collects and writes. *)
Lemma collect_repo_outcome w full_name date packages_config fs r fs' log :
  collect_repo w full_name date packages_config fs = (r, fs', log) →
  (r = Raise ValueError ∧ fs' = fs ∧ log = []
   ∧ ∀ owner repo, split_on "/" full_name ≠ [owner; repo])
  ∨ ∃ owner repo,
      split_on "/" full_name = [owner; repo]
      ∧ let key := repo_data_dir owner repo in
        let dir := default empty_repo_dir (fs !! key) in
        (r = Raise OSError ∧ fs' = fs ∧ log = [] ∧ fs !! key = None
         ∧ io_fails w key MakeDirs = true)
        ∨ ((fs !! key = None → io_fails w key MakeDirs = false)
           ∧ (fs' = <[key := dir]> fs
              ∧ (r = Return true → is_Some (snapshots dir !! date))
              ∨ snapshots dir !! date = None
                ∧ ∃ snap,
                    snap_releases snap = collect_releases w owner repo
                    ∧ snap_releases_downloads snap
                      = calculate_total_downloads (collect_releases w owner repo)
                    ∧ collect_star_history w owner repo 15
                      = Return (snap_star_history snap)
                    ∧ snap_packages snap
                      = match packages_config with
                        | Some cfg =>
                            if config_truthy packages_config
                            then collect_package_downloads w cfg date else []
                        | None => []
                        end
                    ∧ let written :=
                        write_tables (io_fails w key) w date packages_config
                          snap (snap_releases snap) (snap_packages snap)
                          (snap_star_history snap) (dir, []) in
                      fs' = <[key := (io_state written).1]> fs
                      ∧ log = (io_state written).2
                      ∧ r = match written with
                            | Completed _ => Return true
                            | OSRaised _ => Raise OSError
                            end)).
Proof.
  unfold collect_repo.
  destruct (split_on "/" full_name) as [|owner [|repo [|x l]]] eqn:Hsplit;
    try (intros [= <- <- <-]; left; by repeat split).
  cbv zeta. intros Hres. right. exists owner, repo. split; [done|].
  set (key := repo_data_dir owner repo) in *.
  set (dir := default empty_repo_dir (fs !! key)) in *.
  revert Hres.
  destruct (fs !! key) as [dir0|] eqn:Hkey; cbv beta iota.
  2: destruct (io_fails w key MakeDirs) eqn:Hmk;
      [intros [= <- <- <-]; by left|].
  all: intros Hres; right; (split; [done|]); revert Hres.
  all: case_bool_decide as Hsnap; [intros [= <- <- <-]; by left|].
  all: assert (snapshots dir !! date = None) as Hnone
         by (destruct (snapshots dir !! date) eqn:E; [|done];
             exfalso; apply Hsnap; by eexists).
  all: destruct (collect_repo_info w owner repo) as [info|];
         [|intros [= <- <- <-]; left; by split].
  all: destruct (collect_star_history w owner repo 15) as [star_history|e]
         eqn:Hstars; [|intros [= <- <- <-]; left; by split].
  all: match goal with
       | |- context [write_tables _ _ _ _ ?s _ _ _ _] => set (snap := s)
       end.
  all: intros Hres; right; (split; [done|]); exists snap.
  all: repeat (split; [done|]); cbv zeta.
  all: change (snap_releases snap) with (collect_releases w owner repo).
  all: change (snap_star_history snap) with star_history.
  all: cbn [snap_packages snap].
  all: destruct (write_tables _ _ _ _ _ _ _ _ _) as [[d l]|[d l]];
         injection Hres as <- <- <-; cbn [io_state fst snd];
         by rewrite insert_insert_eq.
Qed.

Lemma collect_repo_skip w full_name date packages_config fs owner repo :
  split_on "/" full_name = [owner; repo] →
  snapshot_exists fs owner repo date →
  collect_repo w full_name date packages_config fs
  = (Return true, fs, [AlreadyCollected date]).
Proof.
  intros Hsplit (dir & Hdir & Hsnap). unfold collect_repo.
  rewrite Hsplit. cbv zeta. rewrite Hdir.
  change (default empty_repo_dir (Some dir)) with dir.
  rewrite bool_decide_eq_true_2 by done. by rewrite insert_id.
Qed.

Lemma collect_repo_true w full_name date packages_config fs fs' log :
  collect_repo w full_name date packages_config fs = (Return true, fs', log) →
  ∃ owner repo,
    split_on "/" full_name = [owner; repo] ∧ snapshot_exists fs' owner repo date.
Proof.
  intros [(? & _)|(owner & repo & Hsplit & Hcases)]%collect_repo_outcome;
    [done|].
  exists owner, repo. split; [done|]. cbv zeta in Hcases.
  destruct Hcases as [(? & _)|[_ [(-> & Hsnap)|(Hnone & snap & _ & _ & _ & _ & Hw)]]];
    [done|..].
  - eexists. rewrite lookup_insert_eq. split; [done|]. by apply Hsnap.
  - cbv zeta in Hw. destruct Hw as (-> & _ & Hr).
    eexists. rewrite lookup_insert_eq. split; [done|].
    destruct (write_tables_extends (io_fails w (repo_data_dir owner repo)) w date
                packages_config snap (snap_releases snap) (snap_packages snap)
                (snap_star_history snap) _ [] Hnone)
      as (_ & [[Hstate Hfails]|[Hstored _]] & Hcompleted).
    + destruct (write_tables _ _ _ _ _ _ _ _ _) as [s|s]; [|done].
      by rewrite (Hcompleted s eq_refl) in Hfails.
    + rewrite Hstored. by rewrite lookup_insert_eq.
Qed.

(** The directory left by a pass that found no snapshot of the day and
    returned success. *)
Lemma collect_repo_collected w full_name date packages_config fs fs' log
    owner repo :
  split_on "/" full_name = [owner; repo] →
  let dir := default empty_repo_dir (fs !! repo_data_dir owner repo) in
  snapshots dir !! date = None →
  collect_repo w full_name date packages_config fs = (Return true, fs', log) →
  ∃ snap,
    snap_releases snap = collect_releases w owner repo
    ∧ snap_releases_downloads snap
      = calculate_total_downloads (collect_releases w owner repo)
    ∧ collect_star_history w owner repo 15 = Return (snap_star_history snap)
    ∧ fs' = <[repo_data_dir owner repo :=
                RepoDir (<[date := snap]> (snapshots dir))
                  (append_aggregate_row (aggregate_csv dir) date snap).2
                  (update_releases_csv (releases_csv dir) date
                     (collect_releases w owner repo)
                     (get_previous_releases_data (releases_csv dir))).2
                  (packages_after w packages_config date (packages_csv dir))
                  (update_star_history_csv (snap_star_history snap)
                     (star_history_csv dir)).1]> fs.
Proof.
  intros Hsplit dir Hnone
    [(_ & _ & _ & Hbad)|(owner' & repo' & Hsplit' & Hcases)]%collect_repo_outcome;
    [by destruct (Hbad owner repo)|].
  rewrite Hsplit in Hsplit'. injection Hsplit' as <- <-.
  cbv zeta in Hcases. fold dir in Hcases.
  destruct Hcases
    as [(? & _)|[_ [(_ & Hsnap)|(_ & snap & Hrel & Htotal & Hstars & Hpkg & Hw)]]];
    [done|..].
  - destruct (Hsnap eq_refl) as [s Hs]. congruence.
  - exists snap. repeat (split; [done|]).
    cbv zeta in Hw. destruct Hw as (-> & _ & Hr).
    destruct (write_tables _ _ _ _ _ _ _ _ _) as [[dir' log']|s] eqn:Hwritten;
      [|done].
    destruct (write_tables_completed _ _ _ _ _ _ _ _ _ _ _ _ Hwritten)
      as [-> _].
    cbn [io_state fst]. rewrite Hrel. f_equal. f_equal.
    unfold packages_written, packages_after. rewrite Hpkg.
    destruct packages_config as [cfg|]; [|done].
    by destruct (config_truthy (Some cfg)).
Qed.

(** A pass extends every directory that existed, and leaves the
    directories of the other repositories as they were. *)
Lemma collect_repo_extends (w : remote) (full_name date : string)
    (packages_config : option (gmap string (list string))) (fs : data_dir)
    (key : list string) (dir : repo_dir) :
  fs !! key = Some dir →
  ∃ dir',
    (collect_repo w full_name date packages_config fs).1.2 !! key = Some dir'
    ∧ dir_extends dir dir'
    ∧ ((∀ owner repo, split_on "/" full_name = [owner; repo] →
          key ≠ repo_data_dir owner repo) → dir' = dir).
Proof.
  intros Hkey.
  destruct (collect_repo w full_name date packages_config fs)
    as [[r fs'] log] eqn:Hres. cbn [fst snd].
  assert (∃ dir', fs !! key = Some dir' ∧ dir_extends dir dir'
                  ∧ ((∀ owner repo, split_on "/" full_name = [owner; repo] →
                        key ≠ repo_data_dir owner repo) → dir' = dir)) as Hsame.
  { exists dir. split; [done|]. split; [apply dir_extends_refl|done]. }
  destruct (collect_repo_outcome _ _ _ _ _ _ _ _ Hres)
    as [(_ & -> & _)|(owner & repo & Hsplit & Hcases)]; [done|].
  cbv zeta in Hcases.
  destruct Hcases
    as [(_ & -> & _)|[_ [(-> & _)|(Hnone & snap & _ & _ & _ & _ & Hw)]]];
    [done|..].
  - destruct (decide (key = repo_data_dir owner repo)) as [->|Hne].
    + rewrite Hkey. cbn [default from_option id]. by rewrite insert_id.
    + by rewrite lookup_insert_ne.
  - cbv zeta in Hw. destruct Hw as (-> & _ & _).
    destruct (decide (key = repo_data_dir owner repo)) as [->|Hne].
    + rewrite Hkey in *. cbn [default from_option id] in *.
      eexists. rewrite lookup_insert_eq. split; [done|]. split.
      * by apply write_tables_extends.
      * intros Hother. by destruct (Hother owner repo Hsplit).
    + by rewrite lookup_insert_ne.
Qed.

(** C1 (amended).  Once a pass for a repository and date has returned
    success, a second pass for the same repository and date, whatever the
    remote source returns now and whatever the package configuration, is
    skipped: it returns success, leaves the data directory as it is and
    attempts no append, so that no append reports that it wrote; and
    whenever the dated snapshot is on disk the pass is skipped in this way. *)
Theorem C1_second_pass_is_noop (w1 w2 : remote) (full_name date : string)
    (pc1 pc2 : option (gmap string (list string))) (fs fs1 : data_dir)
    (log1 : list event) :
  (collect_repo w1 full_name date pc1 fs = (Return true, fs1, log1) →
   collect_repo w2 full_name date pc2 fs1
   = (Return true, fs1, [AlreadyCollected date])
   ∧ ¬ reports_appended (collect_repo w2 full_name date pc2 fs1).2)
  ∧ (∀ owner repo,
       split_on "/" full_name = [owner; repo] →
       snapshot_exists fs owner repo date →
       collect_repo w2 full_name date pc2 fs
       = (Return true, fs, [AlreadyCollected date])).
Proof.
  split.
  - intros (owner & repo & Hsplit & Hsnap)%collect_repo_true.
    rewrite (collect_repo_skip _ _ _ _ _ owner repo) by done.
    split; [done|]. intros [t Ht]. simpl in Ht.
    apply list_elem_of_singleton in Ht. discriminate.
  - intros owner repo. apply collect_repo_skip.
Qed.

Lemma C1_second_pass_is_noop_witness :
  let w1 := Remote (λ _ _, Some (RepoInfo "o/r" 120 3 4 5 6))
    (λ _ _, Traffic None None [] [])
    (λ _ _, [Release "v1" "" "" [Asset "a.zip" 10 1];
             Release "v2" "" "" [Asset "b.zip" 25 1]])
    (λ _ _, []) (λ _ _, None) (λ _ _, 0) (λ _ _, IssueCounts 0 0)
    (λ _ _ _, Response 200 (StarPage ["2019-03-02T10:00:00Z"] None))
    (λ _ _, RequestException) (λ _ _ _, RequestException)
    19737 "2024-01-15T06:00:00+00:00" (λ _, "2024-01-15") no_io_fault in
  let w2 := Remote (λ _ _, Some (RepoInfo "o/r" 500 3 4 5 6))
    (λ _ _, Traffic None None [] [])
    (λ _ _, [Release "v1" "" "" [Asset "a.zip" 99 1]])
    (λ _ _, []) (λ _ _, None) (λ _ _, 0) (λ _ _, IssueCounts 0 0)
    (λ _ _ _, RequestException)
    (λ _ _, Response 200 (Some 7)) (λ _ _ _, RequestException)
    19737 "2024-01-15T18:00:00+00:00" (λ _, "2024-01-15") no_io_fault in
  let first := collect_repo w1 "o/r" "2024-01-15" None ∅ in
  collect_repo w2 "o/r" "2024-01-15" (Some {["npm" := ["pkg"]]}) first.1.2
  = (Return true, first.1.2, [AlreadyCollected "2024-01-15"]).
Proof.
  intros w1 w2 first.
  apply (proj1 (C1_second_pass_is_noop w1 w2 "o/r" "2024-01-15" None
                  (Some {["npm" := ["pkg"]]}) ∅ first.1.2 first.2)).
  reflexivity.
Defined.

(** C1 as stated fails when the first pass stopped at the profile fetch:
    it persisted no snapshot, so the second pass of the day collects, and
    its appends report that they wrote. *)
Lemma C1_counterexample :
  let w1 := Remote (λ _ _, None)
    (λ _ _, Traffic None None [] []) (λ _ _, [])
    (λ _ _, []) (λ _ _, None) (λ _ _, 0) (λ _ _, IssueCounts 0 0)
    (λ _ _ _, RequestException)
    (λ _ _, RequestException) (λ _ _ _, RequestException)
    19737 "2024-01-15T06:00:00+00:00" (λ _, "2024-01-15") no_io_fault in
  let w2 := Remote (λ _ _, Some (RepoInfo "o/r" 120 3 4 5 6))
    (λ _ _, Traffic None None [] []) (λ _ _, [])
    (λ _ _, []) (λ _ _, None) (λ _ _, 0) (λ _ _, IssueCounts 0 0)
    (λ _ _ _, RequestException)
    (λ _ _, RequestException) (λ _ _ _, RequestException)
    19737 "2024-01-15T18:00:00+00:00" (λ _, "2024-01-15") no_io_fault in
  let first := collect_repo w1 "o/r" "2024-01-15" None ∅ in
  let second := collect_repo w2 "o/r" "2024-01-15" None first.1.2 in
  first.1.1 = Return false
  ∧ second.1.2 ≠ first.1.2
  ∧ second.2 = [SavedSnapshot "2024-01-15"; Updated AggregateTable;
                Updated ReleasesTable].
Proof.
  intros w1 w2 first second. split; [reflexivity|]. split; [|reflexivity].
  intros Heq.
  apply (f_equal (λ fs : data_dir, aggregate_csv <$> fs !! ["data"; "o"; "r"])) in Heq.
  vm_compute in Heq. discriminate Heq.
Qed.

(** Once the directories are made, a pass says the same and leaves the
    same whether it starts before or after they were made. *)
Lemma collect_repo_made w full_name date packages_config fs owner repo :
  split_on "/" full_name = [owner; repo] →
  let key := repo_data_dir owner repo in
  (fs !! key = None → io_fails w key MakeDirs = false) →
  collect_repo w full_name date packages_config
    (<[key := default empty_repo_dir (fs !! key)]> fs)
  = collect_repo w full_name date packages_config fs.
Proof.
  intros Hsplit key Hmk. unfold collect_repo. rewrite Hsplit. cbv zeta.
  fold key. rewrite lookup_insert_eq.
  change (default empty_repo_dir (Some ?d)) with d.
  rewrite !insert_insert_eq.
  destruct (fs !! key) as [dir|] eqn:Hkey; [done|].
  by rewrite (Hmk eq_refl).
Qed.

(** With the same answers of the remote source and the same faults, a
    second pass leaves the data directory of the first pass as it is,
    whether the first one succeeded, stopped at the profile fetch, or
    raised. *)
Lemma collect_repo_idempotent_same_remote w full_name date packages_config fs :
  let first := collect_repo w full_name date packages_config fs in
  (collect_repo w full_name date packages_config first.1.2).1.2 = first.1.2.
Proof.
  intros first. subst first.
  destruct (collect_repo w full_name date packages_config fs)
    as [[r fs1] log1] eqn:Hfirst.
  cbn [fst snd].
  destruct (collect_repo_outcome _ _ _ _ _ _ _ _ Hfirst)
    as [(_ & -> & _)|(owner & repo & Hsplit & Hcases)];
    [by rewrite Hfirst|].
  cbv zeta in Hcases.
  destruct Hcases
    as [(_ & -> & _)|[Hmk [(-> & _)|(Hnone & snap & _ & _ & _ & _ & Hw)]]];
    [by rewrite Hfirst|..].
  - rewrite (collect_repo_made _ _ _ _ _ owner repo) by done.
    by rewrite Hfirst.
  - cbv zeta in Hw. destruct Hw as (-> & _ & _).
    destruct (write_tables_extends (io_fails w (repo_data_dir owner repo)) w date
                packages_config snap (snap_releases snap) (snap_packages snap)
                (snap_star_history snap) _ [] Hnone)
      as (_ & [[Hstate _]|[Hstored _]] & _).
    + rewrite Hstate. cbn [fst].
      rewrite (collect_repo_made _ _ _ _ _ owner repo) by done.
      rewrite Hfirst. cbn [fst snd]. by rewrite Hstate.
    + rewrite (collect_repo_skip _ _ _ _ _ owner repo); [done..|].
      eexists. rewrite lookup_insert_eq. split; [done|].
      rewrite Hstored. by rewrite lookup_insert_eq.
Qed.

(** A pass that finds no snapshot of the day, gets the profile and the
    star history and meets no fault of the file system, writes the
    snapshot and updates each table with the function that owns it. *)
Lemma collect_repo_full_pass w full_name date packages_config fs owner repo
    info star_history :
  split_on "/" full_name = [owner; repo] →
  let dir := default empty_repo_dir (fs !! repo_data_dir owner repo) in
  (∀ p, io_fails w (repo_data_dir owner repo) p = false) →
  snapshots dir !! date = None →
  collect_repo_info w owner repo = Some info →
  collect_star_history w owner repo 15 = Return star_history →
  ∃ dir' log,
    collect_repo w full_name date packages_config fs
    = (Return true, <[repo_data_dir owner repo := dir']> fs, log)
    ∧ is_Some (snapshots dir' !! date)
    ∧ releases_csv dir'
      = (update_releases_csv (releases_csv dir) date
           (collect_releases w owner repo)
           (get_previous_releases_data (releases_csv dir))).2
    ∧ packages_csv dir'
      = match packages_config with
        | Some cfg =>
            if config_truthy packages_config
            then (update_packages_section w cfg date
                    (collect_package_downloads w cfg date) (packages_csv dir)).1
            else packages_csv dir
        | None => packages_csv dir
        end
    ∧ star_history_csv dir'
      = (update_star_history_csv star_history (star_history_csv dir)).1.
Proof.
  intros Hsplit dir Hno Hsnap Hinfo Hstars. unfold collect_repo.
  rewrite Hsplit. cbv zeta. rewrite !Hno. fold dir.
  assert (match fs !! repo_data_dir owner repo with
          | Some _ | _ => false
          end = false) as -> by (by destruct (fs !! _)).
  rewrite bool_decide_eq_false_2 by (rewrite Hsnap; by intros [? ?]).
  rewrite Hinfo, Hstars.
  match goal with
  | |- context [write_tables ?f ?w ?d ?pc ?s ?r ?p ?h ?st] =>
      destruct (write_tables_no_fault f w d pc s r p h st Hno)
        as [[dir' log'] Hwritten];
      rewrite Hwritten;
      destruct (write_tables_completed _ _ _ _ _ _ _ _ _ _ _ _ Hwritten)
        as [Hdir _]
  end.
  rewrite insert_insert_eq. exists dir', log'. split; [done|].
  rewrite Hdir.
  cbn [snapshots releases_csv packages_csv star_history_csv].
  rewrite lookup_insert_eq. split; [done|]. split; [done|]. split; [|done].
  unfold packages_written.
  destruct packages_config as [cfg|]; [|done].
  by destruct (config_truthy (Some cfg)).
Qed.

(** ** Run orchestrator *)

Section orchestrator_facts.
Variable collect :
  string → string → option (gmap string (list string)) → data_dir →
  py_result bool * data_dir * list event.

Lemma main_loop_foldl today entries n fs log :
  foldl
    (λ '(success_count, fs, log) entry,
       let '(outcome, fs, log_entry) := run_entry collect today entry fs in
       (match outcome with
        | Succeeded => S success_count
        | _ => success_count
        end, fs, log ++ log_entry))
    (n, fs, log) entries
  = ((n + count_succeeded (entry_outcomes collect today entries fs))%nat,
     (run_entries collect today entries fs).2,
     log ++ concat (snd <$> (run_entries collect today entries fs).1)).
Proof.
  unfold entry_outcomes.
  revert n fs log. induction entries as [|entry rest IH]; intros n fs log.
  - simpl. by rewrite Nat.add_0_r, app_nil_r.
  - simpl. destruct (run_entry collect today entry fs) as [[outcome fs'] log'].
    rewrite IH. destruct (run_entries collect today rest fs') as [results fs''].
    simpl. rewrite <- app_assoc.
    destruct outcome; simpl; rewrite ?Nat.add_succ_r; done.
Qed.

Lemma main_loop_spec today entries fs :
  main_loop collect today entries fs
  = (count_succeeded (entry_outcomes collect today entries fs),
     (run_entries collect today entries fs).2,
     concat (snd <$> (run_entries collect today entries fs).1)).
Proof. unfold main_loop. by rewrite main_loop_foldl. Qed.

Lemma entry_outcomes_length today entries fs :
  length (entry_outcomes collect today entries fs) = length entries.
Proof.
  unfold entry_outcomes. rewrite length_fmap.
  revert fs. induction entries as [|entry rest IH]; intros fs; [done|].
  simpl. destruct (run_entry collect today entry fs) as [[outcome fs'] log'].
  specialize (IH fs'). destruct (run_entries collect today rest fs'). simpl in *.
  by rewrite IH.
Qed.

Lemma run_entry_errored today entry fs e fs' log :
  run_entry collect today entry fs = (Errored e, fs', log) →
  ErrorCollecting entry e ∈ log.
Proof.
  unfold run_entry.
  destruct entry as [name|[name|] packages|]; simpl;
    repeat case_bool_decide;
    repeat match goal with
      | |- context [collect ?a ?b ?c ?d] =>
          destruct (collect a b c d) as [[[[|]|?] ?] ?]
      end;
    intros [= <- <- <-] || intros [= <- <-] || intros [= <-] || intros [=];
    rewrite ?elem_of_app, ?list_elem_of_singleton; auto.
Qed.

Lemma run_entries_errored today entries fs i e :
  entry_outcomes collect today entries fs !! i = Some (Errored e) →
  ∃ entry,
    entries !! i = Some entry
    ∧ ErrorCollecting entry e ∈ concat (snd <$> (run_entries collect today entries fs).1).
Proof.
  unfold entry_outcomes.
  revert fs i. induction entries as [|entry rest IH]; intros fs i; [done|].
  simpl. destruct (run_entry collect today entry fs) as [[outcome fs'] log'] eqn:Hrun.
  specialize (IH fs'). destruct (run_entries collect today rest fs') as [results fs''].
  simpl in *. destruct i as [|i]; simpl.
  - intros [= ->]. exists entry. split; [done|].
    apply elem_of_app. left. by eapply run_entry_errored.
  - intros Hi. destruct (IH i Hi) as (entry' & Hentry & Hlog).
    exists entry'. split; [done|]. apply elem_of_app. by right.
Qed.
End orchestrator_facts.

Lemma count_succeeded_le outcomes :
  (count_succeeded outcomes ≤ length outcomes)%nat.
Proof. induction outcomes as [|[]]; simpl; lia. Qed.

Lemma count_succeeded_all outcomes :
  count_succeeded outcomes = length outcomes
  ↔ Forall (λ outcome, outcome = Succeeded) outcomes.
Proof.
  induction outcomes as [|outcome outcomes IH].
  - split; [constructor|done].
  - pose proof (count_succeeded_le outcomes). rewrite Forall_cons.
    destruct outcome; simpl; (split; [intros H'|intros [H1 H2]]);
      try lia; try discriminate.
    + split; [done|]. apply IH. lia.
    + f_equal. by apply IH.
Qed.

Lemma run_entry_named collect today entry name packages_config fs :
  entry_names entry name packages_config →
  run_entry collect today entry fs
  = match collect name today packages_config fs with
    | (Return true, fs', log) => (Succeeded, fs', log)
    | (Return false, fs', log) => (Failed, fs', log)
    | (Raise e, fs', log) => (Errored e, fs', log ++ [ErrorCollecting entry e])
    end.
Proof.
  intros [Hname [[-> ->]|(packages & -> & ->)]]; simpl;
    by rewrite bool_decide_eq_false_2.
Qed.

Lemma entry_names_unique entry name1 pc1 name2 pc2 :
  entry_names entry name1 pc1 → entry_names entry name2 pc2 →
  name1 = name2 ∧ pc1 = pc2.
Proof.
  intros [_ [[-> ->]|(p1 & -> & ->)]] [_ [[[= <-] ->]|(p2 & [= <- <-] & ->)]];
    done.
Qed.

Lemma run_entry_unnamed collect today entry fs :
  (∀ name packages_config, ¬ entry_names entry name packages_config) →
  run_entry collect today entry fs
  = match entry with
    | EntryOther =>
        (Errored AttributeError, fs, [ErrorCollecting entry AttributeError])
    | _ => (Invalid, fs, [SkippingInvalid entry])
    end.
Proof.
  intros Hnone. destruct entry as [name|[name|] packages|]; simpl; try done.
  - case_bool_decide as Hname; [done|].
    destruct (Hnone name None). split; [done|]. by left.
  - case_bool_decide as Hname; [done|].
    destruct (Hnone name (Some (default ∅ packages))). split; [done|].
    right. by exists packages.
Qed.

Lemma entry_names_dec entry :
  (∃ name packages_config, entry_names entry name packages_config)
  ∨ (∀ name packages_config, ¬ entry_names entry name packages_config).
Proof.
  destruct entry as [name|[name|] packages|].
  - destruct (decide (name = "")) as [->|Hname].
    + right. intros name pc [Hne [[[= <-] _]|(p & [=] & _)]]. done.
    + left. exists name, None. split; [done|]. by left.
  - destruct (decide (name = "")) as [->|Hname].
    + right. intros name pc [Hne [[[=] _]|(p & [= <- _] & _)]]. done.
    + left. exists name, (Some (default ∅ packages)). split; [done|].
      right. by exists packages.
  - right. intros name pc [_ [[[=] _]|(p & [=] & _)]].
  - right. intros name pc [_ [[[=] _]|(p & [=] & _)]].
Qed.

Lemma entry_outcomes_all_collected collect today entries fs :
  Forall (λ outcome, outcome = Succeeded) (entry_outcomes collect today entries fs)
  ↔ all_collected collect today entries fs.
Proof.
  unfold entry_outcomes. revert fs.
  induction entries as [|entry rest IH]; intros fs; [by split; [|constructor]|].
  cbn [run_entries all_collected].
  destruct (entry_names_dec entry) as [(name & pc & Hentry)|Hnone].
  - rewrite (run_entry_named collect today entry name pc fs Hentry).
    destruct (collect name today pc fs) as [[[[|]|e] fs1] log1] eqn:Hcollect.
    + specialize (IH fs1).
      destruct (run_entries collect today rest fs1) as [results fs2].
      cbn [fst snd fmap list_fmap] in *. rewrite Forall_cons. split.
      * intros [_ Hrest]. exists name, pc, fs1, log1.
        split; [done|]. split; [done|]. by apply IH.
      * intros (name' & pc' & fs' & log' & Hentry' & Hcollect' & Hrest).
        destruct (entry_names_unique _ _ _ _ _ Hentry Hentry') as [<- <-].
        rewrite Hcollect in Hcollect'. injection Hcollect' as <- <-.
        split; [done|]. by apply IH.
    + destruct (run_entries collect today rest fs1) as [results fs2].
      cbn [fst snd fmap list_fmap]. rewrite Forall_cons. split.
      * by intros [[=] _].
      * intros (name' & pc' & fs' & log' & Hentry' & Hcollect' & _).
        destruct (entry_names_unique _ _ _ _ _ Hentry Hentry') as [<- <-].
        rewrite Hcollect in Hcollect'. discriminate Hcollect'.
    + destruct (run_entries collect today rest fs1) as [results fs2].
      cbn [fst snd fmap list_fmap]. rewrite Forall_cons. split.
      * by intros [[=] _].
      * intros (name' & pc' & fs' & log' & Hentry' & Hcollect' & _).
        destruct (entry_names_unique _ _ _ _ _ Hentry Hentry') as [<- <-].
        rewrite Hcollect in Hcollect'. discriminate Hcollect'.
  - rewrite (run_entry_unnamed collect today entry fs Hnone).
    split.
    + destruct entry; destruct (run_entries collect today rest fs);
        cbn [fst snd fmap list_fmap]; rewrite Forall_cons; by intros [[=] _].
    + intros (name & pc & _ & _ & Hentry & _). by destruct (Hnone name pc).
Qed.

(** C8 (amended).  An exception raised while one repository is collected
    is caught: the entry counts as errored, the error is logged, and the
    loop goes on with the next entry from the data directory left behind,
    so that every entry gets its turn.  An entry that names no repository
    is skipped, or, when it is neither a string nor an object, caught as
    an error; it leaves the data directory as it is and is no success.
    When the configuration lists at least one entry, the exit status is 0
    exactly when every entry named a repository whose collection returned
    success, and 1 otherwise (an entry that errored, returned failure or
    named no repository); the number of successes is reported.  With no
    configuration file or no entry the exit status is 1. *)
Theorem C8_orchestrator
    (collect : string → string → option (gmap string (list string)) →
               data_dir → py_result bool * data_dir * list event)
    (w : remote) (cfg : config) (fs : data_dir) :
  let repos_config := default [] (cfg_repos cfg) in
  let today := strftime_ymd w (now_day w) in
  let outcomes := entry_outcomes collect today repos_config fs in
  let result := main_with collect w (Some cfg) fs in
  (∀ entry name packages_config fs0,
     entry_names entry name packages_config →
     run_entry collect today entry fs0
     = match collect name today packages_config fs0 with
       | (Return true, fs1, log) => (Succeeded, fs1, log)
       | (Return false, fs1, log) => (Failed, fs1, log)
       | (Raise e, fs1, log) =>
           (Errored e, fs1, log ++ [ErrorCollecting entry e])
       end)
  ∧ (∀ entry fs0,
       (∀ name packages_config, ¬ entry_names entry name packages_config) →
       run_entry collect today entry fs0
       = match entry with
         | EntryOther =>
             (Errored AttributeError, fs0,
              [ErrorCollecting entry AttributeError])
         | _ => (Invalid, fs0, [SkippingInvalid entry])
         end)
  ∧ main_with collect w None fs = (1, fs, [ConfigNotFound])
  ∧ (repos_config = [] → result = (1, fs, [NoRepositories]))
  ∧ (repos_config ≠ [] →
     length outcomes = length repos_config
     ∧ (result.1.1 = 0 ↔ all_collected collect today repos_config fs)
     ∧ (result.1.1 = 1 ↔ ¬ all_collected collect today repos_config fs)
     ∧ (result.1.1 = 0 ↔ Forall (λ outcome, outcome = Succeeded) outcomes)
     ∧ (result.1.1 = 1 ↔ ¬ Forall (λ outcome, outcome = Succeeded) outcomes)
     ∧ (∀ i e,
          outcomes !! i = Some (Errored e) →
          ∃ entry, repos_config !! i = Some entry
                   ∧ ErrorCollecting entry e ∈ result.2)
     ∧ Done (count_succeeded outcomes) (length repos_config) ∈ result.2).
Proof.
  intros repos_config today outcomes result.
  split; [intros; by apply run_entry_named|].
  split; [intros; by apply run_entry_unnamed|].
  split; [done|].
  subst result. unfold main_with. fold repos_config. fold today.
  split; [by intros ->|].
  intros Hne. destruct repos_config as [|entry rest] eqn:Hrepos; [done|].
  rewrite main_loop_spec. fold outcomes. cbn [fst snd].
  pose proof (entry_outcomes_length collect today (entry :: rest) fs) as Hlen.
  fold outcomes in Hlen.
  pose proof (count_succeeded_all outcomes) as Hall. rewrite Hlen in Hall.
  pose proof (entry_outcomes_all_collected collect today (entry :: rest) fs)
    as Hcollected.
  fold outcomes in Hcollected.
  assert ((if bool_decide (count_succeeded outcomes = length (entry :: rest))
           then 0 else 1) = 0
          ↔ Forall (λ outcome, outcome = Succeeded) outcomes) as Hzero.
  { case_bool_decide as Hcount; split; try done; intros H'.
    - by apply Hall.
    - by apply Hall in H'. }
  assert ((if bool_decide (count_succeeded outcomes = length (entry :: rest))
           then 0 else 1) = 1
          ↔ ¬ Forall (λ outcome, outcome = Succeeded) outcomes) as Hone.
  { case_bool_decide as Hcount; split; try done; intros H'.
    - by apply Hall in Hcount.
    - by intros ?%Hall. }
  split; [done|].
  split; [by rewrite Hzero, Hcollected|].
  split; [by rewrite Hone, Hcollected|].
  split; [done|]. split; [done|]. split.
  - intros i e Hi.
    destruct (run_entries_errored collect today (entry :: rest) fs i e Hi)
      as (entry' & Hentry & Hlog).
    exists entry'. split; [done|]. apply elem_of_app. by left.
  - apply elem_of_app. right. apply list_elem_of_here.
Qed.

Lemma C8_orchestrator_witness :
  let w := Remote (λ _ _, Some (RepoInfo "o/r" 120 3 4 5 6))
    (λ _ _, Traffic None None [] []) (λ _ _, [])
    (λ _ _, []) (λ _ _, None) (λ _ _, 0) (λ _ _, IssueCounts 0 0)
    (λ _ _ _, RequestException)
    (λ _ _, RequestException) (λ _ _ _, RequestException)
    19737 "2024-01-15T06:00:00+00:00" (λ _, "2024-01-15") no_io_fault in
  (main w (Some (Config (Some [EntryStr "o/r"; EntryStr "no-slash"]))) ∅).1.1 = 1
  ∧ (main w (Some (Config (Some [EntryStr "o/r"; EntryStr "p/q"]))) ∅).1.1 = 0.
Proof.
  intros w. split.
  - destruct (C8_orchestrator (collect_repo w) w
                (Config (Some [EntryStr "o/r"; EntryStr "no-slash"])) ∅)
      as (_ & _ & _ & _ & Hloop).
    destruct (Hloop ltac:(discriminate)) as (_ & _ & _ & _ & Hone & _).
    apply Hone.
    vm_compute. intros H. inversion H as [|? ? _ H']. inversion H' as [|? ? Hbad _].
    discriminate Hbad.
  - destruct (C8_orchestrator (collect_repo w) w
                (Config (Some [EntryStr "o/r"; EntryStr "p/q"])) ∅)
      as (_ & _ & _ & _ & Hloop).
    destruct (Hloop ltac:(discriminate)) as (_ & _ & _ & Hzero & _).
    apply Hzero.
    vm_compute. repeat constructor.
Defined.

(** C8 as stated fails on a configuration with an entry that names no
    repository: the one repository of the configuration is collected with
    success, no repository errored or lacked its profile, and the exit
    status is 1, because the skipped entry is counted among the entries
    and not among the successes. *)
Lemma C8_counterexample :
  let w := Remote (λ _ _, Some (RepoInfo "o/r" 120 3 4 5 6))
    (λ _ _, Traffic None None [] []) (λ _ _, [])
    (λ _ _, []) (λ _ _, None) (λ _ _, 0) (λ _ _, IssueCounts 0 0)
    (λ _ _ _, RequestException)
    (λ _ _, RequestException) (λ _ _ _, RequestException)
    19737 "2024-01-15T06:00:00+00:00" (λ _, "2024-01-15") no_io_fault in
  let entries := [EntryStr "o/r"; EntryDict None None] in
  entry_outcomes (collect_repo w) "2024-01-15" entries ∅ = [Succeeded; Invalid]
  ∧ (main w (Some (Config (Some entries))) ∅).1.1 = 1
  ∧ (main w (Some (Config (Some entries))) ∅).2
    = [SavedSnapshot "2024-01-15"; Updated AggregateTable;
       Updated ReleasesTable; SkippingInvalid (EntryDict None None);
       Done 1 2].
Proof. repeat split; vm_compute; reflexivity. Qed.

(** ** Pagination *)

Lemma api_get_paginated_loop_full {A} (get : nat → response (list A))
    (m remaining page : nat) (results : list A) :
  (∀ i, (i < m)%nat → full_page get (page + i)) →
  api_get_paginated_loop get (m + remaining) page results
  = api_get_paginated_loop get remaining (page + m)
      (results ++ concat (page_items get <$> seq page m)).
Proof.
  revert page results. induction m as [|m IH]; intros page results Hfull.
  - simpl. by rewrite Nat.add_0_r, app_nil_r.
  - destruct (Hfull 0%nat ltac:(lia)) as (data & Hget & Hlen).
    rewrite Nat.add_0_r in Hget.
    cbn [Nat.add api_get_paginated_loop]. rewrite Hget.
    rewrite bool_decide_eq_false_2 by (intros H; by apply H).
    destruct data as [|x data]; [simpl in Hlen; lia|].
    rewrite (proj2 (Nat.ltb_ge _ _) Hlen).
    rewrite IH.
    + cbn [seq fmap list_fmap concat]. unfold page_items at 2. rewrite Hget.
      rewrite bool_decide_eq_true_2 by done.
      rewrite <- app_assoc. f_equal. lia.
    + intros i Hi. replace (S page + i)%nat with (page + S i)%nat by lia.
      apply Hfull. lia.
Qed.

Lemma api_get_paginated_loop_step {A} (get : nat → response (list A))
    (remaining page : nat) (results : list A) :
  ¬ full_page get page →
  api_get_paginated_loop get (S remaining) page results
  = results ++ page_items get page.
Proof.
  intros Hnot. simpl. unfold page_items.
  destruct (get page) as [|status data] eqn:Hget; [by rewrite app_nil_r|].
  case_bool_decide as Hst.
  - rewrite bool_decide_eq_false_2 by done. by rewrite app_nil_r.
  - subst status.
    rewrite bool_decide_eq_true_2 by done.
    destruct data as [|x data]; [by rewrite app_nil_r|].
    destruct (Nat.ltb_spec (length (x :: data)) 100) as [Hlt|Hge]; [done|].
    exfalso. apply Hnot. by exists (x :: data).
Qed.

(** X1.  When the first [max_pages] pages are all delivered with at least
    100 items, the result is exactly their items in order: later pages are
    not asked for, whatever they hold. *)
Theorem api_get_paginated_truncates {A} (get : nat → response (list A))
    (max_pages : nat) :
  (∀ page, (1 ≤ page ≤ max_pages)%nat → full_page get page) →
  api_get_paginated get max_pages
  = concat (page_items get <$> seq 1 max_pages).
Proof.
  intros Hfull. unfold api_get_paginated.
  rewrite <- (Nat.add_0_r max_pages) at 1.
  rewrite api_get_paginated_loop_full; [done|].
  intros i Hi. apply Hfull. lia.
Qed.

(** X2.  When page [j], within the first [max_pages], is the first that is
    not delivered with at least 100 items, the result is the items of the
    pages before it followed by what page [j] delivered (nothing when the
    request failed): pages after [j] are not asked for, and the pages read
    before a failure are kept. *)
Theorem api_get_paginated_stops {A} (get : nat → response (list A))
    (max_pages j : nat) :
  (1 ≤ j ≤ max_pages)%nat →
  (∀ page, (1 ≤ page < j)%nat → full_page get page) →
  ¬ full_page get j →
  api_get_paginated get max_pages
  = concat (page_items get <$> seq 1 (j - 1)) ++ page_items get j.
Proof.
  intros Hj Hfull Hnot. unfold api_get_paginated.
  replace max_pages with ((j - 1) + S (max_pages - j))%nat at 1 by lia.
  rewrite api_get_paginated_loop_full by (intros i Hi; apply Hfull; lia).
  replace (1 + (j - 1))%nat with j by lia.
  by rewrite api_get_paginated_loop_step.
Qed.

Lemma api_get_paginated_truncates_witness :
  api_get_paginated (λ page, Response 200 (replicate 100 page)) 2
  = replicate 100 1%nat ++ replicate 100 2%nat.
Proof.
  rewrite (api_get_paginated_truncates (λ page, Response 200 (replicate 100 page)) 2).
  - reflexivity.
  - intros page _. eexists. split; [reflexivity|].
    rewrite length_replicate. lia.
Defined.

Lemma api_get_paginated_stops_witness :
  api_get_paginated
    (λ page, match page with
             | 1%nat => Response 200 (replicate 100 "v1")
             | 2%nat => Response 502 []
             | _ => Response 200 (replicate 100 "lost")
             end) 10
  = replicate 100 "v1".
Proof.
  rewrite (api_get_paginated_stops _ 10 2).
  - reflexivity.
  - lia.
  - intros page Hpage. assert (page = 1%nat) as -> by lia.
    eexists. split; [reflexivity|]. rewrite length_replicate. lia.
  - intros (data & Hget & Hlen). discriminate Hget.
Defined.

Lemma api_get_paginated_loop_prefix {A} (get : nat → response (list A))
    (remaining page : nat) (results : list A) :
  ∃ n, (n ≤ remaining)%nat
       ∧ api_get_paginated_loop get remaining page results
         = results ++ concat (page_items get <$> seq page n).
Proof.
  revert page results. induction remaining as [|remaining IH]; intros page results.
  - exists 0%nat. split; [done|]. simpl. by rewrite app_nil_r.
  - simpl. destruct (get page) as [|status data] eqn:Hget.
    { exists 0%nat. split; [lia|]. simpl. by rewrite app_nil_r. }
    case_bool_decide as Hst.
    { exists 0%nat. split; [lia|]. simpl. by rewrite app_nil_r. }
    destruct data as [|x data].
    { exists 0%nat. split; [lia|]. simpl. by rewrite app_nil_r. }
    assert (page_items get page = x :: data) as Hitems.
    { unfold page_items. rewrite Hget. by rewrite bool_decide_eq_true_2. }
    destruct (length (x :: data) <? 100)%nat.
    + exists 1%nat. split; [lia|]. cbn [seq fmap list_fmap concat].
      by rewrite Hitems, app_nil_r.
    + destruct (IH (S page) (results ++ x :: data)) as (n & Hn & Heq).
      exists (S n). split; [lia|]. rewrite Heq.
      cbn [seq fmap list_fmap concat]. by rewrite Hitems, <- app_assoc.
Qed.

(** X3.  Whatever the remote answers, the result is the items of the
    pages 1 to [n] for some [n] of at most [max_pages], in page order: no
    page is skipped, repeated or read beyond the limit; so when no page
    holds more than 100 items the result has at most [100 * max_pages]. *)
Theorem api_get_paginated_bounded {A} (get : nat → response (list A))
    (max_pages : nat) :
  (∃ n, (n ≤ max_pages)%nat
        ∧ api_get_paginated get max_pages
          = concat (page_items get <$> seq 1 n))
  ∧ ((∀ page, (length (page_items get page) ≤ 100)%nat) →
     (length (api_get_paginated get max_pages) ≤ 100 * max_pages)%nat).
Proof.
  destruct (api_get_paginated_loop_prefix get max_pages 1 []) as (n & Hn & Heq).
  split; [by exists n|].
  intros Hsize. unfold api_get_paginated. rewrite Heq. simpl.
  assert (∀ start, (length (concat (page_items get <$> seq start n)) ≤ 100 * n)%nat)
    as Hlen.
  { clear Heq Hn. induction n as [|n IH]; intros start; [simpl; lia|].
    cbn [seq fmap list_fmap concat]. rewrite length_app.
    specialize (Hsize start). specialize (IH (S start)). lia. }
  specialize (Hlen 1%nat). nia.
Qed.

Lemma api_get_paginated_bounded_witness :
  (length (api_get_paginated (λ page, Response 200 (replicate 100 page)) 3)
   ≤ 100 * 3)%nat.
Proof.
  apply (proj2 (api_get_paginated_bounded (λ page, Response 200 (replicate 100 page)) 3)).
  intros page. unfold page_items. cbv beta iota.
  rewrite bool_decide_eq_true_2 by done. rewrite length_replicate. lia.
Defined.

(** ** Release rows across cycles *)

Lemma release_rows_cycle date releases previous_data :
  release_rows date releases previous_data
  = (λ p : string * asset,
       ReleaseRow date p.1 (asset_name p.2) (asset_size p.2)
         (asset_download_count p.2)
         (asset_download_count p.2
          - default (asset_download_count p.2) (previous_data !! asset_key p)))
      <$> cycle_assets releases.
Proof.
  unfold release_rows, cycle_assets.
  induction releases as [|release releases IH]; [done|].
  rewrite !bind_cons, fmap_app, IH. f_equal.
  induction (release_assets release) as [|asset assets IHa]; [done|].
  rewrite !bind_cons, fmap_app, IHa. done.
Qed.

Lemma foldl_add_assets total (assets : list asset) :
  foldl (λ total asset, total + asset_download_count asset) total assets
  = total + sum_Z (asset_download_count <$> assets).
Proof.
  revert total. induction assets as [|asset assets IH]; intros total.
  - unfold sum_Z. simpl. lia.
  - cbn [foldl]. rewrite IH, fmap_cons. unfold sum_Z. cbn [foldr]. lia.
Qed.

Lemma sum_Z_app l1 l2 : sum_Z (l1 ++ l2) = sum_Z l1 + sum_Z l2.
Proof.
  unfold sum_Z. induction l1 as [|x l1 IH]; [simpl; lia|].
  cbn [app foldr]. rewrite IH. lia.
Qed.

Lemma calculate_total_downloads_cycle releases :
  calculate_total_downloads releases
  = sum_Z ((λ p : string * asset, asset_download_count p.2)
             <$> cycle_assets releases).
Proof.
  unfold calculate_total_downloads.
  assert (∀ total,
            foldl
              (λ total release,
                 foldl (λ total asset, total + asset_download_count asset)
                   total (release_assets release))
              total releases
            = total + sum_Z ((λ p : string * asset, asset_download_count p.2)
                               <$> cycle_assets releases)) as H;
    [|rewrite H; lia].
  induction releases as [|release releases IH]; intros total.
  - simpl. unfold sum_Z. simpl. lia.
  - cbn [foldl]. rewrite IH, foldl_add_assets.
    unfold cycle_assets at 2. rewrite bind_cons, fmap_app, sum_Z_app.
    fold (cycle_assets releases).
    assert ((λ p : string * asset, asset_download_count p.2)
              <$> (asset ← release_assets release; [(release_tag release, asset)])
            = asset_download_count <$> release_assets release) as ->; [|lia].
    induction (release_assets release) as [|asset assets IHa]; [done|].
    rewrite bind_cons, fmap_app, IHa. done.
Qed.

Lemma calculate_total_downloads_rows date releases previous_data :
  calculate_total_downloads releases
  = sum_Z (rr_download_count <$> release_rows date releases previous_data).
Proof.
  rewrite calculate_total_downloads_cycle, release_rows_cycle.
  by rewrite <- list_fmap_compose.
Qed.

(** X4.  The total that goes into the snapshot and the aggregate row is
    the sum of the asset download counts of the releases, nested loops
    flattened, and so the sum of the download counts of the release-asset
    rows computed from the same releases, whatever the date and the
    previous data. *)
Theorem total_downloads_matches_release_rows (date : string)
    (releases : list release) (previous_data : gmap string Z) :
  calculate_total_downloads releases
  = sum_Z ((λ p : string * asset, asset_download_count p.2)
             <$> cycle_assets releases)
  ∧ calculate_total_downloads releases
    = sum_Z (rr_download_count <$> release_rows date releases previous_data).
Proof.
  split; [apply calculate_total_downloads_cycle
         |apply calculate_total_downloads_rows].
Qed.

Lemma last_count_app key rows1 rows2 :
  last_count key (rows1 ++ rows2)
  = match last_count key rows2 with
    | Some c => Some c
    | None => last_count key rows1
    end.
Proof.
  unfold last_count. rewrite filter_app, last_app.
  by destruct (last (filter _ rows2)).
Qed.

Lemma filter_fmap_pre {A B} (f : A → B) (P : B → Prop) (Q : A → Prop)
    `{∀ y, Decision (P y)} `{∀ x, Decision (Q x)} (l : list A) :
  (∀ x, P (f x) ↔ Q x) → filter P (f <$> l) = f <$> filter Q l.
Proof.
  intros HPQ. induction l as [|x l IH]; [done|].
  rewrite fmap_cons, !filter_cons, IH.
  destruct (decide (P (f x))) as [HP|HP], (decide (Q x)) as [HQ|HQ];
    try done; exfalso; [by apply HQ, HPQ|by apply HP, HPQ].
Qed.

Lemma last_count_release_rows key date releases previous_data :
  last_count key (release_rows date releases previous_data)
  = (λ p : string * asset, asset_download_count p.2)
      <$> last (filter (λ p, asset_key p = key) (cycle_assets releases)).
Proof.
  rewrite release_rows_cycle. unfold last_count.
  rewrite (filter_fmap_pre _ _ (λ p, asset_key p = key)) by done.
  rewrite fmap_last. by destruct (last _).
Qed.

Lemma previous_data_after_update_lookup (csv : csv_file release_row)
    (date : string) (releases : list release) (key : string) :
  ¬ has_date csv date →
  get_previous_releases_data
    (update_releases_csv csv date releases (get_previous_releases_data csv)).2
    !! key
  = match last (filter (λ p, asset_key p = key) (cycle_assets releases)) with
    | Some p => Some (asset_download_count p.2)
    | None => get_previous_releases_data csv !! key
    end.
Proof.
  intros Hd.
  rewrite (proj2 (update_releases_csv_spec _ _ _ _) Hd). cbn [snd].
  rewrite !get_previous_releases_data_lookup. cbn [default from_option id].
  rewrite last_count_app, last_count_release_rows.
  by destruct (last _).
Qed.

(** X5.  After the rows of a cycle have been written, the previous-data
    dictionary read back from the table maps a key to the count of the
    last pair of that cycle with the key, and a key that the cycle does
    not have to the count it had before: pairs that disappeared upstream
    keep their last known count. *)
Theorem previous_data_after_update (csv : csv_file release_row) (date : string)
    (releases : list release) (key : string) :
  ¬ has_date csv date →
  let csv' :=
    (update_releases_csv csv date releases (get_previous_releases_data csv)).2 in
  get_previous_releases_data csv' !! key
  = match last (filter (λ p, asset_key p = key) (cycle_assets releases)) with
    | Some p => Some (asset_download_count p.2)
    | None => get_previous_releases_data csv !! key
    end.
Proof. intros Hd csv'. by apply previous_data_after_update_lookup. Qed.

Lemma filter_unique {A B} `{EqDecision B} (f : A → B) (l : list A) (x : A) :
  NoDup (f <$> l) → x ∈ l → filter (λ y, f y = f x) l = [x].
Proof.
  induction l as [|y l IH]; intros Hnd Hin; [by apply elem_of_nil in Hin|].
  rewrite fmap_cons in Hnd. apply NoDup_cons in Hnd as [Hy Hnd].
  apply elem_of_cons in Hin as [->|Hin].
  - rewrite filter_cons_True by done. f_equal.
    apply filter_none. intros z Hz Heq. apply Hy. rewrite <- Heq.
    by apply list_elem_of_fmap_2.
  - rewrite filter_cons_False; [by apply IH|].
    intros Heq. apply Hy. rewrite Heq. by apply list_elem_of_fmap_2.
Qed.

(** X6.  When the pairs of a cycle have pairwise different keys and the
    table has no row of the date yet, the next cycle is diffed against
    this one: for a pair written with count [c], the table read back gives
    [c] as previous count, so that a later count [c'] is recorded with
    delta [c' - c], and an unchanged count with delta 0. *)
Theorem next_cycle_delta (csv : csv_file release_row) (date : string)
    (releases : list release) (tag : string) (a : asset) :
  NoDup (asset_key <$> cycle_assets releases) →
  ¬ has_date csv date →
  (tag, a) ∈ cycle_assets releases →
  let csv' :=
    (update_releases_csv csv date releases (get_previous_releases_data csv)).2 in
  get_previous_releases_data csv' !! release_key tag (asset_name a)
  = Some (asset_download_count a)
  ∧ (∀ c', delta_of (default [] csv') tag (asset_name a) c'
           = c' - asset_download_count a)
  ∧ delta_of (default [] csv') tag (asset_name a) (asset_download_count a) = 0.
Proof.
  intros Hnd Hd Hin csv'.
  assert (get_previous_releases_data csv' !! release_key tag (asset_name a)
          = Some (asset_download_count a)) as Hprev.
  { subst csv'. rewrite previous_data_after_update_lookup by done.
    change (release_key tag (asset_name a)) with (asset_key (tag, a)).
    by rewrite (filter_unique asset_key _ (tag, a)). }
  split; [done|].
  rewrite get_previous_releases_data_lookup in Hprev.
  unfold delta_of. rewrite Hprev. split; [done|lia].
Qed.

Lemma next_cycle_delta_witness :
  let releases := [Release "v1" "" "" [Asset "a.zip" 10 1; Asset "b.zip" 4 1];
                   Release "v2" "" "" [Asset "a.zip" 25 1]] in
  let csv' := (update_releases_csv None "2024-01-15" releases ∅).2 in
  delta_of (default [] csv') "v2" "a.zip" 31 = 31 - 25.
Proof.
  intros releases csv'.
  assert (NoDup (asset_key <$> cycle_assets releases)) as Hnd.
  { apply (bool_decide_unpack _). vm_compute. exact I. }
  assert (¬ has_date (None : csv_file release_row) "2024-01-15") as Hd.
  { intros (row & Hrow & _). by apply elem_of_nil in Hrow. }
  assert (("v2", Asset "a.zip" 25 1) ∈ cycle_assets releases) as Hin.
  { vm_compute. do 2 apply list_elem_of_further. apply list_elem_of_here. }
  exact (proj1 (proj2 (next_cycle_delta None "2024-01-15" releases "v2"
                         (Asset "a.zip" 25 1) Hnd Hd Hin)) 31).
Defined.

Lemma previous_data_after_update_witness :
  let csv := Some [ReleaseRow "2024-01-14" "v0" "old.zip" 1 7 0] in
  let releases := [Release "v1" "" "" [Asset "a.zip" 10 1]] in
  let csv' :=
    (update_releases_csv csv "2024-01-15" releases (get_previous_releases_data csv)).2 in
  get_previous_releases_data csv' !! "v0|old.zip" = Some 7
  ∧ get_previous_releases_data csv' !! "v1|a.zip" = Some 10.
Proof.
  intros csv releases csv'. subst csv'. split.
  - rewrite (previous_data_after_update csv "2024-01-15" releases "v0|old.zip");
      [reflexivity|].
    intros (row & Hrow & Hdate). simpl in Hrow.
    apply list_elem_of_singleton in Hrow as ->. discriminate Hdate.
  - rewrite (previous_data_after_update csv "2024-01-15" releases "v1|a.zip");
      [reflexivity|].
    intros (row & Hrow & Hdate). simpl in Hrow.
    apply list_elem_of_singleton in Hrow as ->. discriminate Hdate.
Defined.

(** ** Repeated appends *)

Lemma has_date_append `{Dated R} (csv : csv_file R) (rows : list R) date row :
  row ∈ rows → row_date row = date →
  has_date (Some (default [] csv ++ rows)) date.
Proof.
  intros Hin Hdate. exists row. split; [|done].
  apply elem_of_app. by right.
Qed.

Lemma append_aggregate_row_has_date csv date snap :
  has_date (append_aggregate_row csv date snap).2 date.
Proof.
  destruct (date_exists_in_csv csv date) eqn:Hd.
  - apply date_exists_in_csv_true in Hd.
    by rewrite (proj1 (append_aggregate_row_spec _ _ _) Hd).
  - apply date_exists_in_csv_false in Hd.
    rewrite (proj2 (append_aggregate_row_spec _ _ _) Hd). cbn [snd].
    eapply has_date_append; [apply list_elem_of_here|done].
Qed.

(** X7.  After [append_aggregate_row] the table has a row of the date,
    whether it was there or has just been written, so that a further call
    for that date, with any snapshot, reports [False] and changes nothing;
    and a table with at most one row per date stays so. *)
Theorem append_aggregate_row_one_per_date (csv : csv_file aggregate_row)
    (date : string) (snap : snapshot) :
  let csv1 := (append_aggregate_row csv date snap).2 in
  has_date csv1 date
  ∧ (∀ snap', append_aggregate_row csv1 date snap' = (false, csv1))
  ∧ (NoDup (ag_date <$> default [] csv) → NoDup (ag_date <$> default [] csv1)).
Proof.
  intros csv1.
  pose proof (append_aggregate_row_has_date csv date snap) as Hhas.
  split; [done|]. split.
  - intros snap'. by apply append_aggregate_row_spec.
  - intros Hnd. subst csv1. destruct (date_exists_in_csv csv date) eqn:Hd.
    + apply date_exists_in_csv_true in Hd.
      by rewrite (proj1 (append_aggregate_row_spec _ _ _) Hd).
    + apply date_exists_in_csv_false in Hd.
      rewrite (proj2 (append_aggregate_row_spec _ _ _) Hd).
      cbn [snd default from_option id]. rewrite fmap_app.
      apply NoDup_app. split; [done|]. split; [|apply NoDup_singleton].
      intros d Hin Hd'. simpl in Hd'. apply list_elem_of_singleton in Hd'.
      apply Hd. apply list_elem_of_fmap in Hin as (row & -> & Hrow).
      by exists row.
Qed.

Lemma append_aggregate_row_one_per_date_witness :
  let old := AggregateRow "2024-01-14" None None None None 1 2 3 4 5 6 7 in
  let snap := Snapshot "" (RepoInfo "o/r" 120 0 0 0 0) (Traffic None None [] [])
                [] [] None 0 0 [] (IssueCounts 0 0) [] in
  NoDup (ag_date <$> default []
           (append_aggregate_row (Some [old]) "2024-01-15" snap).2).
Proof.
  intros old snap.
  apply (proj2 (proj2 (append_aggregate_row_one_per_date
                         (Some [old]) "2024-01-15" snap))).
  apply (bool_decide_unpack _). vm_compute. exact I.
Defined.

Lemma release_rows_date date releases previous_data row :
  row ∈ release_rows date releases previous_data → rr_date row = date.
Proof.
  rewrite release_rows_cycle. by intros (p & -> & _)%list_elem_of_fmap.
Qed.

(** X8.  For the release-asset and the package table, a call that writes
    at least one row makes every further call for the date report [False];
    but a call with nothing to write (no asset in any release, no package
    figure) reports [True] and leaves no row of the date, so that it
    reports [True] again when repeated. *)
Theorem update_csv_repeated (date : string) :
  (∀ (csv : csv_file release_row) releases previous_data,
     ¬ has_date csv date →
     let rows := release_rows date releases previous_data in
     let csv1 := (update_releases_csv csv date releases previous_data).2 in
     (rows ≠ [] →
        ∀ releases' previous_data',
          update_releases_csv csv1 date releases' previous_data' = (false, csv1))
     ∧ (rows = [] →
        update_releases_csv csv date releases previous_data
        = (true, Some (default [] csv))
        ∧ update_releases_csv csv1 date releases previous_data = (true, csv1)))
  ∧ (∀ (csv : csv_file package_row) packages_data,
       ¬ has_date csv date →
       let csv1 := (update_packages_csv csv date packages_data).2 in
       (packages_data ≠ [] →
          ∀ packages_data',
            update_packages_csv csv1 date packages_data' = (false, csv1))
       ∧ (packages_data = [] →
          update_packages_csv csv date [] = (true, Some (default [] csv))
          ∧ update_packages_csv csv1 date [] = (true, csv1))).
Proof.
  split.
  - intros csv releases previous_data Hd rows csv1. subst csv1.
    rewrite (proj2 (update_releases_csv_spec _ _ _ _) Hd). cbn [snd].
    fold rows. split.
    + intros Hne releases' previous_data'. apply update_releases_csv_spec.
      destruct rows as [|row rows'] eqn:Hrows; [done|].
      eapply has_date_append; [apply list_elem_of_here|].
      apply (release_rows_date date releases previous_data).
      fold rows. rewrite Hrows. apply list_elem_of_here.
    + intros Hnil. rewrite Hnil, app_nil_r. split; [done|].
      assert (¬ has_date (Some (default [] csv)) date) as Hd'.
      { intros (row & Hrow & Hdate). apply Hd. by exists row. }
      rewrite (proj2 (update_releases_csv_spec _ _ _ _) Hd').
      fold rows. by rewrite Hnil, app_nil_r.
  - intros csv packages_data Hd csv1. subst csv1.
    rewrite (proj2 (update_packages_csv_spec _ _ _) Hd). cbn [snd]. split.
    + intros Hne packages_data'. apply update_packages_csv_spec.
      destruct packages_data as [|pkg packages_data]; [done|].
      eapply has_date_append; [apply list_elem_of_here|done].
    + intros ->. simpl. rewrite app_nil_r.
      rewrite (proj2 (update_packages_csv_spec _ _ _) Hd).
      simpl. rewrite app_nil_r. split; [done|].
      assert (¬ has_date (Some (default [] csv)) date) as Hd'.
      { intros (row & Hrow & Hdate). apply Hd. by exists row. }
      rewrite (proj2 (update_packages_csv_spec _ _ _) Hd').
      simpl. by rewrite app_nil_r.
Qed.

Lemma update_csv_repeated_witness :
  let releases := [Release "v1" "" "" []] in
  update_releases_csv None "2024-01-15" releases ∅ = (true, Some [])
  ∧ update_releases_csv (Some []) "2024-01-15" releases ∅ = (true, Some []).
Proof.
  intros releases.
  assert (¬ has_date (None : csv_file release_row) "2024-01-15") as Hd.
  { intros (row & Hrow & _). by apply elem_of_nil in Hrow. }
  exact (proj2 (proj1 (update_csv_repeated "2024-01-15") None releases ∅ Hd)
           eq_refl).
Defined.

(** ** Repository names *)

Lemma split_on_nonempty c s : split_on c s ≠ [].
Proof.
  destruct s as [|a s]; simpl; [done|].
  destruct (Ascii.eqb a c); [done|]. by destruct (split_on c s).
Qed.

Lemma split_on_one c s b :
  split_on c s = [b] → s = b ∧ ¬ has_char c b.
Proof.
  revert b. induction s as [|a s IH]; intros b; simpl.
  - intros [= <-]. split; [done|]. unfold has_char. simpl. by intros ?%elem_of_nil.
  - destruct (Ascii.eqb_spec a c) as [->|Hne].
    + intros [= _ Hnil]. by apply split_on_nonempty in Hnil.
    + destruct (split_on c s) as [|w ws] eqn:Hs; [by apply split_on_nonempty in Hs|].
      intros [= <- ->]. destruct (IH w eq_refl) as [-> Hw]. split; [done|].
      unfold has_char in *. simpl. intros [?|?]%elem_of_cons; [congruence|done].
Qed.

Lemma split_on_no_sep c s : ¬ has_char c s → split_on c s = [s].
Proof.
  unfold has_char. induction s as [|a s IH]; simpl; intros Hno; [done|].
  destruct (Ascii.eqb_spec a c) as [->|Hne].
  - exfalso. apply Hno. apply list_elem_of_here.
  - rewrite IH; [done|]. intros Hin. apply Hno. by apply list_elem_of_further.
Qed.

Lemma split_on_two c s a b :
  split_on c s = [a; b]
  ↔ s = a +:+ String c b ∧ ¬ has_char c a ∧ ¬ has_char c b.
Proof.
  split.
  - revert a. induction s as [|x s IH]; intros a; simpl; [done|].
    destruct (Ascii.eqb_spec x c) as [->|Hne].
    + intros [= <- Hb]. apply split_on_one in Hb as [-> Hb].
      split; [done|]. split; [|done]. unfold has_char. simpl.
      by intros ?%elem_of_nil.
    + destruct (split_on c s) as [|w ws] eqn:Hs; [done|].
      intros [= <- ->]. destruct (IH w eq_refl) as (-> & Hw & Hb).
      split; [done|]. split; [|done].
      unfold has_char in *. simpl. intros [?|?]%elem_of_cons; [congruence|done].
  - intros (-> & Ha & Hb). revert Ha. unfold has_char.
    induction a as [|x a IH]; simpl; intros Ha.
    + rewrite Ascii.eqb_refl. by rewrite split_on_no_sep.
    + destruct (Ascii.eqb_spec x c) as [->|Hne].
      * exfalso. apply Ha. apply list_elem_of_here.
      * rewrite IH; [done|]. intros Hin. apply Ha. by apply list_elem_of_further.
Qed.

(** X9.  A name that is not of the form [owner/repo] with a single ["/"]
    is rejected before anything is touched: [collect_repo] raises
    [ValueError], leaves the data directory as it is and prints nothing;
    and the loop of [main] catches it, reports the entry and goes on from
    the unchanged data directory without counting a success. *)
Theorem collect_repo_rejects_malformed (w : remote) (full_name date : string)
    (packages_config : option (gmap string (list string))) (fs : data_dir) :
  ¬ (∃ owner repo, owner_slash_repo full_name owner repo) →
  collect_repo w full_name date packages_config fs = (Raise ValueError, fs, [])
  ∧ (∀ entry,
       entry_names entry full_name packages_config →
       run_entry (collect_repo w) date entry fs
       = (Errored ValueError, fs, [ErrorCollecting entry ValueError])).
Proof.
  intros Hbad.
  assert (collect_repo w full_name date packages_config fs
          = (Raise ValueError, fs, [])) as Hraise.
  { unfold collect_repo.
    destruct (split_on "/" full_name) as [|owner [|repo [|x l]]] eqn:Hsplit;
      try done.
    exfalso. apply Hbad. exists owner, repo. by apply split_on_two. }
  split; [done|]. intros entry Hentry.
  rewrite (run_entry_named _ _ _ _ _ _ Hentry). by rewrite Hraise.
Qed.

Lemma collect_repo_rejects_malformed_witness :
  let w := Remote (λ _ _, None) (λ _ _, Traffic None None [] []) (λ _ _, [])
    (λ _ _, []) (λ _ _, None) (λ _ _, 0) (λ _ _, IssueCounts 0 0)
    (λ _ _ _, RequestException) (λ _ _, RequestException)
    (λ _ _ _, RequestException) 0 "" (λ _, "") no_io_fault in
  collect_repo w "a/b/c" "2024-01-15" None ∅ = (Raise ValueError, ∅, []).
Proof.
  intros w.
  apply (proj1 (collect_repo_rejects_malformed w "a/b/c" "2024-01-15" None ∅
                  ltac:(intros (owner & repo & Hname);
                        apply split_on_two in Hname; discriminate Hname))).
Defined.

(** ** What a pass writes *)

(** X10.  A pass never harms what is on disk: every repository directory
    that existed still exists, with each of its dated snapshots unchanged,
    with its aggregate, release-asset and package rows still there as the
    first rows of the table, and with none of its four tables removed,
    whether the pass returns or raises; and every directory other than
    the one that the name leads to is left exactly as it was. *)
Theorem collect_repo_preserves (w : remote) (full_name date : string)
    (packages_config : option (gmap string (list string))) (fs : data_dir)
    (key : list string) (dir : repo_dir) :
  let fs' := (collect_repo w full_name date packages_config fs).1.2 in
  fs !! key = Some dir →
  ∃ dir',
    fs' !! key = Some dir'
    ∧ (∀ d s, snapshots dir !! d = Some s → snapshots dir' !! d = Some s)
    ∧ default [] (aggregate_csv dir) `prefix_of` default [] (aggregate_csv dir')
    ∧ default [] (releases_csv dir) `prefix_of` default [] (releases_csv dir')
    ∧ default [] (packages_csv dir) `prefix_of` default [] (packages_csv dir')
    ∧ (is_Some (aggregate_csv dir) → is_Some (aggregate_csv dir'))
    ∧ (is_Some (releases_csv dir) → is_Some (releases_csv dir'))
    ∧ (is_Some (packages_csv dir) → is_Some (packages_csv dir'))
    ∧ (is_Some (star_history_csv dir) → is_Some (star_history_csv dir'))
    ∧ ((∀ owner repo, split_on "/" full_name = [owner; repo] →
          key ≠ repo_data_dir owner repo) → dir' = dir).
Proof.
  intros fs' Hkey. subst fs'.
  destruct (collect_repo_extends w full_name date packages_config fs key dir Hkey)
    as (dir' & Hlookup & Hext & Hframe).
  destruct Hext as (H1 & H2 & H3 & H4 & H5 & H6 & H7 & H8).
  exists dir'. repeat (split; [assumption|]). exact Hframe.
Qed.

Lemma collect_repo_preserves_witness :
  let w := Remote (λ _ _, Some (RepoInfo "o/r" 120 3 4 5 6))
    (λ _ _, Traffic None None [] []) (λ _ _, [])
    (λ _ _, []) (λ _ _, None) (λ _ _, 0) (λ _ _, IssueCounts 0 0)
    (λ _ _ _, RequestException)
    (λ _ _, RequestException) (λ _ _ _, RequestException)
    19737 "2024-01-15T06:00:00+00:00" (λ _, "2024-01-15") no_io_fault in
  let other := RepoDir ∅ (Some []) None None None in
  let fs : data_dir := {[["data"; "p"; "q"] := other]} in
  (collect_repo w "o/r" "2024-01-15" None fs).1.2 !! ["data"; "p"; "q"] = Some other.
Proof.
  intros w other fs.
  destruct (collect_repo_preserves w "o/r" "2024-01-15" None fs ["data"; "p"; "q"] other)
    as (dir' & Hlookup & _ & _ & _ & _ & _ & _ & _ & _ & Hsame).
  - reflexivity.
  - rewrite Hlookup. f_equal. apply Hsame.
    intros owner repo [= <- <-]. discriminate.
Defined.

(** X11.  A pass that does not return success leaves the files in one of
    two states.  Either it wrote no file: every directory that held
    something is as it was, and a directory that appears is empty; this is
    so whenever the pass returned [False].  Or the snapshot of the date
    was stored before the pass ended, and then every later pass for that
    name and date is skipped, whatever the remote source answers: the
    rows of the date that were not written are never written. *)
Theorem collect_repo_failure_states (w : remote) (full_name date : string)
    (packages_config : option (gmap string (list string))) (fs : data_dir) :
  let result := collect_repo w full_name date packages_config fs in
  let wrote_nothing :=
    ∀ key,
      (∀ dir, fs !! key = Some dir → result.1.2 !! key = Some dir)
      ∧ (fs !! key = None →
         result.1.2 !! key = None ∨ result.1.2 !! key = Some empty_repo_dir) in
  result.1.1 ≠ Return true →
  (wrote_nothing
   ∨ ∀ w' packages_config',
       collect_repo w' full_name date packages_config' result.1.2
       = (Return true, result.1.2, [AlreadyCollected date]))
  ∧ (result.1.1 = Return false → wrote_nothing).
Proof.
  intros result wrote_nothing Hfail. subst result wrote_nothing.
  destruct (collect_repo w full_name date packages_config fs)
    as [[r fs'] log] eqn:Hres. cbn [fst snd] in *.
  assert (∀ owner repo,
            fs' = <[repo_data_dir owner repo :=
                      default empty_repo_dir (fs !! repo_data_dir owner repo)]> fs →
            ∀ key,
              (∀ dir, fs !! key = Some dir → fs' !! key = Some dir)
              ∧ (fs !! key = None →
                 fs' !! key = None ∨ fs' !! key = Some empty_repo_dir)) as Hmade.
  { intros owner repo -> key.
    destruct (decide (key = repo_data_dir owner repo)) as [->|Hne].
    - rewrite lookup_insert_eq. split.
      + by intros dir ->.
      + intros ->. by right.
    - rewrite lookup_insert_ne by done. split; [done|]. by left. }
  destruct (collect_repo_outcome _ _ _ _ _ _ _ _ Hres)
    as [(_ & -> & _)|(owner & repo & Hsplit & Hcases)].
  { split; [left|intros _]; (split; [done|by left]). }
  cbv zeta in Hcases.
  destruct Hcases
    as [(_ & -> & _)|[_ [(Hfs & _)|(Hnone & snap & _ & _ & _ & _ & Hw)]]].
  { split; [left|intros _]; (split; [done|by left]). }
  { split; [left|intros _]; by apply (Hmade owner repo). }
  cbv zeta in Hw. destruct Hw as (Hfs & _ & Hr).
  destruct (write_tables_extends (io_fails w (repo_data_dir owner repo)) w date
              packages_config snap (snap_releases snap) (snap_packages snap)
              (snap_star_history snap) _ [] Hnone)
    as (_ & [[Hstate _]|[Hstored _]] & _).
  - rewrite Hstate in Hfs. cbn [fst] in Hfs.
    split; [left|intros _]; by apply (Hmade owner repo).
  - split.
    + right. intros w' packages_config'.
      apply (collect_repo_skip _ _ _ _ _ owner repo); [done|].
      eexists. rewrite Hfs, lookup_insert_eq. split; [done|].
      rewrite Hstored. by rewrite lookup_insert_eq.
    + intros ->. by destruct (write_tables _ _ _ _ _ _ _ _ _).
Qed.

Lemma collect_repo_failure_states_witness :
  let w := Remote (λ _ _, None)
    (λ _ _, Traffic None None [] []) (λ _ _, [])
    (λ _ _, []) (λ _ _, None) (λ _ _, 0) (λ _ _, IssueCounts 0 0)
    (λ _ _ _, RequestException)
    (λ _ _, RequestException) (λ _ _ _, RequestException)
    19737 "2024-01-15T06:00:00+00:00" (λ _, "2024-01-15") no_io_fault in
  let dir := RepoDir ∅ (Some []) None None None in
  let fs : data_dir := {[["data"; "o"; "r"] := dir]} in
  (collect_repo w "o/r" "2024-01-15" None fs).1.2 !! ["data"; "o"; "r"]
  = Some dir.
Proof.
  intros w dir fs.
  apply (proj2 (collect_repo_failure_states w "o/r" "2024-01-15" None fs
                  ltac:(discriminate)) eq_refl ["data"; "o"; "r"]).
  reflexivity.
Defined.

(** X12.  After a pass that collected (no snapshot of the date before,
    success returned) the files of the repository agree: the snapshot of
    the date is stored; the aggregate table has a row of the date, which
    is, when it was written in this pass, the projection of that
    snapshot; the release-asset rows written in this pass are those of
    the snapshot's releases, and their download counts add up to the
    total of the snapshot and of that aggregate row. *)
Theorem collect_repo_files_agree (w : remote) (full_name date : string)
    (packages_config : option (gmap string (list string)))
    (fs fs' : data_dir) (log : list event) (owner repo : string) :
  split_on "/" full_name = [owner; repo] →
  let dir := default empty_repo_dir (fs !! repo_data_dir owner repo) in
  snapshots dir !! date = None →
  collect_repo w full_name date packages_config fs = (Return true, fs', log) →
  ∃ dir' snap,
    fs' !! repo_data_dir owner repo = Some dir'
    ∧ snapshots dir' !! date = Some snap
    ∧ has_date (aggregate_csv dir') date
    ∧ (¬ has_date (aggregate_csv dir) date →
       aggregate_csv dir'
       = Some (default [] (aggregate_csv dir) ++ [aggregate_row_of date snap]))
    ∧ (¬ has_date (releases_csv dir) date →
       ∃ rows,
         releases_csv dir' = Some (default [] (releases_csv dir) ++ rows)
         ∧ rows = release_rows date (snap_releases snap)
                    (get_previous_releases_data (releases_csv dir))
         ∧ sum_Z (rr_download_count <$> rows) = snap_releases_downloads snap
         ∧ sum_Z (rr_download_count <$> rows)
           = ag_releases_downloads (aggregate_row_of date snap)).
Proof.
  intros Hsplit dir Hnone Hres.
  destruct (collect_repo_collected _ _ _ _ _ _ _ _ _ Hsplit Hnone Hres)
    as (snap & Hrel & Htotal & _ & ->).
  fold dir. eexists. exists snap. rewrite lookup_insert_eq. split; [done|].
  cbn [snapshots aggregate_csv releases_csv]. rewrite lookup_insert_eq.
  split; [done|]. split; [apply append_aggregate_row_has_date|]. split.
  - intros Hd. by rewrite (proj2 (append_aggregate_row_spec _ _ _) Hd).
  - intros Hd. rewrite (proj2 (update_releases_csv_spec _ _ _ _) Hd).
    eexists. split; [done|]. rewrite Hrel. split; [done|].
    cbn [ag_releases_downloads aggregate_row_of]. rewrite Htotal.
    split; symmetry; apply calculate_total_downloads_rows.
Qed.

Lemma collect_repo_files_agree_witness :
  let w := Remote (λ _ _, Some (RepoInfo "o/r" 120 3 4 5 6))
    (λ _ _, Traffic None None [] [])
    (λ _ _, [Release "v1" "" "" [Asset "a.zip" 10 1];
             Release "v2" "" "" [Asset "b.zip" 25 1]])
    (λ _ _, []) (λ _ _, None) (λ _ _, 0) (λ _ _, IssueCounts 0 0)
    (λ _ _ _, RequestException)
    (λ _ _, RequestException) (λ _ _ _, RequestException)
    19737 "2024-01-15T06:00:00+00:00" (λ _, "2024-01-15") no_io_fault in
  let result := collect_repo w "o/r" "2024-01-15" None ∅ in
  ∃ dir' snap,
    result.1.2 !! ["data"; "o"; "r"] = Some dir'
    ∧ snapshots dir' !! "2024-01-15" = Some snap
    ∧ has_date (aggregate_csv dir') "2024-01-15".
Proof.
  intros w result.
  destruct (collect_repo_files_agree w "o/r" "2024-01-15" None ∅
              result.1.2 result.2 "o" "r")
    as (dir' & snap & H1 & H2 & H3 & _); [reflexivity|reflexivity|reflexivity|].
  by exists dir', snap.
Defined.

(** A pass whose append to [aggregate.csv] fails: the snapshot and the
    header of the table are on disk, [OSError] is raised, and the next
    pass of the day is skipped. *)
Lemma collect_repo_fault_after_snapshot :
  let w := Remote (λ _ _, Some (RepoInfo "o/r" 120 3 4 5 6))
    (λ _ _, Traffic None None [] []) (λ _ _, [])
    (λ _ _, []) (λ _ _, None) (λ _ _, 0) (λ _ _, IssueCounts 0 0)
    (λ _ _ _, RequestException)
    (λ _ _, RequestException) (λ _ _ _, RequestException)
    19737 "2024-01-15T06:00:00+00:00" (λ _, "2024-01-15")
    (λ _ p, match p with WriteRows AggregateTable => true | _ => false end) in
  let first := collect_repo w "o/r" "2024-01-15" None ∅ in
  first.1.1 = Raise OSError
  ∧ first.2 = [SavedSnapshot "2024-01-15"]
  ∧ (aggregate_csv <$> first.1.2 !! ["data"; "o"; "r"]) = Some (Some [])
  ∧ collect_repo w "o/r" "2024-01-15" None first.1.2
    = (Return true, first.1.2, [AlreadyCollected "2024-01-15"]).
Proof.
  intros w first. split; [reflexivity|]. split; [reflexivity|].
  split; [vm_compute; reflexivity|].
  apply (collect_repo_skip _ _ _ _ _ "o" "r"); [reflexivity|].
  eexists. split; [vm_compute; reflexivity|]. vm_compute. by eexists.
Qed.



(** ** Bounds of the sampling engine *)

Lemma py_round_div_le a k n :
  (0 < k)%nat → (a ≤ n * k)%nat → (py_round_div a k ≤ n)%nat.
Proof.
  intros Hk Ha. pose proof (py_round_div_lower a k Hk). nia.
Qed.

Lemma py_round_div_exact p k : (0 < k)%nat → py_round_div (k * p) k = p.
Proof.
  intros Hk. unfold py_round_div.
  rewrite (Nat.mul_comm k p), Nat.div_mul, Nat.Div0.mod_mul by lia.
  simpl. destruct k; [lia|done].
Qed.

Lemma capped_page_count_le first : (capped_page_count first ≤ 400)%nat.
Proof.
  unfold capped_page_count. cbv zeta.
  destruct (Nat.ltb_spec 400 (default 1%nat (link_last first))); lia.
Qed.

Lemma sample_pages_range p k pages page :
  sample_pages p k = Some pages → page ∈ pages → (1 ≤ page ≤ p)%nat.
Proof.
  unfold sample_pages. destruct (Nat.leb_spec p k) as [Hle|Hlt].
  - intros [= <-] Hin%elem_of_seq. lia.
  - destruct k as [|k']; [done|].
    assert (∀ x, x ∈ ((λ i, Nat.max 1 (py_round_div (i * p) (S k')))
                        <$> seq 1 (S k')) → (1 ≤ x ≤ p)%nat) as Hall.
    { intros x (i & -> & Hi%elem_of_seq)%list_elem_of_fmap.
      pose proof (py_round_div_le (i * p) (S k') p ltac:(lia) ltac:(nia)). lia. }
    case_bool_decide as H1.
    + intros [= <-]. apply Hall.
    + cbn [seq fmap list_fmap] in *. intros [= <-] Hin.
      apply elem_of_cons in Hin as [->|Hin]; [lia|].
      apply Hall. by apply list_elem_of_further.
Qed.

Lemma sample_pages_length_le p k pages :
  sample_pages p k = Some pages → (length pages ≤ k)%nat.
Proof.
  unfold sample_pages. destruct (Nat.leb_spec p k) as [Hle|Hlt].
  - intros [= <-]. rewrite length_seq. lia.
  - case_bool_decide.
    + intros [= <-]. by rewrite length_fmap, length_seq.
    + destruct k; [done|]. cbn [seq fmap list_fmap]. intros [= <-].
      simpl. by rewrite length_fmap, length_seq.
Qed.

Lemma py_len_prefix n s : (py_len (py_prefix n s) ≤ n)%nat.
Proof.
  unfold py_len. revert n. induction s as [|a s IH]; intros n; [simpl; lia|].
  cbn [py_prefix]. destruct (utf8_continuation a) eqn:Ha.
  - cbn [String.list_ascii_of_string].
    rewrite filter_cons_False by (by rewrite Ha). apply IH.
  - destruct n as [|n]; [simpl; lia|].
    cbn [String.list_ascii_of_string].
    rewrite filter_cons_True by done. cbn [length]. specialize (IH n). lia.
Qed.

Lemma ascii_only_py_len s : ascii_only s → py_len s = String.length s.
Proof.
  unfold ascii_only, py_len. induction s as [|a s IH]; [done|].
  cbn [String.list_ascii_of_string forallb String.length].
  intros [Ha Hs]%andb_true_iff. apply Nat.ltb_lt in Ha.
  rewrite filter_cons_True.
  - cbn [length]. by rewrite IH.
  - unfold utf8_continuation. cbv zeta.
    apply andb_false_iff. left. apply Nat.leb_gt. lia.
Qed.

Lemma remove_first_length x l :
  x ∈ l → S (length (remove_first x l)) = length l.
Proof.
  induction l as [|y l IH]; [by intros ?%elem_of_nil|].
  simpl. case_bool_decide as Hy; [done|].
  intros [->|Hin]%elem_of_cons; [done|]. simpl. by rewrite IH.
Qed.

Lemma remove_first_subseteq x l y : y ∈ remove_first x l → y ∈ l.
Proof.
  induction l as [|z l IH]; [done|]. simpl. case_bool_decide.
  - by apply list_elem_of_further.
  - intros [->|Hin]%elem_of_cons; [apply list_elem_of_here|].
    apply list_elem_of_further. by apply IH.
Qed.

Lemma fetch_sample_pages_bounded get pages acc star_records (P : star_record → Prop) :
  fetch_sample_pages get pages acc = Some star_records →
  Forall P acc →
  (∀ page item, page ∈ pages → P (star_point item page)) →
  Forall P star_records
  ∧ (length star_records ≤ length acc + length pages)%nat.
Proof.
  revert acc. induction pages as [|page pages IH]; intros acc; simpl.
  - intros [= <-] Hacc _. split; [done|lia].
  - intros Hres Hacc Hpoints.
    assert (∀ page' item, page' ∈ pages → P (star_point item page')) as Hrest
      by (intros; apply Hpoints; by apply list_elem_of_further).
    destruct (get (Some page)) as [|status data]; [done|].
    case_bool_decide.
    { destruct (IH _ Hres Hacc Hrest). split; [done|lia]. }
    destruct (starred_at data) as [|item items].
    { destruct (IH _ Hres Hacc Hrest). split; [done|lia]. }
    destruct (IH _ Hres) as [H1 H2]; [|done|].
    + apply Forall_app. split; [done|]. constructor; [|done].
      apply Hpoints. apply list_elem_of_here.
    + split; [done|]. rewrite length_app in H2. simpl in H2. lia.
Qed.

(** A record that the engine can return within the 400-page cap. *)
Lemma collect_star_history_records w owner repo k star_records
    (P : star_record → Prop) :
  collect_star_history w owner repo k = Return star_records →
  (∀ page item, (1 ≤ page ≤ 400)%nat → P (star_point item page)) →
  Forall P star_records ∧ (length star_records ≤ k)%nat.
Proof.
  unfold collect_star_history. intros Hres HP.
  destruct (get_stargazers w owner repo None) as [|status first];
    [injection Hres as <-; split; [done|simpl; lia]|].
  revert Hres. case_bool_decide;
    [intros [= <-]; split; [done|simpl; lia]|].
  destruct (sample_pages (capped_page_count first) k) as [pages|] eqn:Hpages;
    [|done].
  pose proof (capped_page_count_le first) as Hcap.
  pose proof (sample_pages_length_le _ _ _ Hpages) as Hlen.
  assert (∀ page item, page ∈ pages → P (star_point item page)) as Hall.
  { intros page item Hin. apply HP.
    pose proof (sample_pages_range _ _ _ _ Hpages Hin). lia. }
  assert (∀ acc pages' recs,
            fetch_sample_pages (get_stargazers w owner repo) pages' acc = Some recs →
            Forall P acc → (∀ page, page ∈ pages' → page ∈ pages) →
            (length acc + length pages' ≤ k)%nat →
            Forall P (sort_by_key sr_date recs)
            ∧ (length (sort_by_key sr_date recs) ≤ k)%nat) as Hfetch.
  { intros acc pages' recs Hf Hacc Hsub Hk.
    destruct (fetch_sample_pages_bounded _ _ _ _ P Hf Hacc) as [H1 H2].
    { intros page item Hin. apply Hall. by apply Hsub. }
    rewrite sort_by_key_length. split; [|lia].
    by rewrite sort_by_key_Permutation. }
  destruct (starred_at first) as [|item items].
  - destruct (fetch_sample_pages _ pages []) as [recs|] eqn:Hf;
      intros [= <-]; [|split; [done|simpl; lia]].
    eapply Hfetch; [done|done|done|simpl; lia].
  - case_bool_decide as H1.
    + destruct (fetch_sample_pages _ (remove_first 1 pages) _) as [recs|] eqn:Hf;
        intros [= <-]; [|split; [done|simpl; lia]].
      eapply Hfetch; [done| | |].
      * constructor; [|done]. by apply Hall.
      * intros page. apply remove_first_subseteq.
      * pose proof (remove_first_length _ _ H1). simpl. lia.
    + destruct (fetch_sample_pages _ pages []) as [recs|] eqn:Hf;
        intros [= <-]; [|split; [done|simpl; lia]].
      eapply Hfetch; [done|done|done|simpl; lia].
Qed.

(** X13.  Whatever the remote source answers, the engine returns at most
    [sample_count] points; each carries the approximate count
    [(page - 1) * 100 + 1] of a page between 1 and 400, hence a count
    between 1 and 39901, and a date of at most 10 characters; and the
    points are in non-decreasing date order. *)
Theorem collect_star_history_bounded (w : remote) (owner repo : string)
    (k : nat) (star_records : list star_record) :
  collect_star_history w owner repo k = Return star_records →
  (length star_records ≤ k)%nat
  ∧ (∀ r, r ∈ star_records →
       (∃ page, (1 ≤ page ≤ 400)%nat ∧ sr_stars r = stars_of_page page)
       ∧ 1 ≤ sr_stars r ≤ 39901
       ∧ (py_len (sr_date r) ≤ 10)%nat)
  ∧ Sorted (by_key sr_date) star_records.
Proof.
  intros Hres.
  destruct (collect_star_history_records w owner repo k star_records
              (λ r, (∃ page, (1 ≤ page ≤ 400)%nat ∧ sr_stars r = stars_of_page page)
                    ∧ 1 ≤ sr_stars r ≤ 39901
                    ∧ (py_len (sr_date r) ≤ 10)%nat) Hres) as [Hall Hlen].
  { intros page item Hpage. unfold star_point. cbn [sr_stars sr_date].
    split; [by exists page|]. split; [lia|]. apply py_len_prefix. }
  split; [done|]. split; [by apply Forall_forall|].
  revert Hres. unfold collect_star_history.
  destruct (get_stargazers w owner repo None) as [|status first];
    [intros [= <-]; constructor|].
  case_bool_decide; [intros [= <-]; constructor|].
  destruct (sample_pages _ _); [|done].
  destruct (starred_at first); [|case_bool_decide];
    match goal with
    | |- context [fetch_sample_pages ?g ?p ?a] =>
        destruct (fetch_sample_pages g p a)
    end; intros [= <-]; (apply sort_by_key_Sorted || constructor).
Qed.

Lemma collect_star_history_bounded_witness :
  let w := Remote (λ _ _, None) (λ _ _, Traffic None None [] []) (λ _ _, [])
    (λ _ _, []) (λ _ _, None) (λ _ _, 0) (λ _ _, IssueCounts 0 0)
    (λ _ _ page,
       match page with
       | None => Response 200 (StarPage ["2019-03-02T10:00:00Z"] (Some 900%nat))
       | Some _ => Response 200 (StarPage ["2021-07-09T08:30:00Z"] None)
       end)
    (λ _ _, RequestException) (λ _ _ _, RequestException) 0 "" (λ _, "") no_io_fault in
  ∃ star_records,
    collect_star_history w "o" "r" 3 = Return star_records
    ∧ (length star_records ≤ 3)%nat.
Proof.
  intros w. eexists. split; [reflexivity|].
  eapply (proj1 (collect_star_history_bounded w "o" "r" 3 _ _)).
  Unshelve. reflexivity.
Defined.

(** X14.  With at least two samples, page 1 and the last page of the
    (capped) feed are both in the sample set, whatever the page count;
    with a single sample only page 1 is. *)
Theorem sample_pages_ends (p k : nat) (pages : list nat) :
  (1 ≤ p)%nat →
  sample_pages p k = Some pages →
  ((2 ≤ k)%nat → 1%nat ∈ pages ∧ p ∈ pages)
  ∧ (k = 1%nat → pages = [1%nat]).
Proof.
  intros Hp Hpages. split.
  - intros Hk. rewrite sample_pages_sampled in Hpages by lia.
    injection Hpages as <-.
    destruct (sampled_pages_head p k ltac:(lia) Hp) as (rest & Heq & _).
    split; [rewrite Heq; apply list_elem_of_here|].
    unfold sampled_pages, placed_tail. destruct (Nat.leb_spec p k).
    + apply elem_of_seq. lia.
    + apply list_elem_of_further. apply list_elem_of_fmap.
      exists k. split; [by rewrite py_round_div_exact by lia|].
      apply elem_of_seq. lia.
  - intros ->. rewrite sample_pages_sampled in Hpages by lia.
    injection Hpages as <-. unfold sampled_pages, placed_tail.
    destruct (Nat.leb_spec p 1); [|done].
    by assert (p = 1%nat) as -> by lia.
Qed.

Lemma sample_pages_ends_witness :
  1%nat ∈ [1; 53; 80; 107; 133; 160; 187; 213; 240; 267; 293; 320; 347; 373; 400]%nat
  ∧ 400%nat ∈ [1; 53; 80; 107; 133; 160; 187; 213; 240; 267; 293; 320; 347; 373; 400]%nat.
Proof.
  apply (proj1 (sample_pages_ends 400 15 _ ltac:(lia) eq_refl)). lia.
Defined.

(** ** Size of the star history file *)

Lemma length_list_ascii_of_string s :
  length (String.list_ascii_of_string s) = String.length s.
Proof. induction s as [|a s IH]; simpl; [done|]. by rewrite IH. Qed.

Lemma csv_field_size_le s : (csv_field_size s ≤ 2 * String.length s + 2)%nat.
Proof.
  unfold csv_field_size. cbv zeta. rewrite <- length_list_ascii_of_string.
  destruct (existsb _ _); [|lia].
  pose proof (length_filter (λ a, a = dquote) (String.list_ascii_of_string s)).
  lia.
Qed.

Lemma csv_field_size_stars page :
  (1 ≤ page ≤ 400)%nat → (csv_field_size (pretty (stars_of_page page)) ≤ 5)%nat.
Proof.
  intros Hpage.
  assert (forallb (λ page, csv_field_size (pretty (stars_of_page page)) <=? 5)%nat
            (seq 1 400) = true) as Hall by (vm_compute; reflexivity).
  rewrite forallb_forall in Hall.
  apply Nat.leb_le, Hall, list_elem_of_In, elem_of_seq. lia.
Qed.

Lemma star_history_st_size_le (rows : list star_record) :
  Forall (λ r, (csv_line_size [sr_date r; pretty (sr_stars r)] ≤ 30)%nat) rows →
  (star_history_st_size rows ≤ 12 + 30 * length rows)%nat.
Proof.
  unfold star_history_st_size.
  assert (csv_line_size ["date"; "stars"] = 12%nat) as -> by reflexivity.
  induction 1 as [|r rows Hr Hrows IH]; [simpl; lia|].
  rewrite fmap_cons. cbn [foldr length]. lia.
Qed.

(** X15.  With the sample count 15 that [collect_repo] uses, and dates
    that are ASCII (as the first ten characters of an ISO 8601 timestamp
    are), the table made of the points the engine returns is shorter than
    500 bytes; so a star history file written by a pass is replaced by the
    next pass that has a point to write. *)
Theorem star_history_file_stays_small (w : remote) (owner repo : string)
    (star_records : list star_record) :
  collect_star_history w owner repo 15 = Return star_records →
  (∀ r, r ∈ star_records → ascii_only (sr_date r)) →
  (star_history_st_size star_records < 500)%nat
  ∧ (∀ r rs, update_star_history_csv (r :: rs) (Some star_records)
             = (Some (r :: rs), [Updated StarHistoryTable])).
Proof.
  intros Hres Hascii.
  destruct (collect_star_history_records w owner repo 15 star_records
              (λ r, (py_len (sr_date r) ≤ 10)%nat
                    ∧ (csv_field_size (pretty (sr_stars r)) ≤ 5)%nat)
              Hres) as [Hall Hlen].
  { intros page item Hpage. unfold star_point. cbn [sr_stars sr_date].
    fold (stars_of_page page).
    split; [apply py_len_prefix|by apply csv_field_size_stars]. }
  assert (Forall (λ r, (csv_line_size [sr_date r; pretty (sr_stars r)] ≤ 30)%nat)
            star_records) as Hlines.
  { apply Forall_forall. intros r Hr.
    rewrite Forall_forall in Hall. destruct (Hall r Hr) as [Hdate Hstars].
    rewrite (ascii_only_py_len _ (Hascii r Hr)) in Hdate.
    unfold csv_line_size. cbn [fmap list_fmap foldr length].
    pose proof (csv_field_size_le (sr_date r)). lia. }
  pose proof (star_history_st_size_le star_records Hlines) as Hsize.
  assert (star_history_st_size star_records < 500)%nat as Hsmall by lia.
  split; [done|]. intros r rs. unfold update_star_history_csv.
  by rewrite bool_decide_eq_true_2.
Qed.

Lemma star_history_file_stays_small_witness :
  let w := Remote (λ _ _, None) (λ _ _, Traffic None None [] []) (λ _ _, [])
    (λ _ _, []) (λ _ _, None) (λ _ _, 0) (λ _ _, IssueCounts 0 0)
    (λ _ _ page,
       match page with
       | None => Response 200 (StarPage ["2019-03-02T10:00:00Z"] (Some 900%nat))
       | Some _ => Response 200 (StarPage ["2021-07-09T08:30:00Z"] None)
       end)
    (λ _ _, RequestException) (λ _ _ _, RequestException) 0 "" (λ _, "")
    no_io_fault in
  ∃ star_records,
    collect_star_history w "o" "r" 15 = Return star_records
    ∧ (star_history_st_size star_records < 500)%nat.
Proof.
  intros w. eexists. split; [reflexivity|].
  eapply (proj1 (star_history_file_stays_small w "o" "r" _ eq_refl _)).
  Unshelve.
  apply Forall_forall. vm_compute. repeat constructor.
Defined.

(** ** The sort keeps what is in order *)

Lemma leb_true_ltb_false (a b : string) :
  String.leb a b = true → String.ltb b a = false.
Proof.
  unfold String.ltb, String.leb, by_key, date_le.
  rewrite (String.compare_antisym b a).
  destruct (String.compare a b); simpl; congruence.
Qed.

Lemma ltb_true_neq (a b : string) : String.ltb a b = true → a ≠ b.
Proof.
  unfold String.ltb. intros Hlt ->.
  pose proof (String.compare_antisym b b) as Hanti.
  destruct (String.compare b b); done.
Qed.

Lemma insert_by_key_sorted_head {A} (key : A → string) (x : A) (l : list A) :
  HdRel (by_key key) x l → insert_by_key key x l = x :: l.
Proof.
  destruct 1 as [|y l Hxy]; simpl; [done|].
  by rewrite (leb_true_ltb_false _ _ Hxy).
Qed.

Lemma sort_by_key_sorted {A} (key : A → string) (l : list A) :
  Sorted (by_key key) l → sort_by_key key l = l.
Proof.
  induction 1 as [|x l Hl IH Hx]; [done|].
  simpl. rewrite IH. by apply insert_by_key_sorted_head.
Qed.

Lemma insert_by_key_filter {A} (key : A → string) (k : string) (x : A) (l : list A) :
  filter (λ a, key a = k) (insert_by_key key x l)
  = filter (λ a, key a = k) (x :: l).
Proof.
  induction l as [|y l IH]; simpl; [done|].
  destruct (String.ltb (key y) (key x)) eqn:Hlt; [|done].
  apply ltb_true_neq in Hlt.
  rewrite (filter_cons _ y), IH, !filter_cons.
  destruct (decide (key y = k)) as [Hy|Hy], (decide (key x = k)) as [Hx|Hx];
    try done.
  congruence.
Qed.

(** X16.  The sort by date is stable and leaves a sequence that is in
    order as it is: the records of any one date come out in the order
    they went in, and a sequence already in non-decreasing date order is
    returned unchanged (so sorting twice is sorting once). *)
Theorem sort_by_key_stable {A} (key : A → string) (l : list A) :
  (∀ k, filter (λ a, key a = k) (sort_by_key key l) = filter (λ a, key a = k) l)
  ∧ (Sorted (by_key key) l → sort_by_key key l = l)
  ∧ sort_by_key key (sort_by_key key l) = sort_by_key key l.
Proof.
  split; [|split].
  - intros k. induction l as [|x l IH]; [done|].
    simpl. rewrite insert_by_key_filter, !filter_cons, IH. done.
  - apply sort_by_key_sorted.
  - apply sort_by_key_sorted, sort_by_key_Sorted.
Qed.

Lemma sort_by_key_stable_witness :
  sort_by_key sr_date [StarRecord "2020-01-01" 1; StarRecord "2020-01-01" 101;
                       StarRecord "2020-03-01" 201]
  = [StarRecord "2020-01-01" 1; StarRecord "2020-01-01" 101;
     StarRecord "2020-03-01" 201].
Proof.
  apply (proj1 (proj2 (sort_by_key_stable sr_date _))).
  repeat constructor.
Defined.

(** ** The rolling window slides *)

Lemma sum_between_same_lo (f : nat → Z) lo hi :
  (lo ≤ S hi)%nat →
  sum_between f lo (S hi) = sum_between f lo hi + f (S hi).
Proof.
  intros Hle. unfold sum_between.
  replace (S (S hi) - lo)%nat with (S (S hi - lo)) by lia.
  rewrite seq_S, fmap_app, sum_Z_app.
  replace (lo + (S hi - lo))%nat with (S hi) by lia.
  unfold sum_Z. simpl. lia.
Qed.

Lemma sum_between_shift (f : nat → Z) lo hi :
  (lo ≤ hi)%nat →
  sum_between f (S lo) (S hi) = sum_between f lo hi + f (S hi) - f lo.
Proof.
  intros Hle. rewrite <- (Z.add_simpl_r (sum_between f (S lo) (S hi)) (f lo)).
  f_equal. rewrite <- sum_between_same_lo by lia.
  unfold sum_between.
  replace (S (S hi) - lo)%nat with (S (S (S hi) - S lo)) by lia.
  cbn [seq fmap list_fmap]. unfold sum_Z. cbn [foldr]. lia.
Qed.

(** X17.  The weekly values of a batch slide along the daily ones: the
    first record's weekly value is its daily count, and each next record's
    is the previous weekly value plus its own daily count, minus, from
    the eighth record on, the daily count that leaves the window. *)
Theorem rolling_weekly_slides (records : list history_record) :
  let batch := rolling_weekly records in
  (∀ r, batch !! 0%nat = Some r → hr_weekly_downloads r = hr_daily_downloads r)
  ∧ (∀ n r r',
       batch !! n = Some r → batch !! S n = Some r' →
       hr_weekly_downloads r'
       = hr_weekly_downloads r + hr_daily_downloads r'
         - (if (6 <=? n)%nat
            then default 0 (hr_daily_downloads <$> batch !! (n - 6)%nat)
            else 0)).
Proof.
  intros batch. subst batch.
  set (f := λ j, default 0 (hr_daily_downloads <$> records !! j)).
  assert (∀ n r, rolling_weekly records !! n = Some r →
            hr_weekly_downloads r = sum_between f (Nat.max 0 (n - 6)) n
            ∧ hr_daily_downloads r = f n) as Hrec.
  { intros n r Hn.
    destruct (rolling_weekly_lookup _ _ _ Hn) as (r0 & Hr0 & ->).
    cbn [hr_weekly_downloads hr_daily_downloads set_weekly].
    rewrite weekly_of_sum_between by (by eapply lookup_lt_Some).
    split; [done|]. unfold f. by rewrite Hr0. }
  assert (∀ j, default 0 (hr_daily_downloads <$> rolling_weekly records !! j) = f j)
    as Hdaily.
  { intros j. unfold f. rewrite rolling_weekly_rolled.
    by rewrite <- !list_lookup_fmap, rolled_upto_daily. }
  split.
  - intros r Hr. destruct (Hrec _ _ Hr) as [-> ->].
    unfold sum_between. simpl. unfold sum_Z. simpl. lia.
  - intros n r r' Hr Hr'.
    destruct (Hrec _ _ Hr) as [-> _], (Hrec _ _ Hr') as [-> ->].
    rewrite Hdaily.
    destruct (Nat.leb_spec 6 n) as [Hge|Hlt].
    + replace (Nat.max 0 (S n - 6)) with (S (n - 6)) by lia.
      replace (Nat.max 0 (n - 6)) with (n - 6)%nat by lia.
      rewrite sum_between_shift by lia. lia.
    + replace (Nat.max 0 (S n - 6)) with 0%nat by lia.
      replace (Nat.max 0 (n - 6)) with 0%nat by lia.
      rewrite sum_between_same_lo by lia. lia.
Qed.

Lemma rolling_weekly_slides_witness :
  let records :=
    (λ d, HistoryRecord "2024-01-01" "pkg" "npm" d 0) <$> [1; 2; 3; 4; 5; 6; 7; 8] in
  hr_weekly_downloads <$> rolling_weekly records !! 7%nat = Some (28 + 8 - 1).
Proof.
  intros records.
  exact (f_equal Some
           (proj2 (rolling_weekly_slides records) 6%nat
              (HistoryRecord "2024-01-01" "pkg" "npm" 7 28)
              (HistoryRecord "2024-01-01" "pkg" "npm" 8 35)
              eq_refl eq_refl)).
Defined.

(** ** The backfill settles *)

Lemma distinct_dates_prefix (csv csv' : csv_file package_row) :
  default [] csv `prefix_of` default [] csv' →
  (distinct_dates csv ≤ distinct_dates csv')%nat.
Proof.
  intros [rows Hrows]. unfold distinct_dates.
  rewrite <- !size_list_to_set_dups. apply subseteq_size.
  intros d. rewrite !elem_of_list_to_set, Hrows, fmap_app, elem_of_app. auto.
Qed.

Lemma backfill_packages_settled w cfg csv :
  (30 ≤ distinct_dates csv)%nat → backfill_packages w cfg csv = (csv, []).
Proof.
  intros Hfull. rewrite backfill_packages_spec. unfold backfill_rows.
  by rewrite bool_decide_eq_false_2 by lia.
Qed.

(** X18.  The backfill runs until the package table has 30 dates and then
    no more: a pass never lowers the number of distinct dates of the
    table, and on a table that has 30 or more dates it sends no range
    request and prints no backfill notice, so that the only rows it can
    add are the rows of the day. *)
Theorem backfill_settles (w : remote) (cfg : gmap string (list string))
    (date : string) (packages_data : list package_stats)
    (csv : csv_file package_row) :
  let result := update_packages_section w cfg date packages_data csv in
  (distinct_dates csv ≤ distinct_dates result.1)%nat
  ∧ ((30 ≤ distinct_dates csv)%nat →
     (∀ ev, ev ∈ result.2 → ¬ backfill_event ev)
     ∧ ∃ rows, default [] result.1 = default [] csv ++ rows
               ∧ ∀ row, row ∈ rows → pr_date row = date).
Proof.
  intros result. subst result. split.
  - apply distinct_dates_prefix, update_packages_section_prefix.
  - intros Hfull. unfold update_packages_section.
    rewrite (backfill_packages_settled w cfg csv Hfull).
    destruct packages_data as [|pkg packages_data].
    { cbn [fst snd]. split; [intros ev Hev; by apply elem_of_nil in Hev|].
      exists []. rewrite app_nil_r. split; [done|].
        intros row Hrow. by apply elem_of_nil in Hrow. }
    destruct (date_exists_in_csv csv date) eqn:Hd.
    + apply date_exists_in_csv_true in Hd.
      rewrite (proj1 (update_packages_csv_spec _ _ _) Hd). cbn [fst snd app].
      split.
      * intros ev ->%list_elem_of_singleton. simpl. tauto.
      * exists []. rewrite app_nil_r. split; [done|].
        intros row Hrow. by apply elem_of_nil in Hrow.
    + apply date_exists_in_csv_false in Hd.
      rewrite (proj2 (update_packages_csv_spec _ _ _) Hd). cbn [fst snd app].
      split.
      * intros ev ->%list_elem_of_singleton. simpl. tauto.
      * eexists. split; [done|].
        intros row (pkg' & -> & _)%list_elem_of_fmap. done.
Qed.

Lemma backfill_settles_witness :
  let w := Remote (λ _ _, None)
    (λ _ _, Traffic None None [] []) (λ _ _, [])
    (λ _ _, []) (λ _ _, None) (λ _ _, 0) (λ _ _, IssueCounts 0 0)
    (λ _ _ _, RequestException)
    (λ _ _, Response 200 (Some 5))
    (λ _ _ _, Response 200 [("2023-12-01", 4)])
    19737 "2024-01-15T06:00:00+00:00" (λ _, "2024-01-15") no_io_fault in
  let csv : csv_file package_row :=
    Some ((λ n, PackageRow (String (ascii_of_nat n) "") "npm" "pkg" 1 7)
            <$> seq 65 30) in
  Forall (λ ev, ¬ backfill_event ev)
    (update_packages_section w {["npm" := ["pkg"]]} "2024-01-15"
       [PackageStats "pkg" "npm" 5 5] csv).2.
Proof.
  intros w csv. apply Forall_forall.
  apply (proj2 (backfill_settles w {["npm" := ["pkg"]]} "2024-01-15"
                  [PackageStats "pkg" "npm" 5 5] csv)).
  vm_compute. lia.
Defined.

(** ** A daily count survives the failure of the weekly request *)

(** X19.  When the daily request is answered with status 200 and the
    weekly request raises or is answered with another status, the daily
    count read is kept with a weekly count of 0; and a configured package
    with such a positive daily count is reported. *)
Theorem collect_npm_downloads_keeps_daily (w : remote)
    (cfg : gmap string (list string)) (package_name date : string) (daily : Z) :
  get_npm_point w date package_name = Response 200 (Some daily) →
  lookup_failed (get_npm_point w "last-week" package_name) →
  collect_npm_downloads w package_name date
  = PackageStats package_name "npm" daily 0
  ∧ (package_name ∈ npm_packages cfg → daily > 0 →
     PackageStats package_name "npm" daily 0
     ∈ collect_package_downloads w cfg date).
Proof.
  intros Hdaily Hweekly.
  assert (collect_npm_downloads w package_name date
          = PackageStats package_name "npm" daily 0) as Hstats.
  { unfold collect_npm_downloads. rewrite Hdaily. cbv zeta.
    rewrite bool_decide_eq_true_2 by done. unfold lookup_failed in Hweekly.
    destruct (get_npm_point w "last-week" package_name) as [|status data];
      [done|].
    by rewrite bool_decide_eq_false_2. }
  split; [done|]. intros Hin Hpos.
  rewrite collect_package_downloads_filter. apply list_elem_of_filter.
  split; [simpl; lia|].
  apply list_elem_of_fmap. exists package_name. by rewrite Hstats.
Qed.

Lemma collect_npm_downloads_keeps_daily_witness :
  let w := Remote (λ _ _, None)
    (λ _ _, Traffic None None [] []) (λ _ _, [])
    (λ _ _, []) (λ _ _, None) (λ _ _, 0) (λ _ _, IssueCounts 0 0)
    (λ _ _ _, RequestException)
    (λ period _, if bool_decide (period = "last-week") then Response 503 None
                 else Response 200 (Some 12))
    (λ _ _ _, RequestException)
    19737 "2024-01-15T06:00:00+00:00" (λ _, "2024-01-15") no_io_fault in
  collect_package_downloads w {["npm" := ["pkg"]]} "2024-01-14"
  = [PackageStats "pkg" "npm" 12 0].
Proof.
  intros w.
  destruct (collect_npm_downloads_keeps_daily w {["npm" := ["pkg"]]}
              "pkg" "2024-01-14" 12) as [Hstats _].
  - reflexivity.
  - vm_compute. discriminate.
  - rewrite collect_package_downloads_filter.
    change (npm_packages {["npm" := ["pkg"]]}) with ["pkg"].
    rewrite fmap_cons, Hstats. reflexivity.
Defined.

(** ** A whole run keeps what is on disk *)

Lemma run_entry_extends (w : remote) (today : string) (entry : repo_entry)
    (fs : data_dir) (key : list string) (dir : repo_dir) :
  fs !! key = Some dir →
  ∃ dir',
    (run_entry (collect_repo w) today entry fs).1.2 !! key = Some dir'
    ∧ dir_extends dir dir'
    ∧ ((∀ name owner repo, entry_name entry = Some name →
          split_on "/" name = [owner; repo] → key ≠ repo_data_dir owner repo) →
       dir' = dir).
Proof.
  intros Hkey.
  assert (∃ dir', fs !! key = Some dir' ∧ dir_extends dir dir'
                  ∧ ((∀ name owner repo, entry_name entry = Some name →
                        split_on "/" name = [owner; repo] → key ≠ repo_data_dir owner repo) →
                     dir' = dir)) as Hsame.
  { exists dir. split; [done|]. split; [apply dir_extends_refl|done]. }
  assert (∀ name packages_config,
            entry_name entry = Some name →
            ∃ dir',
              (match collect_repo w name today packages_config fs with
               | (Return true, fs', log) => (Succeeded, fs', log)
               | (Return false, fs', log) => (Failed, fs', log)
               | (Raise e, fs', log) =>
                   (Errored e, fs', log ++ [ErrorCollecting entry e])
               end).1.2 !! key = Some dir'
              ∧ dir_extends dir dir'
              ∧ ((∀ name owner repo, entry_name entry = Some name →
                    split_on "/" name = [owner; repo] → key ≠ repo_data_dir owner repo) →
                 dir' = dir)) as Hcollect.
  { intros name packages_config Hname.
    destruct (collect_repo_extends w name today packages_config fs key dir Hkey)
      as (dir' & Hlookup & Hext & Hframe).
    exists dir'. split; [|split; [done|]].
    - by destruct (collect_repo w name today packages_config fs)
        as [[[[|]|e] fs'] log].
    - intros Hother. apply Hframe. intros owner repo. by apply Hother. }
  destruct entry as [name|[name|] packages|]; cbn [run_entry]; cbv zeta beta iota;
    try done.
  - case_bool_decide; [done|]. by apply Hcollect.
  - case_bool_decide; [done|]. by apply Hcollect.
Qed.

Lemma run_entries_extends (w : remote) (today : string)
    (entries : list repo_entry) (fs : data_dir)
    (key : list string) (dir : repo_dir) :
  fs !! key = Some dir →
  ∃ dir',
    (run_entries (collect_repo w) today entries fs).2 !! key = Some dir'
    ∧ dir_extends dir dir'
    ∧ ((∀ entry name owner repo, entry ∈ entries →
          entry_name entry = Some name →
          split_on "/" name = [owner; repo] → key ≠ repo_data_dir owner repo) →
       dir' = dir).
Proof.
  revert fs dir. induction entries as [|entry rest IH]; intros fs dir Hkey.
  - exists dir. split; [done|]. split; [apply dir_extends_refl|done].
  - destruct (run_entry_extends w today entry fs key dir Hkey)
      as (dir1 & Hlookup1 & Hext1 & Hframe1).
    cbn [run_entries].
    destruct (run_entry (collect_repo w) today entry fs) as [[outcome fs1] log1].
    cbn [fst snd] in Hlookup1.
    destruct (IH fs1 dir1 Hlookup1) as (dir2 & Hlookup2 & Hext2 & Hframe2).
    destruct (run_entries (collect_repo w) today rest fs1) as [results fs2].
    cbn [fst snd] in *.
    exists dir2. split; [done|]. split; [by eapply dir_extends_trans|].
    intros Hother. rewrite Hframe2, Hframe1; [done|..].
    + intros name owner repo. apply Hother, list_elem_of_here.
    + intros entry' name owner repo Hin.
      by apply Hother, list_elem_of_further.
Qed.

(** X20.  A whole run keeps what is on disk: whatever the configuration
    and whatever the remote source answers, every repository directory
    that existed before [main] still exists after it, with its snapshots
    unchanged, its aggregate, release-asset and package rows still the
    first rows of their tables and none of its tables removed; and a
    directory that no name of the configuration leads to is exactly as it
    was. *)
Theorem main_preserves (w : remote) (config_file : option config)
    (fs : data_dir) (key : list string) (dir : repo_dir) :
  fs !! key = Some dir →
  ∃ dir',
    (main w config_file fs).1.2 !! key = Some dir'
    ∧ dir_extends dir dir'
    ∧ ((∀ entry name owner repo,
          entry ∈ default [] (config_file ≫= cfg_repos) →
          entry_name entry = Some name →
          split_on "/" name = [owner; repo] → key ≠ repo_data_dir owner repo) →
       dir' = dir).
Proof.
  intros Hkey. unfold main, main_with.
  destruct config_file as [[repos]|]; cbn [mbind option_bind cfg_repos default];
    [|exists dir; split; [done|]; split; [apply dir_extends_refl|done]].
  destruct (default [] repos) as [|entry rest] eqn:Hrepos;
    [exists dir; split; [done|]; split; [apply dir_extends_refl|done]|].
  rewrite main_loop_spec. cbn [fst snd].
  apply run_entries_extends. done.
Qed.

Lemma main_preserves_witness :
  let w := Remote (λ _ _, Some (RepoInfo "o/r" 120 3 4 5 6))
    (λ _ _, Traffic None None [] []) (λ _ _, [])
    (λ _ _, []) (λ _ _, None) (λ _ _, 0) (λ _ _, IssueCounts 0 0)
    (λ _ _ _, RequestException)
    (λ _ _, RequestException) (λ _ _ _, RequestException)
    19737 "2024-01-15T06:00:00+00:00" (λ _, "2024-01-15") no_io_fault in
  let other := RepoDir ∅ (Some []) None None None in
  let fs : data_dir := {[["data"; "p"; "q"] := other]} in
  (main w (Some (Config (Some [EntryStr "o/r"; EntryOther]))) fs).1.2
    !! ["data"; "p"; "q"] = Some other.
Proof.
  intros w other fs.
  destruct (main_preserves w (Some (Config (Some [EntryStr "o/r"; EntryOther])))
              fs ["data"; "p"; "q"] other) as (dir' & Hlookup & _ & Hsame).
  - reflexivity.
  - rewrite Hlookup. f_equal. apply Hsame.
    intros entry name owner repo Hin Hname Hsplit.
    cbn [mbind option_bind cfg_repos default] in Hin.
    apply elem_of_cons in Hin as [->|Hin].
    + injection Hname as <-. injection Hsplit as <- <-. discriminate.
    + apply list_elem_of_singleton in Hin as ->. discriminate.
Defined.
